(** * mediumvioletred: font generation and markup augmentation

    A shallow embedding of [mediumvioletred.py] (class [FontGeneratorApp]):
    the FontForge script builder, the glyph collection that feeds the
    external compiler, the tag extraction of [load_html_tags] and the
    backup-then-write augmentation of [modify_html].

    Texts are byte strings (UTF-8 encoded, as Python reads and writes
    them); the file system is a finite map from paths to contents. *)

From Stdlib Require Import Ascii String.
From stdpp Require Import base option list sorting strings pretty gmap.

Set Warnings "-register-all".

(** Equality tests on characters and strings stay folded under [simpl]. *)
Arguments Ascii.ascii_dec : simpl never.
Arguments String.eq_dec : simpl never.

Local Open Scope string_scope.
Local Open Scope list_scope.

(** ** Python string operations *)

Module Str.

Definition chr (n : nat) : string := String (ascii_of_nat n) EmptyString.

(** The characters a Rocq literal cannot hold directly. *)
Definition dq : string := chr 34.
Definition LF : string := chr 10.
Definition CR : string := chr 13.

(** [f"...\"{s}\"..."]: a double-quoted substitution. *)
Definition quoted (s : string) : string := dq +:+ s +:+ dq.

(** [''.join(l)] *)
Definition concat_all (l : list string) : string :=
  foldr String.append EmptyString l.

(** [sep.join(l)] *)
Fixpoint join (sep : string) (l : list string) : string :=
  match l with
  | [] => EmptyString
  | [x] => x
  | x :: l' => x +:+ sep +:+ join sep l'
  end.

(** [s.startswith(p)] *)
Definition startswith (p s : string) : bool := String.prefix p s.

(** [s.endswith(p)]: some suffix of [s] is [p]. *)
Fixpoint endswith (p s : string) : bool :=
  if decide (s = p) then true
  else match s with
       | EmptyString => false
       | String _ s' => endswith p s'
       end.

(** [s[len(p):]] when [s] starts with [p]. *)
Fixpoint strip_prefix (p s : string) : option string :=
  match p, s with
  | EmptyString, _ => Some s
  | String a p', String b s' => if decide (a = b) then strip_prefix p' s' else None
  | String _ _, EmptyString => None
  end.

(** [s[:-len(suffix)]] when [s] ends with [suffix]. *)
Fixpoint strip_suffix (suffix s : string) : option string :=
  if decide (s = suffix) then Some EmptyString
  else match s with
       | EmptyString => None
       | String c s' => String c <$> strip_suffix suffix s'
       end.

(** [old in s] for a non-empty [old]. *)
Fixpoint contains (old s : string) : bool :=
  startswith old s ||
  match s with
  | EmptyString => false
  | String _ s' => contains old s'
  end.



Fixpoint replace_from (old new s : string) (skip : nat) : string :=
  match s with
  | EmptyString => EmptyString
  | String c s' =>
      match skip with
      | S k => replace_from old new s' k
      | O => if startswith old s
             then new +:+ replace_from old new s' (String.length old - 1)
             else String c (replace_from old new s' 0)
      end
  end.

(** [s.replace(old, new)] for a non-empty [old]. *)
Definition replace (old new s : string) : string := replace_from old new s 0.

(** [s[s.find(sub) + len(sub):]]: what follows the first occurrence. *)
Fixpoint after (sub s : string) : option string :=
  match strip_prefix sub s with
  | Some rest => Some rest
  | None => match s with
            | EmptyString => None
            | String _ s' => after sub s'
            end
  end.



(** [s.find(sub)]: index of the first occurrence. *)
Fixpoint find (sub s : string) : option nat :=
  if startswith sub s then Some 0
  else match s with
       | EmptyString => None
       | String _ s' => S <$> find sub s'
       end.

Definition is_upper (c : ascii) : bool :=
  (65 <=? nat_of_ascii c)%nat && (nat_of_ascii c <=? 90)%nat.

Definition is_alpha (c : ascii) : bool :=
  let n := nat_of_ascii c in
  ((65 <=? n)%nat && (n <=? 90)%nat) || ((97 <=? n)%nat && (n <=? 122)%nat).

Definition lower_char (c : ascii) : ascii :=
  if is_upper c then ascii_of_nat (nat_of_ascii c + 32) else c.

(** [s.lower()] on the ASCII letters; other bytes are kept. *)
Fixpoint lower (s : string) : string :=
  match s with
  | EmptyString => EmptyString
  | String c s' => String (lower_char c) (lower s')
  end.

(** [sorted(l)]: Python orders [str] by code point, which on UTF-8
    encoded text is the order [String.le] of the byte strings. *)
Definition sorted (l : list string) : list string := merge_sort String.le l.

End Str.

(** ** The FontForge script builder *)

Definition FONT_NAME : string := "MyCustomFont".

Module Script.
Import Str.

(** The lines of the template before the [Generate] directive, each
    followed by a line feed in the emitted text. *)
Definition head_lines : list string :=
  [ EmptyString
  ; "        # Crear una nueva fuente"
  ; "        New()"
  ; EmptyString
  ; "        # Configurar metadatos de la fuente"
  ; "        SetFontNames(" +:+ quoted FONT_NAME +:+ ", " +:+ quoted FONT_NAME
      +:+ ", " +:+ quoted FONT_NAME +:+ ", " +:+ quoted "Regular" +:+ ")"
  ; "        SetTTFName(0x409, 1, " +:+ quoted FONT_NAME +:+ ")"
  ; "        SetTTFName(0x409, 2, " +:+ quoted "Regular" +:+ ")"
  ; "        SetTTFName(0x409, 3, " +:+ quoted FONT_NAME +:+ ")"
  ; "        SetTTFName(0x409, 4, " +:+ quoted FONT_NAME +:+ ")"
  ; "        SetTTFName(0x409, 5, " +:+ quoted "Version 1.0" +:+ ")"
  ; EmptyString
  ; "        # Configurar unidades"
  ; "        ScaleToEm(1000)"
  ; EmptyString
  ; "        # Iterar sobre los archivos pasados como argumentos"
  ; "        foreach($argv)"
  ; "            Open($1)"
  ; "            SelectAll()"
  ; "            Copy()"
  ; "            Close()"
  ; EmptyString
  ; "            # Obtener el nombre base del archivo (sin extensión)"
  ; "            filename = FileName($1)"
  ; "            base = FileBaseName(filename)"
  ; EmptyString
  ; "            # Obtener código Unicode del primer carácter del nombre"
  ; "            Select(CharToUnicode(substr(base, 0, 1)))"
  ; "            Paste()"
  ; "            SetWidth(600)"
  ; "            SelectNone()"
  ; "        endloop"
  ; EmptyString
  ; "        # Guardar la fuente" ].

(** The lines after the [Generate] directive. *)
Definition tail_lines : list string :=
  [ "        Close()"
  ; "        Quit(0)" ].

Definition text_of (lines : list string) : string :=
  concat_all (map (λ l, l +:+ LF) lines).

(** [output_file.replace('\\\\', '/')]: the literal holds two
    backslashes, so each run of two backslashes becomes one slash. *)
Definition output_token (output_file : string) : string :=
  replace "\\" "/" output_file.

Definition generate_fontforge_script (output_file : string) : string :=
  text_of head_lines
  +:+ "        Generate(" +:+ quoted (output_token output_file) +:+ ")" +:+ LF
  +:+ text_of tail_lines
  +:+ "        ".

(** The text before and after the output path token. *)
Definition script_before : string :=
  text_of head_lines +:+ "        Generate(" +:+ dq.

Definition script_after : string :=
  dq +:+ ")" +:+ LF +:+ text_of tail_lines +:+ "        ".



End Script.

(** ** [os.path] (POSIX flavour) *)

Module posixpath.

Definition sep : ascii := "/"%char.

(** [(p[:i], p[i:])] for [i = p.rfind('/') + 1]. *)
Fixpoint rsplit (p : string) : string * string :=
  match p with
  | EmptyString => (EmptyString, EmptyString)
  | String c p' =>
      match rsplit p' with
      | (EmptyString, t) =>
          if decide (c = sep) then (String c EmptyString, t)
          else (EmptyString, String c t)
      | (h, t) => (String c h, t)
      end
  end.

(** [s.rstrip('/')] *)
Fixpoint rstrip_sep (s : string) : string :=
  match s with
  | EmptyString => EmptyString
  | String c s' =>
      match rstrip_sep s' with
      | EmptyString => if decide (c = sep) then EmptyString else String c EmptyString
      | r => String c r
      end
  end.

Definition basename (p : string) : string := snd (rsplit p).

(** [head = p[:i]; if head and head != sep*len(head): head = head.rstrip(sep)] *)
Definition dirname (p : string) : string :=
  let head := fst (rsplit p) in
  match rstrip_sep head with
  | EmptyString => head
  | stripped => stripped
  end.

(** [os.path.join(a, b)] *)
Definition join (a b : string) : string :=
  if Str.startswith "/" b then b
  else if decide (a = EmptyString) then b
  else if Str.endswith "/" a then a +:+ b
  else a +:+ "/" +:+ b.

End posixpath.

(** ** Exceptions and the world outside the program *)

Inductive exn :=
| FileNotFoundError (path : string)
| FileExistsError (path : string)
| SameFileError (src dst : string)
| AttributeError (msg : string)
| TypeError (msg : string)
| ParserRejectedMarkup (msg : string)
| OSError (msg : string).

(** [str(e)] *)
Definition str_exn (e : exn) : string :=
  match e with
  | FileNotFoundError p => "[Errno 2] No such file or directory: '" +:+ p +:+ "'"
  | FileExistsError p => "[Errno 17] File exists: '" +:+ p +:+ "'"
  | SameFileError a b => "'" +:+ a +:+ "' and '" +:+ b +:+ "' are the same file"
  | AttributeError m | TypeError m | ParserRejectedMarkup m | OSError m => m
  end.

Inductive result (A : Type) :=
| Ok (a : A)
| Raise (e : exn).
Arguments Ok {A} a.
Arguments Raise {A} e.

(** The operations on the outside world that can fail for reasons the
    program does not control (permissions, a full disk, bytes that are
    not UTF-8, a missing executable). *)
Inductive io_op :=
| OpRead | OpMakedirs | OpCopy | OpCopyData | OpOpen | OpWrite | OpSpawn.

Record env := {
  (** [fault op path = Some e]: this operation on this path raises [e]. *)
  fault : io_op → string → option exn;
  (** What a write that fails leaves in the file, of the data it was given. *)
  torn_write : string → string;
  (** Exit status and captured stderr of the external process. *)
  run_result : list string → Z * string;
  (** What the external process leaves of the files and directories
      it finds: the font it writes, and whatever else it does. *)
  run_effect : list string → gmap string string * gset string
               → gmap string string * gset string;
  (** The directories a folder name with wildcard characters stands
      for, when [glob] matches it as a pattern. *)
  glob_dirs : string → list string
}.

(** The changes the program makes to the outside world, in order. *)
Inductive io_event :=
| EvMakedirs (path : string)
| EvCopy (src dst : string)
| EvTruncate (path : string)
| EvWrite (path data : string)
| EvSpawn (argv : list string).

Global Instance io_event_eq_dec : EqDecision io_event.
Proof. solve_decision. Defined.

Record world := {
  files : gmap string string;
  dirs : gset string;
  journal : list io_event
}.

(** ** The parse tree of BeautifulSoup *)

Inductive node :=
| Tag (name attrs : string) (contents : list node)
| NavigableString (text : string)
| Comment (text : string)
| Doctype (text : string)
| ProcessingInstruction (text : string).

(** The [BeautifulSoup] object: the children of the document root. *)
Abbreviation soup := (list node).

Module bs4.
Import Str.

(** [HTMLTreeBuilder.empty_element_tags] *)
Definition empty_element_tags : list string :=
  [ "area"; "base"; "br"; "col"; "embed"; "hr"; "img"; "input"; "keygen"
  ; "link"; "menuitem"; "meta"; "param"; "source"; "track"; "wbr"
  ; "basefont"; "bgsound"; "command"; "frame"; "image"; "isindex"
  ; "nextid"; "spacer" ].

(** [HTMLTreeBuilder.cdata_containing_tags]: strings inside these tags
    are written out unescaped. *)
Definition cdata_containing_tags : list string := [ "script"; "style" ].

Definition can_be_empty_element (name : string) : bool :=
  bool_decide (name ∈ empty_element_tags).

Definition cdata_containing (name : string) : bool :=
  bool_decide (name ∈ cdata_containing_tags).

(** [node.descendants], restricted to tags, in document order. *)
Fixpoint tags_of (x : node) : list node :=
  match x with
  | Tag _ _ c =>
      x :: (fix go (l : list node) : list node :=
              match l with
              | [] => []
              | y :: l' => (tags_of y ++ go l')%list
              end) c
  | _ => []
  end.

(** [soup.find_all()] *)
Fixpoint find_all (l : soup) : list node :=
  match l with
  | [] => []
  | y :: l' => (tags_of y ++ find_all l')%list
  end.

(** [tag.name] *)
Definition tag_name (x : node) : string :=
  match x with
  | Tag n _ _ => n
  | _ => EmptyString
  end.

(** [soup.find(name)], which [soup.head] and [soup.html] stand for:
    the first tag of that name in document order. *)
Definition find (name : string) (l : soup) : option node :=
  head (filter (λ t, tag_name t = name) (find_all l)).

(** [soup.new_tag(name)] *)
Definition new_tag (name : string) : node := Tag name EmptyString [].

(** [tag.string = s]: the contents become the single string [s]. *)
Definition set_string (s : string) (t : node) : node :=
  match t with
  | Tag n a _ => Tag n a [NavigableString s]
  | _ => t
  end.

(** [tag.append(child)] *)
Definition append (child : node) (t : node) : node :=
  match t with
  | Tag n a c => Tag n a (c ++ [child])%list
  | _ => t
  end.

(** [tag.insert(0, child)] *)
Definition insert0 (child : node) (t : node) : node :=
  match t with
  | Tag n a c => Tag n a (child :: c)
  | _ => t
  end.

(** The first tag called [name], in document order, changed by [f];
    [None] when there is no such tag. *)
Fixpoint update_tag (name : string) (f : node → node) (x : node)
  : option node :=
  match x with
  | Tag m a c =>
      if decide (m = name) then Some (f x)
      else Tag m a <$>
           (fix go (l : list node) : option (list node) :=
              match l with
              | [] => None
              | y :: l' =>
                  match update_tag name f y with
                  | Some y' => Some (y' :: l')
                  | None => cons y <$> go l'
                  end
              end) c
  | _ => None
  end.

Fixpoint update_forest (name : string) (f : node → node) (l : soup)
  : option soup :=
  match l with
  | [] => None
  | y :: l' =>
      match update_tag name f y with
      | Some y' => Some (y' :: l')
      | None => cons y <$> update_forest name f l'
      end
  end.

(** A method call [soup.find(name).f(...)] on the object that [find]
    returned: that tag is changed in place, the rest of the tree is
    untouched. *)
Definition update_first (name : string) (f : node → node) (l : soup) : soup :=
  default l (update_forest name f l).

(** [EntitySubstitution.substitute_xml], the minimal formatter. *)
Fixpoint substitute_xml (s : string) : string :=
  match s with
  | EmptyString => EmptyString
  | String c s' =>
      (if decide (c = "&"%char) then "&amp;"
       else if decide (c = "<"%char) then "&lt;"
       else if decide (c = ">"%char) then "&gt;"
       else String c EmptyString) +:+ substitute_xml s'
  end.

(** [node.decode()]; [raw] tells that the parent is one of
    [cdata_containing_tags]. *)
Fixpoint decode_node (raw : bool) (x : node) : string :=
  match x with
  | Tag n a c =>
      match c with
      | [] =>
          if can_be_empty_element n then "<" +:+ n +:+ a +:+ "/>"
          else "<" +:+ n +:+ a +:+ "></" +:+ n +:+ ">"
      | _ =>
          "<" +:+ n +:+ a +:+ ">"
          +:+ (fix go (l : list node) : string :=
                 match l with
                 | [] => EmptyString
                 | y :: l' => decode_node (cdata_containing n) y +:+ go l'
                 end) c
          +:+ "</" +:+ n +:+ ">"
      end
  | NavigableString s => if raw then s else substitute_xml s
  | Comment s => "<!--" +:+ s +:+ "-->"
  | Doctype s => "<!DOCTYPE " +:+ s +:+ ">" +:+ LF
  | ProcessingInstruction s => "<?" +:+ s +:+ ">"
  end.

(** [str(soup)] *)
Fixpoint decode (l : soup) : string :=
  match l with
  | [] => EmptyString
  | y :: l' => decode_node false y +:+ decode l'
  end.

End bs4.

(** ** The parser behind [BeautifulSoup(content, 'html.parser')]

    A model of the tokenizer of [html.parser.HTMLParser] (CPython 3.11,
    fed the whole text and then closed) and of the tree builder bs4 puts
    behind it.  It covers text, start tags, empty-element tags, end tags,
    the raw text of [script] and [style], comments, declarations and
    processing instructions.  It is simpler than the library in these
    places:
    - the text between a tag's name and its [>] is kept as it stands
      instead of as an attribute dictionary, so a [>] inside a quoted
      attribute value ends the tag, and a start tag whose text the
      library finds malformed and hands on as data is a tag here;
    - character references are kept as they stand in the text, and a
      malformed numeric reference is text like the rest, where the
      library stops looking for markup after it;
    - a marked section [<![...] is always rejected, where the library
      accepts those with a keyword it knows;
    - white space between the [</] and the name of an end tag makes
      a bogus comment of it;
    - strings are byte strings, and letter case is folded on the ASCII
      letters.
    It is the parser of the examples: the theorems on [modify_html]
    and [load_html_tags] take the parser as a parameter, but for the
    one on the number of tags reported. *)

Module htmlparser.
Import Str.

Inductive event :=
| StartTag (name attrs : string)
| StartEndTag (name attrs : string)
| EndTag (name : string)
| Data (text : string)
| CommentEv (text : string)
| Decl (text : string)
| Pi (text : string).

(** Where the tokenizer is in the input. *)
Inductive mode :=
| Text (chunk : string)            (* outside markup *)
| Lt                               (* after [<] *)
| StartName (name : string)        (* [<] and a letter *)
| StartAttrs (name attrs : string) (* after the name of a start tag *)
| LtSlash                          (* after [</] *)
| EndName (name : string)          (* [</] and a letter *)
| EndRest (name : string)          (* after the name of an end tag *)
| Bogus (body : string)            (* [</] and something else *)
| Bang (body : string)             (* after [<!] *)
| InComment (body : string)        (* after [<!--] *)
| InPi (body : string)             (* after [<?] *)
| RawText (elem text : string)     (* the content of script or style *)
| Rejected.

Definition snoc (s : string) (c : ascii) : string := s +:+ String c EmptyString.

(** [\s] of the regular expressions, on ASCII. *)
Definition is_space (c : ascii) : bool :=
  let n := nat_of_ascii c in
  ((9 <=? n)%nat && (n <=? 13)%nat) || (n =? 32)%nat.

(** What ends a tag name: [tagfind_tolerant] stops at [\t\n\r\f />]. *)
Definition ends_name (c : ascii) : bool :=
  let n := nat_of_ascii c in
  (n =? 9)%nat || (n =? 10)%nat || (n =? 12)%nat || (n =? 13)%nat
  || (n =? 32)%nat || (n =? 47)%nat || (n =? 62)%nat.

(** [s.rstrip()] *)
Fixpoint rstrip (s : string) : string :=
  match s with
  | EmptyString => EmptyString
  | String c s' =>
      match rstrip s' with
      | EmptyString => if is_space c then EmptyString else String c EmptyString
      | r => String c r
      end
  end.

Definition CDATA_CONTENT_ELEMENTS : list string := [ "script"; "style" ].

Definition flush (chunk : string) (out : list event) : list event :=
  if decide (chunk = EmptyString) then out else out ++ [Data chunk].

(** The end of a start tag: [<name ... />] is an empty-element tag,
    and after the start tag of script or style the text is raw. *)
Definition start_tag (name attrs : string) (out : list event)
  : mode * list event :=
  let tag := lower name in
  match strip_suffix "/" attrs with
  | Some attrs' => (Text EmptyString, out ++ [StartEndTag tag attrs'])
  | None =>
      (if bool_decide (tag ∈ CDATA_CONTENT_ELEMENTS)
       then RawText tag EmptyString else Text EmptyString,
       out ++ [StartTag tag attrs])
  end.

(** The comment body when what was read of a comment, followed by
    [>], matches [--\s*>] at its end. *)
Definition comment_close (body : string) : option string :=
  strip_suffix "--" (rstrip body).

(** The data before the closing tag when the raw text read so far,
    followed by [>], ends with a match of [</\s*elem\s*>], letter case
    ignored. *)
Definition raw_close (elem text : string) : option string :=
  let t := rstrip text in
  let n := String.length t - String.length elem in
  if decide (lower (substring n (String.length elem) t) = elem
             ∧ (String.length elem ≤ String.length t)%nat)
  then strip_suffix "</" (rstrip (substring 0 n t))
  else None.

Definition declaration (body : string) : event :=
  if decide (lower (substring 0 7 body) = "doctype") then Decl body
  else CommentEv body.

Definition step (l : mode * list event) (c : ascii) : mode * list event :=
  let (m, out) := l in
  match m with
  | Text chunk =>
      if decide (c = "<"%char) then (Lt, flush chunk out)
      else (Text (snoc chunk c), out)
  | Lt =>
      if is_alpha c then (StartName (String c EmptyString), out)
      else if decide (c = "/"%char) then (LtSlash, out)
      else if decide (c = "!"%char) then (Bang EmptyString, out)
      else if decide (c = "?"%char) then (InPi EmptyString, out)
      else if decide (c = "<"%char) then (Lt, out ++ [Data "<"])
      else (Text (String c EmptyString), out ++ [Data "<"])
  | StartName name =>
      if decide (c = ">"%char) then start_tag name EmptyString out
      else if ends_name c then (StartAttrs name (String c EmptyString), out)
      else (StartName (snoc name c), out)
  | StartAttrs name attrs =>
      if decide (c = ">"%char) then start_tag name attrs out
      else (StartAttrs name (snoc attrs c), out)
  | LtSlash =>
      if is_alpha c then (EndName (String c EmptyString), out)
      else if decide (c = ">"%char) then (Text EmptyString, out)
      else (Bogus (String c EmptyString), out)
  | EndName name =>
      if decide (c = ">"%char) then (Text EmptyString, out ++ [EndTag (lower name)])
      else if ends_name c then (EndRest name, out)
      else (EndName (snoc name c), out)
  | EndRest name =>
      if decide (c = ">"%char) then (Text EmptyString, out ++ [EndTag (lower name)])
      else (EndRest name, out)
  | Bogus body =>
      if decide (c = ">"%char) then (Text EmptyString, out ++ [CommentEv body])
      else (Bogus (snoc body c), out)
  | Bang body =>
      if decide (body = "-" ∧ c = "-"%char) then (InComment EmptyString, out)
      else if decide (body = EmptyString ∧ c = "["%char) then (Rejected, out)
      else if decide (c = ">"%char) then (Text EmptyString, out ++ [declaration body])
      else (Bang (snoc body c), out)
  | InComment body =>
      match (if decide (c = ">"%char) then comment_close body else None) with
      | Some text => (Text EmptyString, out ++ [CommentEv text])
      | None => (InComment (snoc body c), out)
      end
  | InPi body =>
      if decide (c = ">"%char) then (Text EmptyString, out ++ [Pi body])
      else (InPi (snoc body c), out)
  | RawText elem text =>
      match (if decide (c = ">"%char) then raw_close elem text else None) with
      | Some data => (Text EmptyString, flush data out ++ [EndTag elem])
      | None => (RawText elem (snoc text c), out)
      end
  | Rejected => (Rejected, out)
  end.

(** [parser.feed(markup)] *)
Fixpoint feed (l : mode * list event) (markup : string) : mode * list event :=
  match markup with
  | EmptyString => l
  | String c rest => feed (step l c) rest
  end.

(** The comment of an unfinished [<!--] at the end of the input. *)
Definition unfinished_comment (body : string) : string :=
  match strip_suffix "--!" body with
  | Some b => b
  | None =>
      match strip_suffix "--" body with
      | Some b => b
      | None => default body (strip_suffix "-" body)
      end
  end.

(** [parser.close()]: what is pending at the end of the input. *)
Definition close (l : mode * list event) : result (list event) :=
  let (m, out) := l in
  match m with
  | Text chunk => Ok (flush chunk out)
  | Lt => Ok (out ++ [Data "<"])
  | LtSlash => Ok (out ++ [Data "</"])
  | StartName _ | StartAttrs _ _ | EndName _ | EndRest _ => Ok out
  | Bogus body => Ok (out ++ [CommentEv body])
  | Bang body => Ok (out ++ [declaration body])
  | InComment body => Ok (out ++ [CommentEv (unfinished_comment body)])
  | InPi body => Ok (out ++ [Pi body])
  | RawText _ _ => Ok out
  | Rejected => Raise (ParserRejectedMarkup "unknown status keyword in marked section")
  end.

Definition tokenize (markup : string) : result (list event) :=
  close (feed (Text EmptyString, []) markup).

(** *** The tree builder *)

(** An open tag and the children it has so far. *)
Record frame := { f_name : string; f_attrs : string; f_contents : list node }.

Record builder := {
  root : list node;                 (* the children of the document *)
  tagStack : list frame;            (* the open tags, innermost first *)
  current_data : list string;       (* the text chunks not yet a node *)
  already_closed_empty_element : list string
}.

Definition preserve_whitespace_tags : list string := [ "pre"; "textarea" ].

(** [ASCII_SPACES] of bs4. *)
Definition ascii_space (c : ascii) : bool :=
  let n := nat_of_ascii c in
  (n =? 32)%nat || (n =? 10)%nat || (n =? 9)%nat || (n =? 12)%nat || (n =? 13)%nat.

Fixpoint all_chars (P : ascii → bool) (s : string) : bool :=
  match s with
  | EmptyString => true
  | String c s' => P c && all_chars P s'
  end.

(** [object_was_parsed]: a node goes last in the innermost open tag. *)
Definition add_node (x : node) (b : builder) : builder :=
  match tagStack b with
  | f :: st =>
      {| root := root b;
         tagStack := {| f_name := f_name f; f_attrs := f_attrs f;
                        f_contents := f_contents f ++ [x] |} :: st;
         current_data := current_data b;
         already_closed_empty_element := already_closed_empty_element b |}
  | [] =>
      {| root := root b ++ [x]; tagStack := [];
         current_data := current_data b;
         already_closed_empty_element := already_closed_empty_element b |}
  end.

(** [endData(containerClass)]: the pending chunks become one string
    node; a string of white space only shrinks to one character unless
    a [pre] or [textarea] is open. *)
Definition endData (container : string → node) (b : builder) : builder :=
  match current_data b with
  | [] => b
  | chunks =>
      let data := concat_all chunks in
      let data :=
        if all_chars ascii_space data
           && negb (existsb (λ f, bool_decide (f_name f ∈ preserve_whitespace_tags))
                      (tagStack b))
        then (if contains LF data then LF else " ")
        else data in
      add_node (container data)
        {| root := root b; tagStack := tagStack b; current_data := [];
           already_closed_empty_element := already_closed_empty_element b |}
  end.

Definition handle_data (data : string) (b : builder) : builder :=
  {| root := root b; tagStack := tagStack b;
     current_data := current_data b ++ [data];
     already_closed_empty_element := already_closed_empty_element b |}.

Definition pushTag (name attrs : string) (b : builder) : builder :=
  {| root := root b;
     tagStack := {| f_name := name; f_attrs := attrs; f_contents := [] |} :: tagStack b;
     current_data := current_data b;
     already_closed_empty_element := already_closed_empty_element b |}.

(** [popTag]: the innermost open tag is complete. *)
Definition popTag (b : builder) : builder :=
  match tagStack b with
  | f :: st =>
      add_node (Tag (f_name f) (f_attrs f) (f_contents f))
        {| root := root b; tagStack := st; current_data := current_data b;
           already_closed_empty_element := already_closed_empty_element b |}
  | [] => b
  end.

(** The pops of [_popToTag] once the name is known to be open. *)
Fixpoint pop_through (name : string) (n : nat) (b : builder) : builder :=
  match n with
  | O => b
  | S n' =>
      match tagStack b with
      | f :: _ =>
          if decide (f_name f = name) then popTag b
          else pop_through name n' (popTag b)
      | [] => b
      end
  end.

(** [_popToTag(name)]: nothing happens when no tag of that name is
    open. *)
Definition popToTag (name : string) (b : builder) : builder :=
  if bool_decide (name ∈ map f_name (tagStack b))
  then pop_through name (length (tagStack b)) b
  else b.

(** [soup.handle_endtag(name)] *)
Definition soup_endtag (name : string) (b : builder) : builder :=
  popToTag name (endData NavigableString b).

Definition mark_closed (name : string) (b : builder) : builder :=
  {| root := root b; tagStack := tagStack b; current_data := current_data b;
     already_closed_empty_element := already_closed_empty_element b ++ [name] |}.

(** [list.remove(x)]: the first occurrence goes. *)
Fixpoint remove_first (x : string) (l : list string) : list string :=
  match l with
  | [] => []
  | y :: l' => if decide (y = x) then l' else y :: remove_first x l'
  end.

(** [BeautifulSoupHTMLParser.handle_endtag] *)
Definition handle_endtag (name : string) (check_already_closed : bool)
    (b : builder) : builder :=
  if check_already_closed
     && bool_decide (name ∈ already_closed_empty_element b)
  then {| root := root b; tagStack := tagStack b; current_data := current_data b;
          already_closed_empty_element :=
            remove_first name (already_closed_empty_element b) |}
  else soup_endtag name b.

(** [BeautifulSoupHTMLParser.handle_starttag] *)
Definition handle_starttag (name attrs : string) (handle_empty_element : bool)
    (b : builder) : builder :=
  let b := pushTag name attrs (endData NavigableString b) in
  if bs4.can_be_empty_element name && handle_empty_element
  then mark_closed name (handle_endtag name false b)
  else b.

(** [handle_comment], [handle_decl] and [handle_pi]. *)
Definition handle_special (container : string → node) (data : string)
    (b : builder) : builder :=
  endData container (handle_data data (endData NavigableString b)).

Definition handle (b : builder) (ev : event) : builder :=
  match ev with
  | StartTag name attrs => handle_starttag name attrs true b
  | StartEndTag name attrs =>
      handle_endtag name true (handle_starttag name attrs false b)
  | EndTag name => handle_endtag name true b
  | Data text => handle_data text b
  | CommentEv text => handle_special Comment text b
  | Decl text =>
      handle_special Doctype (substring 8 (String.length text - 8) text) b
  | Pi text => handle_special ProcessingInstruction text b
  end.

Fixpoint pop_all (n : nat) (b : builder) : builder :=
  match n with
  | O => b
  | S n' => pop_all n' (popTag b)
  end.

(** The end of [BeautifulSoup._feed]: the pending text becomes a
    node and every open tag is closed. *)
Definition finish (b : builder) : soup :=
  let b := endData NavigableString b in
  root (pop_all (length (tagStack b)) b).

Definition reset : builder :=
  {| root := []; tagStack := []; current_data := [];
     already_closed_empty_element := [] |}.

Definition build (events : list event) : soup :=
  finish (foldl handle reset events).

Definition BeautifulSoup (markup : string) : result soup :=
  match tokenize markup with
  | Ok events => Ok (build events)
  | Raise e => Raise e
  end.

End htmlparser.

(** ** The application object *)

Record App := {
  svg_folder : string;
  html_file : string;
  temp_dir : string;
  fontforge_path : option string;
  svg_path_edit : string;
  file_path_edit : string;
  (** The items of the tag list widget, each with its selected flag. *)
  tags_list : list (string * bool);
  (** Whether the two action buttons are enabled. *)
  generate_btn : bool;
  modify_btn : bool;
  (** The lines of the message panel. *)
  console : list string
}.

Definition set_svg_folder (v : string) (a : App) : App :=
  {| svg_folder := v; html_file := html_file a; temp_dir := temp_dir a;
     fontforge_path := fontforge_path a; svg_path_edit := svg_path_edit a;
     file_path_edit := file_path_edit a; tags_list := tags_list a;
     generate_btn := generate_btn a; modify_btn := modify_btn a;
     console := console a |}.

Definition set_html_file (v : string) (a : App) : App :=
  {| svg_folder := svg_folder a; html_file := v; temp_dir := temp_dir a;
     fontforge_path := fontforge_path a; svg_path_edit := svg_path_edit a;
     file_path_edit := file_path_edit a; tags_list := tags_list a;
     generate_btn := generate_btn a; modify_btn := modify_btn a;
     console := console a |}.

Definition set_svg_path_edit (v : string) (a : App) : App :=
  {| svg_folder := svg_folder a; html_file := html_file a; temp_dir := temp_dir a;
     fontforge_path := fontforge_path a; svg_path_edit := v;
     file_path_edit := file_path_edit a; tags_list := tags_list a;
     generate_btn := generate_btn a; modify_btn := modify_btn a;
     console := console a |}.

Definition set_file_path_edit (v : string) (a : App) : App :=
  {| svg_folder := svg_folder a; html_file := html_file a; temp_dir := temp_dir a;
     fontforge_path := fontforge_path a; svg_path_edit := svg_path_edit a;
     file_path_edit := v; tags_list := tags_list a;
     generate_btn := generate_btn a; modify_btn := modify_btn a;
     console := console a |}.

Definition set_tags_list (v : list (string * bool)) (a : App) : App :=
  {| svg_folder := svg_folder a; html_file := html_file a; temp_dir := temp_dir a;
     fontforge_path := fontforge_path a; svg_path_edit := svg_path_edit a;
     file_path_edit := file_path_edit a; tags_list := v;
     generate_btn := generate_btn a; modify_btn := modify_btn a;
     console := console a |}.

Definition set_generate_btn (v : bool) (a : App) : App :=
  {| svg_folder := svg_folder a; html_file := html_file a; temp_dir := temp_dir a;
     fontforge_path := fontforge_path a; svg_path_edit := svg_path_edit a;
     file_path_edit := file_path_edit a; tags_list := tags_list a;
     generate_btn := v; modify_btn := modify_btn a;
     console := console a |}.

Definition set_modify_btn (v : bool) (a : App) : App :=
  {| svg_folder := svg_folder a; html_file := html_file a; temp_dir := temp_dir a;
     fontforge_path := fontforge_path a; svg_path_edit := svg_path_edit a;
     file_path_edit := file_path_edit a; tags_list := tags_list a;
     generate_btn := generate_btn a; modify_btn := v;
     console := console a |}.

Definition set_console (v : list string) (a : App) : App :=
  {| svg_folder := svg_folder a; html_file := html_file a; temp_dir := temp_dir a;
     fontforge_path := fontforge_path a; svg_path_edit := svg_path_edit a;
     file_path_edit := file_path_edit a; tags_list := tags_list a;
     generate_btn := generate_btn a; modify_btn := modify_btn a;
     console := v |}.

Definition set_files (v : gmap string string) (w : world) : world :=
  {| files := v; dirs := dirs w; journal := journal w |}.

Definition set_dirs (v : gset string) (w : world) : world :=
  {| files := files w; dirs := v; journal := journal w |}.

Definition record (ev : io_event) (w : world) : world :=
  {| files := files w; dirs := dirs w; journal := journal w ++ [ev] |}.

(** ** Methods run in a state and exception monad *)

Record state := { self : App; os : world }.

Definition M (A : Type) : Type := state → result A * state.

Global Instance M_ret : MRet M := λ _ a s, (Ok a, s).

Global Instance M_bind : MBind M := λ _ _ f m s,
  match m s with
  | (Ok a, s') => f a s'
  | (Raise e, s') => (Raise e, s')
  end.

Definition raise {A} (e : exn) : M A := λ s, (Raise e, s).

(** [try: body  except Exception as e: handler(e)] *)
Definition try_except {A} (body : M A) (handler : exn → M A) : M A := λ s,
  match body s with
  | (Ok a, s') => (Ok a, s')
  | (Raise e, s') => handler e s'
  end.

Definition get_self : M App := λ s, (Ok (self s), s).
Definition get_os : M world := λ s, (Ok (os s), s).

Definition modify_self (f : App → App) : M unit := λ s,
  (Ok (), {| self := f (self s); os := os s |}).

Definition modify_os (f : world → world) : M unit := λ s,
  (Ok (), {| self := self s; os := f (os s) |}).

(** [self.console.append(message)] *)
Definition log_message (message : string) : M unit :=
  modify_self (λ a, set_console (console a ++ [message]) a).

(** ** File and process operations *)

Module Import io.
Import Str.

(** Text mode reading translates ["\r\n"] and a lone ["\r"] to ["\n"]. *)
Fixpoint universal_newlines (s : string) : string :=
  match s with
  | EmptyString => EmptyString
  | String c s' =>
      if decide (c = "013"%char) then
        match s' with
        | String c' _ =>
            if decide (c' = "010"%char) then universal_newlines s'
            else String "010"%char (universal_newlines s')
        | EmptyString => String "010"%char EmptyString
        end
      else String c (universal_newlines s')
  end.

(** The paths that exist: files and directories. *)
Definition entries (w : world) : list string :=
  (map fst (map_to_list (files w)) ++ elements (dirs w))%list.

(** A name matched by the pattern [*.svg]: [fnmatch] is case sensitive
    on POSIX, and [glob] leaves out names with a leading dot. *)
Definition matches_svg (name : string) : bool :=
  endswith ".svg" name && negb (startswith "." name).

(** [path] is the entry [name] of the directory [folder]. *)
Definition svg_entry (folder path : string) : bool :=
  match strip_prefix (posixpath.join folder EmptyString) path with
  | Some name => negb (contains "/" name) && matches_svg name
  | None => false
  end.

(** [glob.has_magic]: the text holds one of [*], [?] and [[]. *)
Definition has_magic (s : string) : bool :=
  contains "*" s || contains "?" s || contains "[" s.

(** The directory part of the pattern:
    [os.path.split(os.path.join(folder, "*.svg"))[0]]. *)
Definition glob_dir (folder : string) : string :=
  posixpath.dirname (posixpath.join folder "*.svg").

(** [glob._glob1(dirname, "*.svg")], each name joined to [dirname]:
    the matching entries of one directory; the order is the file
    system's. *)
Definition glob1_svg (w : world) (dirname : string) : list string :=
  filter (λ p, svg_entry dirname p) (entries w).

(** [glob.glob(os.path.join(folder, "*.svg"))].  [glob] does not take
    the folder as it is: a folder name with a wildcard character is a
    pattern of its own, and the entries of every directory it matches
    are listed (the directory [set1] for the folder [set[1]]).  Which
    directories those are is for the environment to say. *)
Definition glob_svg (E : env) (w : world) (folder : string) : list string :=
  let dirname := glob_dir folder in
  if has_magic dirname then flat_map (glob1_svg w) (glob_dirs E dirname)
  else glob1_svg w dirname.

(** [os.path.exists(path)] *)
Definition exists_path (w : world) (path : string) : bool :=
  bool_decide (is_Some (files w !! path)) || bool_decide (path ∈ dirs w).

Section ops.
Variable E : env.

Definition guard_fault (op : io_op) (path : string) : M unit :=
  match fault E op path with
  | Some e => raise e
  | None => mret ()
  end.

(** [with open(path, 'r', encoding='utf-8') as f: f.read()] *)
Definition read_text (path : string) : M string :=
  guard_fault OpRead path;;
  w ← get_os;
  match files w !! path with
  | None => raise (FileNotFoundError path)
  | Some bytes => mret (universal_newlines bytes)
  end.

(** [open(path, 'w', encoding='utf-8')]: the file is emptied as soon
    as it is opened. *)
Definition open_w (path : string) : M unit :=
  guard_fault OpOpen path;;
  modify_os (λ w, record (EvTruncate path) (set_files (<[path := EmptyString]> (files w)) w)).

(** [f.write(data)] and the close at the end of the [with] block; on
    POSIX the text is written as it is, line ends included. *)
Definition write (path data : string) : M unit :=
  match fault E OpWrite path with
  | Some e =>
      modify_os (λ w, set_files (<[path := torn_write E data]> (files w)) w);;
      raise e
  | None =>
      modify_os (λ w, record (EvWrite path data) (set_files (<[path := data]> (files w)) w))
  end.

(** [os.makedirs(path, exist_ok=True)] *)
Definition makedirs (path : string) : M unit :=
  guard_fault OpMakedirs path;;
  w ← get_os;
  if decide (is_Some (files w !! path)) then raise (FileExistsError path)
  else if decide (path ∈ dirs w) then mret ()
  else modify_os (λ w, record (EvMakedirs path) (set_dirs ({[path]} ∪ dirs w) w)).

(** Where [shutil.copy2(src, dst)] writes: into [dst] when it is a
    directory. *)
Definition copy2_target (w : world) (src dst : string) : string :=
  if decide (dst ∈ dirs w) then posixpath.join dst (posixpath.basename src)
  else dst.

(** [shutil.copy2(src, dst)] *)
Definition copy2 (src dst : string) : M unit :=
  w ← get_os;
  let dst := copy2_target w src dst in
  if decide (src = dst) then raise (SameFileError src dst)
  else
    guard_fault OpCopy dst;;
    match files w !! src with
    | None => raise (FileNotFoundError src)
    | Some bytes =>
        match fault E OpCopyData dst with
        | Some e =>
            modify_os (λ w, set_files (<[dst := torn_write E bytes]> (files w)) w);;
            raise e
        | None =>
            modify_os (λ w, record (EvCopy src dst) (set_files (<[dst := bytes]> (files w)) w))
        end
    end.

(** [subprocess.run([program] + args, capture_output=True, text=True)]:
    the process is started, does to the files what the environment
    says, and its exit status and captured stderr come back.  The
    program is [self.fontforge_path], which is [None] when FontForge
    was not found. *)
Definition subprocess_run (program : option string) (args : list string)
  : M (Z * string) :=
  match program with
  | None => raise (TypeError "expected str, bytes or os.PathLike object, not NoneType")
  | Some path =>
      guard_fault OpSpawn path;;
      modify_os (record (EvSpawn (path :: args)));;
      modify_os (λ w,
        let left := run_effect E (path :: args) (files w, dirs w) in
        set_dirs left.2 (set_files left.1 w));;
      mret (run_result E (path :: args))
  end.

End ops.
End io.

(** ** The methods of [FontGeneratorApp] *)

Section FontGeneratorApp.
Import Str Script.

(** The environment of the run. *)
Variable E : env.

(** [BeautifulSoup(content, 'html.parser')]: any parser, which may
    reject its input. *)
Variable BeautifulSoup : string → result soup.

Definition parse (content : string) : M soup :=
  match BeautifulSoup content with
  | Ok t => mret t
  | Raise e => raise e
  end.

Definition possible_paths : list string :=
  [ "/usr/bin/fontforge"
  ; "/usr/local/bin/fontforge"
  ; "C:/Program Files (x86)/FontForgeBuilds/bin/fontforge.exe"
  ; "C:/Program Files/FontForgeBuilds/bin/fontforge.exe" ].

Definition find_fontforge (w : world) : option string :=
  head (filter (λ p, exists_path w p) possible_paths).

(** [__init__], with the directory [tempfile.mkdtemp()] returned. *)
Definition init (tmp : string) (w : world) : App :=
  let found := find_fontforge w in
  {| svg_folder := EmptyString; html_file := EmptyString; temp_dir := tmp;
     fontforge_path := found;
     svg_path_edit := EmptyString; file_path_edit := EmptyString;
     tags_list := []; generate_btn := false; modify_btn := false;
     console :=
       [ match found with
         | Some path => "✅ FontForge encontrado en: " +:+ path
         | None => "⚠️ FontForge no encontrado. Necesario para generar fuentes."
         end
       ; "✅ BeautifulSoup4 está instalado" ] |}.

(** [select_svg_folder], with the folder the dialog returned. *)
Definition select_svg_folder (folder : string) : M unit :=
  if decide (folder = EmptyString) then mret ()
  else
    w ← get_os;
    let svg_files := glob_svg E w folder in
    match svg_files with
    | _ :: _ =>
        app ← get_self;
        modify_self (set_svg_folder folder);;
        modify_self (set_svg_path_edit folder);;
        modify_self (set_generate_btn (bool_decide (is_Some (fontforge_path app))));;
        log_message ("📂 Carpeta SVG seleccionada: " +:+ folder +:+ " ("
                     +:+ pretty (length svg_files) +:+ " archivos)")
    | [] =>
        log_message "❌ No se encontraron archivos SVG en la carpeta";;
        modify_self (set_generate_btn false)
    end.

(** The items [load_html_tags] puts in the list: the names of the
    tags of the tree, as a set, sorted, the empty name left out. *)
Definition tag_set (t : soup) : gset string :=
  list_to_set (map bs4.tag_name (bs4.find_all t)).

Definition tag_items (t : soup) : list string :=
  filter (λ tag, (0 < String.length tag)%nat) (sorted (elements (tag_set t))).

Definition load_html_tags : M unit :=
  modify_self (set_tags_list []);;
  try_except
    (app ← get_self;
     content ← read_text E (html_file app);
     t ← parse content;
     modify_self (set_tags_list (map (λ tag, (tag, false)) (tag_items t)));;
     modify_self (set_modify_btn true);;
     log_message ("🏷️ Etiquetas encontradas: " +:+ pretty (size (tag_set t))))
    (λ e,
     log_message ("❌ Error al cargar archivo: " +:+ str_exn e);;
     modify_self (set_modify_btn false)).

(** [select_html_file], with the file the dialog returned. *)
Definition select_html_file (file : string) : M unit :=
  if decide (file = EmptyString) then mret ()
  else
    modify_self (set_html_file file);;
    modify_self (set_file_path_edit file);;
    load_html_tags;;
    log_message ("📄 Archivo seleccionado: " +:+ file).

(** A click on row [i] of the list, which is in multi-selection mode. *)
Definition toggle_item (i : nat) : M unit :=
  modify_self (λ a, set_tags_list
                      (alter (λ it, (it.1, negb it.2)) i (tags_list a)) a).

(** [[item.text() for item in self.tags_list.selectedItems()]] *)
Definition selected_items (a : App) : list string :=
  map fst (filter (λ it, it.2 = true) (tags_list a)).

(** The glyph files handed to the compiler. *)
Definition svg_files_of (w : world) (folder : string) : list string :=
  sorted (glob_svg E w folder).

(** [generate_font], with the path the save dialog returned. *)
Definition generate_font (output_file : string) : M unit :=
  app ← get_self;
  if decide (svg_folder app = EmptyString) then
    log_message "❌ Primero selecciona una carpeta SVG"
  else if decide (output_file = EmptyString) then mret ()
  else
    log_message "⏳ Generando fuente...";;
    try_except
      (let script_path := posixpath.join (temp_dir app) "generate_font.pe" in
       open_w E script_path;;
       write E script_path (generate_fontforge_script output_file);;
       w ← get_os;
       let svg_files := svg_files_of w (svg_folder app) in
       res ← subprocess_run E (fontforge_path app)
               (["-script"; script_path] ++ svg_files);
       if decide (res.1 = 0%Z) then
         log_message ("✅ Fuente generada exitosamente: " +:+ output_file);;
         log_message "⚠️ Nota: Los archivos SVG deben tener nombres Unicode (ej: U+0041.svg)"
       else
         log_message ("❌ Error al generar fuente: " +:+ res.2))
      (λ e, log_message ("❌ Error crítico: " +:+ str_exn e)).

(** The style sheet text of [modify_html]. *)
Definition css (selected_tags : list string) : string :=
  LF
  +:+ "            @font-face {" +:+ LF
  +:+ "                font-family: '" +:+ FONT_NAME +:+ "';" +:+ LF
  +:+ "                src: url('" +:+ FONT_NAME +:+ ".ttf') format('truetype');" +:+ LF
  +:+ "                font-weight: normal;" +:+ LF
  +:+ "                font-style: normal;" +:+ LF
  +:+ "            }" +:+ LF
  +:+ LF
  +:+ "            " +:+ join ", " selected_tags +:+ " {" +:+ LF
  +:+ "                font-family: '" +:+ FONT_NAME +:+ "', sans-serif;" +:+ LF
  +:+ "            }" +:+ LF
  +:+ "            ".

Definition style_tag (selected_tags : list string) : node :=
  bs4.set_string (css selected_tags) (bs4.new_tag "style").

(** Lines 275 to 282: the style tag goes at the end of [soup.head];
    without a head, a new head holding it goes first in [soup.html];
    without that either, [soup.html] is [None] and has no [insert]. *)
Definition add_style (selected_tags : list string) (t : soup) : result soup :=
  match bs4.find "head" t with
  | Some _ =>
      Ok (bs4.update_first "head" (bs4.append (style_tag selected_tags)) t)
  | None =>
      let head_tag := bs4.append (style_tag selected_tags) (bs4.new_tag "head") in
      match bs4.find "html" t with
      | Some _ => Ok (bs4.update_first "html" (bs4.insert0 head_tag) t)
      | None => Raise (AttributeError "'NoneType' object has no attribute 'insert'")
      end
  end.

Definition backup_dir_of (file : string) : string :=
  posixpath.join (posixpath.dirname file) "backups".

Definition backup_file_of (file : string) : string :=
  posixpath.join (backup_dir_of file) (posixpath.basename file).

(** Where the backup of [file] lands. *)
Definition backup_target (w : world) (file : string) : string :=
  copy2_target w file (backup_file_of file).

(** The [try] block of [modify_html]. *)
Definition modify_html_try (app : App) (selected_tags : list string) : M unit :=
  content ← read_text E (html_file app);
  t ← parse content;
  t' ← match add_style selected_tags t with
       | Ok t' => mret t'
       | Raise e => raise e
       end;
  let backup_dir := backup_dir_of (html_file app) in
  makedirs E backup_dir;;
  let base_name := posixpath.basename (html_file app) in
  let backup_file := posixpath.join backup_dir base_name in
  copy2 E (html_file app) backup_file;;
  open_w E (html_file app);;
  write E (html_file app) (bs4.decode t');;
  log_message ("✅ Archivo modificado: " +:+ html_file app);;
  log_message ("   Etiquetas actualizadas: " +:+ join ", " selected_tags);;
  log_message ("   Usando fuente: " +:+ FONT_NAME);;
  if decide (backup_file = EmptyString) then mret ()
  else log_message ("   Se creó un backup en: " +:+ backup_file).

Definition modify_html : M unit :=
  app ← get_self;
  if decide (html_file app = EmptyString) then
    log_message "❌ Primero selecciona un archivo HTML/PHP"
  else
    let selected_tags := selected_items app in
    match selected_tags with
    | [] => log_message "❌ Selecciona al menos una etiqueta"
    | _ :: _ =>
        try_except
          (modify_html_try app selected_tags)
          (λ e, log_message ("❌ Error al modificar archivo: " +:+ str_exn e))
    end.

End FontGeneratorApp.

(** ** Closing the window, and the actions the window offers *)

(** [path] is the directory [dir] or an entry somewhere under it. *)
Definition inside (dir path : string) : bool :=
  bool_decide (path = dir) || Str.startswith (posixpath.join dir EmptyString) path.

(** [shutil.rmtree] fails when the file system refuses to remove an
    entry of the tree. *)
Definition refused (resists : string → bool) (w : world) (dir : string) : bool :=
  existsb (λ q, inside dir q && resists q) (entries w).

(** The entries [shutil.rmtree] does not take away: those that resist
    and, as it stops at the first refusal, those it had not reached by
    then. *)
Definition left (resists reached : string → bool) (w : world) (dir q : string)
    : bool :=
  resists q || (refused resists w dir && negb (reached q)).

(** An entry stays as long as it, or something under it, is left. *)
Definition stays (resists reached : string → bool) (w : world)
    (dir path : string) : bool :=
  existsb (λ q, inside path q && left resists reached w dir q) (entries w).

Definition removed (resists reached : string → bool) (w : world)
    (dir path : string) : bool :=
  inside dir path && negb (stays resists reached w dir path).

(** [shutil.rmtree(path)].  [resists] tells which entries the file
    system refuses to remove (permissions, a file in use); [rmtree]
    stops at the first refusal and raises, and what it had removed by
    then stays removed.  The order in which it goes through the tree
    is that of the directory listings, which the file system decides:
    [reached] tells which entries it had come to when it stopped.  The
    record of changes, which is that of the font and document methods,
    is left as it is. *)
Definition rmtree (resists reached : string → bool) (path : string) : M unit :=
  w ← get_os;
  if decide (is_Some (files w !! path)) then
    raise (OSError ("[Errno 20] Not a directory: '" +:+ path +:+ "'"))
  else if decide (path = EmptyString ∨ path ∉ dirs w) then
    raise (FileNotFoundError path)
  else
    modify_os (λ w',
      set_dirs (filter (λ p, removed resists reached w path p = false) (dirs w'))
        (set_files
           (filter (λ kv, removed resists reached w path kv.1 = false) (files w'))
           w'));;
    if refused resists w path
    then raise (OSError "[Errno 13] Permission denied")
    else mret ().

(** [closeEvent]: the temporary directory is removed, and whatever
    goes wrong with that is passed over; the event is accepted. *)
Definition closeEvent (resists reached : string → bool) : M unit :=
  app ← get_self;
  try_except (rmtree resists reached (temp_dir app)) (λ _, mret ()).

Section window_actions.
Variable BeautifulSoup : string → result soup.

(** What can happen to the window once it is up: the slots [init_ui]
    connects to the buttons, with the answer of the dialog each one
    opens (the empty string when the dialog is cancelled), a click on
    a row of the tag list, the closing of the window, and a change of
    the files by somebody else.  A slot can be called whether its
    button is enabled or not. *)
Inductive action :=
| SelectSvgFolder (folder : string)
| SelectHtmlFile (file : string)
| ClickTag (row : nat)
| GenerateFont (output_file : string)
| ModifyHtml
| CloseWindow (resists reached : string → bool)
| Outside (files' : gmap string string) (dirs' : gset string).

Definition perform (E : env) (a : action) : M unit :=
  match a with
  | SelectSvgFolder folder => select_svg_folder E folder
  | SelectHtmlFile file => select_html_file E BeautifulSoup file
  | ClickTag row => toggle_item row
  | GenerateFont output_file => generate_font E output_file
  | ModifyHtml => modify_html E BeautifulSoup
  | CloseWindow resists reached => closeEvent resists reached
  | Outside files' dirs' => modify_os (λ w, set_dirs dirs' (set_files files' w))
  end.

(** The window after [__init__], with the directory [tempfile.mkdtemp()]
    returned. *)
Definition start (tmp : string) (w : world) : state :=
  {| self := init tmp w; os := w |}.

(** A session: actions one after the other, each in the environment
    it meets. *)
Definition session (actions : list (env * action)) (s : state) : state :=
  foldl (λ s step, (perform step.1 step.2 s).2) s actions.

End window_actions.

(** ** Example inputs *)

Module Examples.
Import Str.

(** An environment in which every operation works and the compiler
    exits with status 0, having written nothing. *)
Definition calm : env :=
  {| fault := λ _ _, None; torn_write := λ _, EmptyString;
     run_result := λ _, (0%Z, EmptyString);
     run_effect := λ _ left, left;
     glob_dirs := λ _, [] |}.

(** The disk fills up while the new document is written. *)
Definition disk_full (path : string) : env :=
  {| fault := λ op p,
       match op with
       | OpWrite =>
           if decide (p = path)
           then Some (OSError "[Errno 28] No space left on device") else None
       | _ => None
       end;
     torn_write := λ _, EmptyString;
     run_result := λ _, (0%Z, EmptyString);
     run_effect := λ _ left, left;
     glob_dirs := λ _, [] |}.

Definition page : string :=
  "<html><body><div><p></p></div></body></html>".

Definition fragment : string := "<p>hola</p>".

Definition site (content : string) : world :=
  {| files := {[ "/site/index.html" := content ]};
     dirs := {[ "/site" ]};
     journal := [] |}.

Definition glyphs (names : list string) : world :=
  {| files := list_to_map
                (("/usr/bin/fontforge", EmptyString)
                 :: map (λ n, ("/glyphs/" +:+ n, "<svg/>")) names);
     dirs := {[ "/glyphs"; "/tmp/fg" ]};
     journal := [] |}.

(** A machine on which [glob] reads the folder name [/glyphs/set[1]]
    as a pattern, and the directory [/glyphs/set1] matches it. *)
Definition wildcards : env :=
  {| fault := λ _ _, None; torn_write := λ _, EmptyString;
     run_result := λ _, (0%Z, EmptyString);
     run_effect := λ _ left, left;
     glob_dirs := λ pattern,
       if decide (pattern = "/glyphs/set[1]") then ["/glyphs/set1"] else [] |}.

(** The empty folder [/glyphs/set[1]] beside the folder [/glyphs/set1],
    which holds one glyph file. *)
Definition bracket_folder : world :=
  {| files := {[ "/usr/bin/fontforge" := EmptyString;
                 "/glyphs/set1/a.svg" := "<svg/>" ]};
     dirs := {[ "/glyphs"; "/glyphs/set1"; "/glyphs/set[1]"; "/tmp/fg" ]};
     journal := [] |}.

Definition fresh (w : world) : state :=
  {| self := init "/tmp/fg" w; os := w |}.

(** The state once [file] has been chosen and the rows [rows] of the
    tag list clicked. *)
Definition chosen (file : string) (rows : list nat) (w : world) : state :=
  let s := (select_html_file calm htmlparser.BeautifulSoup file (fresh w)).2 in
  foldl (λ s i, (toggle_item i s).2) s rows.

End Examples.

(** * Properties *)

(** ** Strings *)

Section strings.
Import Str.

Lemma app_cons (c : ascii) (s t : string) :
  String c s +:+ t = String c (s +:+ t).
Proof. reflexivity. Qed.

Lemma app_nil_l (t : string) : EmptyString +:+ t = t.
Proof. reflexivity. Qed.

Lemma app_nil_r (s : string) : s +:+ EmptyString = s.
Proof. induction s as [|c s IH]; [done | by rewrite app_cons, IH]. Qed.

Lemma app_assoc (a b c : string) : (a +:+ b) +:+ c = a +:+ (b +:+ c).
Proof. induction a as [|x a IH]; [done | by rewrite !app_cons, IH]. Qed.

Lemma length_app (a b : string) :
  String.length (a +:+ b) = (String.length a + String.length b)%nat.
Proof. induction a as [|x a IH]; [done | rewrite app_cons; simpl; by rewrite IH]. Qed.

Lemma startswith_app (p s : string) : startswith p (p +:+ s) = true.
Proof.
  unfold startswith. induction p as [|c p IH].
  - by destruct s.
  - rewrite app_cons. simpl. destruct (ascii_dec c c); [done | congruence].
Qed.

Lemma contains_unfold (old s : string) :
  contains old s
  = startswith old s
    || match s with
       | EmptyString => false
       | String _ s' => contains old s'
       end.
Proof. by destruct s. Qed.

Lemma contains_app (old a b : string) : contains old (a +:+ old +:+ b) = true.
Proof.
  induction a as [|c a IH].
  - by rewrite app_nil_l, contains_unfold, startswith_app.
  - rewrite app_cons. simpl. rewrite IH. apply orb_true_r.
Qed.

End strings.

(** ** The script builder *)

Section script.
Import Str Script.

Lemma script_split (output_file : string) :
  generate_fontforge_script output_file
  = script_before +:+ output_token output_file +:+ script_after.
Proof.
  unfold generate_fontforge_script, script_before, script_after, quoted.
  by rewrite !app_assoc.
Qed.

(** C3: the script is the same text for every font specification,
    but for the token of the output path: a fixed text before it and a
    fixed text after it, so equal tokens give scripts equal byte for
    byte. *)
Theorem script_fixed_but_for_output_token :
  ∃ before after : string,
    (∀ output_file,
       generate_fontforge_script output_file
       = before +:+ output_token output_file +:+ after)
    ∧ (∀ o1 o2, output_token o1 = output_token o2 →
         generate_fontforge_script o1 = generate_fontforge_script o2).
Proof.
  exists script_before, script_after. split.
  - apply script_split.
  - intros o1 o2 Heq. by rewrite !script_split, Heq.
Qed.

End script.

Section script_shape.
Import Str Script Examples.


Lemma strip_prefix_app (p s : string) : strip_prefix p (p +:+ s) = Some s.
Proof.
  induction p as [|c p IH]; [by destruct s|].
  rewrite app_cons. simpl. by rewrite decide_True.
Qed.




End script_shape.


(** ** Running the monad *)

Ltac run :=
  unfold modify_html, modify_html_try, load_html_tags, select_html_file,
    select_svg_folder, generate_font, toggle_item, parse,
    read_text, open_w, write, makedirs, copy2, subprocess_run, guard_fault,
    log_message, modify_self, modify_os, get_self, get_os, try_except, raise;
  unfold mbind, M_bind, mret, M_ret; cbn beta iota.

Section validation.
Import Str.
Variable E : env.
Variable BeautifulSoup : string → result soup.

(** C6: with no tag selected, [modify_html] only appends one
    validation message to the message panel; the files, the
    directories and the record of changes are those of before. *)
Theorem modify_html_rejects_empty_selection (s : state) :
  selected_items (self s) = [] →
  modify_html E BeautifulSoup s
  = (Ok (),
     {| self := set_console
                  (console (self s)
                   ++ [if decide (html_file (self s) = EmptyString)
                       then "❌ Primero selecciona un archivo HTML/PHP"
                       else "❌ Selecciona al menos una etiqueta"])
                  (self s);
        os := os s |}).
Proof.
  intros Hsel. run. case_decide; [done|]. by rewrite Hsel.
Qed.

End validation.

Lemma modify_html_rejects_empty_selection_witness :
  let s := Examples.chosen "/site/index.html" [] (Examples.site Examples.page) in
  selected_items (self s) = []
  ∧ os (modify_html Examples.calm htmlparser.BeautifulSoup s).2
    = Examples.site Examples.page
  ∧ last (console (self (modify_html Examples.calm htmlparser.BeautifulSoup s).2))
    = Some "❌ Selecciona al menos una etiqueta".
Proof.
  intros s.
  assert (Hsel : selected_items (self s) = []) by (vm_compute; reflexivity).
  split; [exact Hsel|].
  rewrite (modify_html_rejects_empty_selection
             Examples.calm htmlparser.BeautifulSoup s Hsel).
  split; vm_compute; reflexivity.
Defined.

(** ** The parse tree *)

Section tree.
Import bs4.

(** Induction on a node with the property at hand for its children. *)
Lemma node_forall_ind (P : node → Prop) :
  (∀ n a c, Forall P c → P (Tag n a c)) →
  (∀ s, P (NavigableString s)) →
  (∀ s, P (Comment s)) →
  (∀ s, P (Doctype s)) →
  (∀ s, P (ProcessingInstruction s)) →
  ∀ x, P x.
Proof.
  intros HT HS HC HD HP.
  refine (fix IH (x : node) : P x :=
            match x with
            | Tag n a c =>
                HT n a c
                  ((fix go (l : list node) : Forall P l :=
                      match l with
                      | [] => Forall_nil_2 P
                      | y :: l' => Forall_cons_2 P y l' (IH y) (go l')
                      end) c)
            | NavigableString s => HS s
            | Comment s => HC s
            | Doctype s => HD s
            | ProcessingInstruction s => HP s
            end).
Qed.

Lemma tags_of_Tag (n a : string) (c : list node) :
  tags_of (Tag n a c) = Tag n a c :: find_all c.
Proof. reflexivity. Qed.

Lemma find_all_app (l1 l2 : soup) :
  find_all (l1 ++ l2) = find_all l1 ++ find_all l2.
Proof.
  induction l1 as [|y l1 IH]; simpl; [done|]. by rewrite IH, (assoc_L (++)).
Qed.

Lemma update_tag_Tag (name : string) (f : node → node) (m a : string) (c : list node) :
  update_tag name f (Tag m a c)
  = if decide (m = name) then Some (f (Tag m a c))
    else Tag m a <$> update_forest name f c.
Proof.
  cbn [update_tag]. case_decide; [done|]. f_equal.
  induction c as [|y c IH]; [done|].
  cbn [update_forest]. by rewrite <- IH.
Qed.

(** The tags before the one [find] returns: none has the name. *)
Definition other_name (name : string) (x : node) : Prop := tag_name x ≠ name.

Definition same_name (x y : node) : Prop := tag_name x = tag_name y.

(** What [update_forest] does to the list of tags, when it finds the
    tag [h]: the tags before it keep their names, [h] gives way to
    [f h], the tags after it are the same. *)
Definition updated (name : string) (f : node → node) (tags tags' : list node) : Prop :=
  ∃ pre pre' h post,
    tags = pre ++ tags_of h ++ post
    ∧ tags' = pre' ++ tags_of (f h) ++ post
    ∧ Forall2 same_name pre pre'
    ∧ Forall (other_name name) pre
    ∧ ∃ a c, h = Tag name a c.

Definition update_tag_ok (name : string) (f : node → node) (x : node) : Prop :=
  match update_tag name f x with
  | Some x' => updated name f (tags_of x) (tags_of x')
  | None => Forall (other_name name) (tags_of x)
  end.

Definition update_forest_ok (name : string) (f : node → node) (l : soup) : Prop :=
  match update_forest name f l with
  | Some l' => updated name f (find_all l) (find_all l')
  | None => Forall (other_name name) (find_all l)
  end.

Lemma update_forest_ok_of (name : string) (f : node → node) (l : soup) :
  Forall (update_tag_ok name f) l → update_forest_ok name f l.
Proof.
  unfold update_forest_ok.
  induction 1 as [|y l Hy _ IH]; simpl; [by constructor|].
  unfold update_tag_ok in Hy. destruct (update_tag name f y) as [y'|].
  - destruct Hy as (pre & pre' & h & post & -> & Hy' & ? & ? & ?). simpl.
    exists pre, pre', h, (post ++ find_all l).
    rewrite Hy', <- !(assoc_L (++)). done.
  - destruct (update_forest name f l) as [l'|]; simpl.
    + destruct IH as (pre & pre' & h & post & -> & -> & ? & ? & ?).
      exists (tags_of y ++ pre), (tags_of y ++ pre'), h, post.
      rewrite <- !(assoc_L (++)). split_and!; try done.
      * apply Forall2_app; [|done]. by apply Forall_Forall2_diag, Forall_true.
      * by apply Forall_app.
    + by apply Forall_app.
Qed.

Lemma update_tag_ok_all (name : string) (f : node → node) (x : node) :
  update_tag_ok name f x.
Proof.
  induction x as [m a c IH|s|s|s|s] using node_forall_ind;
    try (unfold update_tag_ok; simpl; by constructor).
  unfold update_tag_ok. rewrite update_tag_Tag. case_decide as Hm.
  - subst m. exists [], [], (Tag name a c), []. rewrite !(right_id_L [] (++)).
    simpl. split_and!; try done; eauto.
  - apply update_forest_ok_of in IH. unfold update_forest_ok in IH.
    destruct (update_forest name f c) as [c'|]; cbn [fmap option_fmap option_map].
    + destruct IH as (pre & pre' & h & post & Hc & Hc' & ? & ? & ?).
      exists (Tag m a c :: pre), (Tag m a c' :: pre'), h, post.
      rewrite !tags_of_Tag, Hc, Hc'. split_and!; try done.
      * by constructor.
      * by constructor.
    + rewrite tags_of_Tag. by constructor.
Qed.

Lemma update_forest_ok_all (name : string) (f : node → node) (l : soup) :
  update_forest_ok name f l.
Proof. apply update_forest_ok_of, Forall_forall. intros; apply update_tag_ok_all. Qed.

(** [find] looks at the tags in order. *)
Definition first_named (name : string) (tags : list node) : option node :=
  head (filter (λ t, tag_name t = name) tags).

Lemma first_named_skip (name : string) (pre rest : list node) :
  Forall (other_name name) pre →
  first_named name (pre ++ rest) = first_named name rest.
Proof.
  unfold first_named. induction 1 as [|y pre Hy _ IH]; simpl; [done|].
  rewrite filter_cons_False; done.
Qed.

Lemma first_named_here (name a : string) (c : list node) (rest : list node) :
  first_named name (tags_of (Tag name a c) ++ rest) = Some (Tag name a c).
Proof. unfold first_named. rewrite tags_of_Tag. simpl. by rewrite filter_cons_True. Qed.

Lemma first_named_None (name : string) (tags : list node) :
  first_named name tags = None ↔ Forall (other_name name) tags.
Proof.
  unfold first_named. induction tags as [|y tags IH]; simpl.
  - split; [constructor | done].
  - destruct (decide (tag_name y = name)) as [Hy|Hy].
    + rewrite filter_cons_True by done. simpl. split; [done|].
      intros H. by inversion H.
    + rewrite filter_cons_False by done. rewrite IH.
      split; [by constructor | by inversion 1].
Qed.

Lemma other_name_same (name : string) (pre pre' : list node) :
  Forall2 same_name pre pre' → Forall (other_name name) pre →
  Forall (other_name name) pre'.
Proof.
  induction 1 as [|x y pre pre' Hxy _ IH]; [done|].
  inversion 1; subst. constructor; [|by apply IH].
  unfold other_name, same_name in *. congruence.
Qed.

Lemma find_None_update (name : string) (f : node → node) (l : soup) :
  find name l = None → update_forest name f l = None.
Proof.
  intros Hf. pose proof (update_forest_ok_all name f l) as H.
  unfold update_forest_ok in H.
  destruct (update_forest name f l) as [l'|]; [|done].
  destruct H as (pre & pre' & h & post & Hl & _ & _ & Hpre & a & c & ->).
  unfold find in Hf. fold (first_named name (find_all l)) in Hf.
  by rewrite Hl, first_named_skip, first_named_here in Hf.
Qed.

(** The object [find] returns is the one [update_first] changes. *)
Lemma find_Some_update (name : string) (f : node → node) (l : soup) (h : node) :
  find name l = Some h →
  updated name f (find_all l) (find_all (update_first name f l))
  ∧ ∃ a c, h = Tag name a c.
Proof.
  intros Hf. pose proof (update_forest_ok_all name f l) as H.
  unfold update_forest_ok, update_first in *.
  unfold find in Hf. fold (first_named name (find_all l)) in Hf.
  destruct (update_forest name f l) as [l'|]; simpl.
  - split; [done|].
    destruct H as (pre & pre' & h' & post & Hl & _ & _ & Hpre & a & c & ->).
    rewrite Hl, first_named_skip, first_named_here in Hf by done.
    simplify_eq. eauto.
  - apply first_named_None in H. congruence.
Qed.

Lemma find_not_in (name : string) (l : soup) :
  name ∉ map tag_name (find_all l) → find name l = None.
Proof.
  intros Hn. unfold find. fold (first_named name (find_all l)).
  apply first_named_None, Forall_forall. intros x Hx Hname.
  apply Hn, list_elem_of_fmap. eauto.
Qed.

End tree.

(** ** Paths *)

Section paths.
Import Str posixpath.

Lemma rsplit_tail (p : string) :
  startswith "/" (snd (rsplit p)) = false
  ∧ (fst (rsplit p) = EmptyString → snd (rsplit p) = p).
Proof.
  induction p as [|c p [IH1 IH2]]; [done|].
  simpl. destruct (rsplit p) as [[|h0 h] t] eqn:Hr; simpl in *.
  - specialize (IH2 eq_refl). subst t. case_decide; simpl.
    + done.
    + split; [|done]. unfold startswith. simpl.
      destruct (ascii_dec "/" c); [by subst|done].
  - done.
Qed.

Lemma basename_no_leading_sep (p : string) : startswith "/" (basename p) = false.
Proof. apply rsplit_tail. Qed.

Lemma endswith_unfold (p s : string) :
  endswith p s
  = if decide (s = p) then true
    else match s with
         | EmptyString => false
         | String _ s' => endswith p s'
         end.
Proof. by destruct s. Qed.

Lemma backups_no_trailing_sep (a : string) : endswith "/" (a +:+ "backups") = false.
Proof.
  induction a as [|c a IH]; [done|].
  rewrite app_cons, endswith_unfold, decide_False; [done|].
  intros H. apply (f_equal String.length) in H. simpl in H.
  rewrite length_app in H. simpl in H. lia.
Qed.

Lemma join_backups (d : string) : ∃ a, join d "backups" = a +:+ "backups".
Proof.
  unfold join. simpl. case_decide; [by exists EmptyString|].
  destruct (endswith "/" d); [by exists d|].
  exists (d +:+ "/"). by rewrite app_assoc.
Qed.

(** The backup never lands on the backup directory itself. *)
Lemma join_longer (d x : string) :
  d ≠ EmptyString → endswith "/" d = false → startswith "/" x = false →
  join d x = d +:+ "/" +:+ x.
Proof. intros Hd He Hx. unfold join. by rewrite Hx, decide_False, He. Qed.

Lemma backup_file_not_dir (file : string) :
  backup_file_of file ≠ backup_dir_of file.
Proof.
  unfold backup_file_of, backup_dir_of.
  destruct (join_backups (dirname file)) as [a Ha]. rewrite Ha.
  rewrite join_longer.
  - intros H. apply (f_equal String.length) in H.
    rewrite !length_app in H. simpl in H. lia.
  - by destruct a.
  - apply backups_no_trailing_sep.
  - apply basename_no_leading_sep.
Qed.

End paths.

(** ** Augmentation *)

Section add_style.
Import bs4.

Lemma updated_first (name : string) (f : node → node) (tags tags' : list node) :
  updated name f tags tags' →
  (∀ a c, ∃ c', f (Tag name a c) = Tag name a c') →
  ∃ a c, first_named name tags = Some (Tag name a c)
         ∧ first_named name tags' = Some (f (Tag name a c)).
Proof.
  intros (pre & pre' & h & post & -> & -> & Hsame & Hpre & a & c & ->) Hf.
  exists a, c. split.
  - by rewrite first_named_skip, first_named_here.
  - rewrite first_named_skip by eauto using other_name_same.
    destruct (Hf a c) as [c' ->]. apply first_named_here.
Qed.

Lemma updated_names (name : string) (f : node → node) (tags tags' : list node) :
  updated name f tags tags' →
  ∃ pre a c post,
    map tag_name tags = pre ++ map tag_name (tags_of (Tag name a c)) ++ post
    ∧ map tag_name tags' = pre ++ map tag_name (tags_of (f (Tag name a c))) ++ post
    ∧ name ∉ pre.
Proof.
  intros (pre & pre' & h & post & -> & -> & Hsame & Hpre & a & c & ->).
  exists (map tag_name pre), a, c, (map tag_name post).
  rewrite !map_app. split_and!; [done| |].
  - f_equal. clear Hpre. induction Hsame as [|x y ?? Hxy _ IH]; [done|].
    simpl. by rewrite IH, Hxy.
  - intros (x & Hx & Hin)%list_elem_of_fmap.
    by apply (proj1 (Forall_forall _ _) Hpre x Hin).
Qed.

Variable selected_tags : list string.

Definition head_tag : node := Tag "head" EmptyString [style_tag selected_tags].

(** What lines 275 to 282 do to the tree. *)
Lemma add_style_spec (t : soup) :
  match find "head" t with
  | Some h =>
      ∃ a c t', h = Tag "head" a c
        ∧ add_style selected_tags t = Ok t'
        ∧ find "head" t' = Some (Tag "head" a (c ++ [style_tag selected_tags]))
  | None =>
      match find "html" t with
      | Some h =>
          ∃ a c t', h = Tag "html" a c
            ∧ add_style selected_tags t = Ok t'
            ∧ find "html" t' = Some (Tag "html" a (head_tag :: c))
            ∧ find "head" t' = Some head_tag
      | None =>
          add_style selected_tags t
          = Raise (AttributeError "'NoneType' object has no attribute 'insert'")
      end
  end.
Proof.
  unfold add_style.
  destruct (find "head" t) as [h|] eqn:Hhead.
  - destruct (find_Some_update "head" (append (style_tag selected_tags)) t h Hhead)
      as [Hup (a & c & ->)].
    exists a, c, (update_first "head" (append (style_tag selected_tags)) t).
    split_and!; [done..|].
    destruct (updated_first _ _ _ _ Hup) as (a' & c' & H1 & H2); [by eauto|].
    unfold find in Hhead. fold (first_named "head" (find_all t)) in Hhead.
    rewrite Hhead in H1. simplify_eq. exact H2.
  - destruct (find "html" t) as [h|] eqn:Hhtml; [|done].
    destruct (find_Some_update "html"
                (insert0 (append (style_tag selected_tags) (new_tag "head"))) t h Hhtml)
      as [Hup (a & c & ->)].
    eexists a, c, _. split_and!; [done..| |].
    + destruct (updated_first _ _ _ _ Hup) as (a' & c' & H1 & H2); [by eauto|].
      unfold find in Hhtml. fold (first_named "html" (find_all t)) in Hhtml.
      rewrite Hhtml in H1. simplify_eq. exact H2.
    + destruct Hup as (pre & pre' & h & post & Ht & Ht' & Hsame & _ & a' & c' & ->).
      unfold find in *. fold (first_named "head" (find_all t)) in Hhead.
      fold (first_named "html" (find_all t)) in Hhtml.
      fold (first_named "head"
              (find_all (update_first "html"
                 (insert0 (append (style_tag selected_tags) (new_tag "head"))) t))).
      rewrite Ht'. apply first_named_None in Hhead. rewrite Ht in Hhead.
      apply Forall_app in Hhead as [Hpre _].
      rewrite first_named_skip by eauto using other_name_same.
      unfold insert0, first_named. rewrite tags_of_Tag. cbn [app].
      rewrite filter_cons_False by done. cbn [find_all].
      unfold append, new_tag. cbn [app]. rewrite tags_of_Tag. cbn [app].
      by rewrite filter_cons_True.
Qed.

End add_style.

Section augmentation.
Import Str.
Variable E : env.
Variable BeautifulSoup : string → result soup.

Lemma backup_target_unfold (w : world) (file : string) :
  copy2_target w file
    (posixpath.join (backup_dir_of file) (posixpath.basename file))
  = backup_target w file.
Proof. reflexivity. Qed.

Lemma backup_target_makedirs (w : world) (file : string) :
  copy2_target
    (record (EvMakedirs (backup_dir_of file))
       (set_dirs ({[backup_dir_of file]} ∪ dirs w) w))
    file (posixpath.join (backup_dir_of file) (posixpath.basename file))
  = backup_target w file.
Proof.
  unfold backup_target, copy2_target. simpl.
  pose proof (backup_file_not_dir file) as Hne. unfold backup_file_of in *.
  repeat case_decide; try done; set_solver.
Qed.

Ltac lookups :=
  repeat first [rewrite lookup_insert_eq | rewrite lookup_insert_ne by done];
  done.

(** Every way through the [try] block: one case for each operation
    that can fail. *)
Ltac run_cases Hrun :=
  revert Hrun; run; intros Hrun;
  repeat (case_match; simplify_eq/=);
  repeat match goal with H : decide _ = _ |- _ => clear H end;
  rewrite ?backup_target_makedirs, ?backup_target_unfold in *.

(** What a call of [modify_html] that goes through has done. *)
Lemma modify_html_try_writes (app : App) (selected_tags : list string)
    (s s1 : state) :
  modify_html_try E BeautifulSoup app selected_tags s = (Ok (), s1) →
  ∃ bytes t t',
    fault E OpRead (html_file app) = None
    ∧ files (os s) !! html_file app = Some bytes
    ∧ BeautifulSoup (universal_newlines bytes) = Ok t
    ∧ add_style selected_tags t = Ok t'
    ∧ files (os s1) !! html_file app = Some (bs4.decode t')
    ∧ html_file (self s1) = html_file (self s).
Proof.
  intros Hrun. run_cases Hrun.
  all: eexists _, _, _; split_and!;
    [done | eassumption | eassumption | eassumption | lookups | done].
Qed.

(** C1, as the code has it: the backup copy of the bytes the document
    had before the call is written, in the backups directory, before
    the document is opened for writing.  A failure to read or parse
    the document, to find where the style goes, to create the backup
    directory, to write the backup or to open the document leaves the
    document as it was; only a failure of the final write, which comes
    after the document has been opened and emptied, can leave it
    changed, and then the backup holds the bytes of before. *)
Theorem modify_html_backup_before_write (s : state) :
  html_file (self s) ≠ EmptyString →
  selected_items (self s) ≠ [] →
  let f := html_file (self s) in
  let b := backup_target (os s) f in
  match modify_html_try E BeautifulSoup (self s) (selected_items (self s)) s with
  | (Ok _, s1) =>
      modify_html E BeautifulSoup s = (Ok (), s1)
      ∧ ∃ bytes new mk,
          files (os s) !! f = Some bytes
          ∧ journal (os s1)
            = journal (os s) ++ mk ++ [EvCopy f b; EvTruncate f; EvWrite f new]
          ∧ (mk = [] ∨ mk = [EvMakedirs (backup_dir_of f)])
          ∧ files (os s1) !! b = Some bytes
          ∧ files (os s1) !! f = Some new
  | (Raise e, s1) =>
      modify_html E BeautifulSoup s
      = (Ok (),
         {| self := set_console
                      (console (self s1)
                       ++ ["❌ Error al modificar archivo: " +:+ str_exn e])
                      (self s1);
            os := os s1 |})
      ∧ (fault E OpWrite f = None → files (os s1) !! f = files (os s) !! f)
      ∧ (files (os s1) !! f ≠ files (os s) !! f →
         ∃ bytes mk,
           files (os s) !! f = Some bytes
           ∧ files (os s1) !! b = Some bytes
           ∧ journal (os s1) = journal (os s) ++ mk ++ [EvCopy f b; EvTruncate f]
           ∧ (mk = [] ∨ mk = [EvMakedirs (backup_dir_of f)]))
  end.
Proof.
  intros Hf Hsel f b.
  assert (Hglue : modify_html E BeautifulSoup s
                  = try_except
                      (modify_html_try E BeautifulSoup (self s) (selected_items (self s)))
                      (λ e, log_message ("❌ Error al modificar archivo: " +:+ str_exn e)) s).
  { unfold modify_html at 1. unfold mbind, M_bind, get_self. cbn beta iota.
    rewrite decide_False by done. by destruct (selected_items (self s)). }
  rewrite Hglue. clear Hglue. unfold try_except.
  destruct (modify_html_try E BeautifulSoup (self s) (selected_items (self s)) s)
    as [[[]|e] s1] eqn:Hrun.
  - split; [done|]. subst f b. run_cases Hrun.
    all: first
      [ eexists _, _, []; rewrite <- ?(assoc_L (++));
        split_and!; [eassumption | reflexivity | by left | lookups | lookups]
      | eexists _, _, [EvMakedirs _]; rewrite <- ?(assoc_L (++));
        split_and!; [eassumption | reflexivity | by right | lookups | lookups] ].
  - split; [done|]. subst f b. run_cases Hrun.
    all: split; [ intros Hw; try congruence; lookups | intros Hne ].
    all: try (exfalso; apply Hne; lookups).
    all: first
      [ eexists _, []; rewrite <- ?(assoc_L (++));
        split_and!; [eassumption | lookups | reflexivity | by left]
      | eexists _, [EvMakedirs _]; rewrite <- ?(assoc_L (++));
        split_and!; [eassumption | lookups | reflexivity | by right] ].
Qed.

(** C7: when the augmentation succeeds, the document written is the
    tree with the style tag as the last child of the head the tree
    had; when the tree had no head, it has an html tag, and a new
    head whose only child is the style tag is its first child. *)
Theorem style_goes_into_head (app : App) (selected_tags : list string)
    (s s1 : state) :
  modify_html_try E BeautifulSoup app selected_tags s = (Ok (), s1) →
  ∃ bytes t t',
    files (os s) !! html_file app = Some bytes
    ∧ BeautifulSoup (universal_newlines bytes) = Ok t
    ∧ files (os s1) !! html_file app = Some (bs4.decode t')
    ∧ match bs4.find "head" t with
      | Some h =>
          ∃ a c, h = Tag "head" a c
            ∧ bs4.find "head" t'
              = Some (Tag "head" a (c ++ [style_tag selected_tags]))
      | None =>
          ∃ a c, bs4.find "html" t = Some (Tag "html" a c)
            ∧ bs4.find "html" t'
              = Some (Tag "html" a
                        (Tag "head" EmptyString [style_tag selected_tags] :: c))
            ∧ bs4.find "head" t'
              = Some (Tag "head" EmptyString [style_tag selected_tags])
      end.
Proof.
  intros Hrun. run_cases Hrun.
  all: eexists _, _, _; split_and!; [eassumption | eassumption | lookups |].
  all: match goal with
       | H : add_style _ ?t = Ok _ |- _ =>
           pose proof (add_style_spec selected_tags t) as Hspec;
           destruct (bs4.find "head" t) as [h|];
           [ destruct Hspec as (a & c & t' & -> & Hadd & Hfind)
           | destruct (bs4.find "html" t) as [h|];
             [ destruct Hspec as (a & c & t' & -> & Hadd & Hhtml & Hhead)
             | congruence ] ];
           rewrite H in Hadd; simplify_eq; eauto
       end.
Qed.

(** C10: when the tree of the document has no head tag and no html
    tag, [modify_html] reports the error and nothing else happens: no
    directory is created, no file is written, the document keeps its
    bytes. *)
Theorem modify_html_without_head_or_html (s : state) (bytes : string) (t : soup) :
  html_file (self s) ≠ EmptyString →
  selected_items (self s) ≠ [] →
  fault E OpRead (html_file (self s)) = None →
  files (os s) !! html_file (self s) = Some bytes →
  BeautifulSoup (universal_newlines bytes) = Ok t →
  "head" ∉ map bs4.tag_name (bs4.find_all t) →
  "html" ∉ map bs4.tag_name (bs4.find_all t) →
  modify_html E BeautifulSoup s
  = (Ok (),
     {| self := set_console
                  (console (self s)
                   ++ ["❌ Error al modificar archivo: "
                       +:+ "'NoneType' object has no attribute 'insert'"])
                  (self s);
        os := os s |}).
Proof.
  intros Hf Hsel Hread Hfile Hparse Hhead Hhtml.
  run. rewrite decide_False by done.
  destruct (selected_items (self s)) as [|x sel] eqn:Hs; [done|].
  rewrite Hread. cbn beta iota. rewrite Hfile. cbn beta iota.
  rewrite Hparse. cbn beta iota.
  unfold add_style. by rewrite !find_not_in by done.
Qed.

End augmentation.

(** ** The augmentation on example documents *)

Lemma modify_html_backup_before_write_witness :
  let s := Examples.chosen "/site/index.html" [1; 3] (Examples.site Examples.page) in
  html_file (self s) ≠ EmptyString
  ∧ selected_items (self s) ≠ []
  ∧ ∃ s1, modify_html Examples.calm htmlparser.BeautifulSoup s = (Ok (), s1)
          ∧ files (os s1) !! "/site/backups/index.html" = Some Examples.page.
Proof.
  intros s.
  assert (H1 : html_file (self s) ≠ EmptyString) by (by vm_compute).
  assert (H2 : selected_items (self s) ≠ []) by (by vm_compute).
  split; [exact H1|]. split; [exact H2|].
  pose proof (modify_html_backup_before_write
                Examples.calm htmlparser.BeautifulSoup s H1 H2) as H.
  destruct (modify_html_try Examples.calm htmlparser.BeautifulSoup (self s)
              (selected_items (self s)) s) as [[[]|e] s1] eqn:Hrun.
  - destruct H as [Hm (bytes & new & mk & Hb & _ & _ & Hbackup & _)].
    exists s1. split; [exact Hm|].
    replace (Some Examples.page) with (files (os s) !! html_file (self s))
      by (by vm_compute).
    rewrite Hb, <- Hbackup. f_equal.
  - by vm_compute in Hrun.
Defined.

(** C1, as stated, fails when the write of the new document fails: the
    document has been opened for writing by then, and is left empty. *)
Lemma failed_write_empties_the_document :
  let s := Examples.chosen "/site/index.html" [1; 3] (Examples.site Examples.page) in
  let s' := (modify_html (Examples.disk_full "/site/index.html")
               htmlparser.BeautifulSoup s).2 in
  last (console (self s'))
  = Some "❌ Error al modificar archivo: [Errno 28] No space left on device"
  ∧ files (os s) !! "/site/index.html" = Some Examples.page
  ∧ files (os s') !! "/site/index.html" = Some EmptyString
  ∧ files (os s') !! "/site/backups/index.html" = Some Examples.page.
Proof. by vm_compute. Qed.

Lemma style_goes_into_head_witness :
  let s := Examples.chosen "/site/index.html" [1; 3] (Examples.site Examples.page) in
  ∃ s1 t',
    modify_html_try Examples.calm htmlparser.BeautifulSoup (self s) ["div"; "p"] s
    = (Ok (), s1)
    ∧ files (os s1) !! "/site/index.html" = Some (bs4.decode t')
    ∧ bs4.find "head" t'
      = Some (Tag "head" EmptyString [style_tag ["div"; "p"]]).
Proof.
  intros s.
  destruct (modify_html_try Examples.calm htmlparser.BeautifulSoup (self s)
              ["div"; "p"] s) as [[[]|e] s1] eqn:Hrun; [|by vm_compute in Hrun].
  destruct (style_goes_into_head Examples.calm htmlparser.BeautifulSoup
              (self s) ["div"; "p"] s s1 Hrun)
    as (bytes & t & t' & Hbytes & Hparse & Hfile & Hshape).
  exists s1, t'. split; [done|]. split; [exact Hfile|].
  assert (bytes = Examples.page) as -> by (vm_compute in Hbytes; by injection Hbytes as <-).
  assert (t = [Tag "html" EmptyString
                 [Tag "body" EmptyString
                    [Tag "div" EmptyString [Tag "p" EmptyString []]]]]) as ->
    by (vm_compute in Hparse; by injection Hparse as <-).
  change (bs4.find "head" _) with (@None node) in Hshape at 1.
  destruct Hshape as (a & c & _ & _ & Hhead). exact Hhead.
Defined.

Lemma modify_html_without_head_or_html_witness :
  let s := Examples.chosen "/site/index.html" [0] (Examples.site Examples.fragment) in
  modify_html Examples.calm htmlparser.BeautifulSoup s
  = (Ok (),
     {| self := set_console
                  (console (self s)
                   ++ ["❌ Error al modificar archivo: "
                       +:+ "'NoneType' object has no attribute 'insert'"])
                  (self s);
        os := Examples.site Examples.fragment |}).
Proof.
  intros s.
  apply (modify_html_without_head_or_html Examples.calm htmlparser.BeautifulSoup s
           Examples.fragment
           [Tag "p" EmptyString [NavigableString "hola"]]).
  - by vm_compute.
  - by vm_compute.
  - reflexivity.
  - by vm_compute.
  - by vm_compute.
  - apply (bool_decide_unpack _). by vm_compute.
  - apply (bool_decide_unpack _). by vm_compute.
Defined.

(** ** The glyph files *)

Section glyphs.
Import Str.
















End glyphs.


(** ** The script and the arguments of the compiler *)

Section script_and_arguments.
Import Str Script Examples.


End script_and_arguments.

(** ** Validation of the glyph folder *)

Section glyph_folder.
Variable E : env.

(** C8, as the code has it: a folder for which the search for glyph
    files finds nothing is turned down when it is chosen, with a
    message, the generate button disabled, the folder not adopted and
    nothing changed outside; [generate_font] turns the call down, with
    a message and nothing else, when no folder has been adopted; and a
    folder is adopted only when the search finds a file at that
    moment.  For a folder whose name has no wildcard character the
    search finds the matching entries of that folder, so that such a
    folder is turned down when it has none and adopted only when it
    has one.  [generate_font] does not look at the glyph list again. *)
Theorem empty_glyph_folder_rejected_when_chosen (folder output_file : string)
    (s : state) :
  let turned_down :=
    {| self := set_generate_btn false
                 (set_console
                    (console (self s)
                     ++ ["❌ No se encontraron archivos SVG en la carpeta"])
                    (self s));
       os := os s |} in
  (folder ≠ EmptyString → glob_svg E (os s) folder = [] →
   select_svg_folder E folder s = (Ok (), turned_down))
  ∧ (svg_folder (self s) = EmptyString →
     generate_font E output_file s
     = (Ok (),
        {| self := set_console
                     (console (self s)
                      ++ ["❌ Primero selecciona una carpeta SVG"])
                     (self s);
           os := os s |}))
  ∧ (svg_folder (self (select_svg_folder E folder s).2) ≠ svg_folder (self s) →
     glob_svg E (os s) folder ≠ []
     ∧ svg_folder (self (select_svg_folder E folder s).2) = folder)
  ∧ (has_magic (glob_dir folder) = false →
     glob_svg E (os s) folder = glob1_svg (os s) (glob_dir folder)
     ∧ (folder ≠ EmptyString → glob1_svg (os s) (glob_dir folder) = [] →
        select_svg_folder E folder s = (Ok (), turned_down))
     ∧ (svg_folder (self (select_svg_folder E folder s).2) ≠ svg_folder (self s) →
        glob1_svg (os s) (glob_dir folder) ≠ [])).
Proof.
  intros turned_down. subst turned_down.
  assert (folder ≠ EmptyString → glob_svg E (os s) folder = [] →
          select_svg_folder E folder s
          = (Ok (),
             {| self := set_generate_btn false
                          (set_console
                             (console (self s)
                              ++ ["❌ No se encontraron archivos SVG en la carpeta"])
                             (self s));
                os := os s |})) as H1.
  { intros Hf Hglob. run. rewrite decide_False by done. by rewrite Hglob. }
  assert (svg_folder (self (select_svg_folder E folder s).2) ≠ svg_folder (self s) →
          glob_svg E (os s) folder ≠ []
          ∧ svg_folder (self (select_svg_folder E folder s).2) = folder) as H3.
  { run. case_decide; [done|].
    destruct (glob_svg E (os s) folder) eqn:Hglob; [done|]. done. }
  split_and!; [exact H1| |exact H3|].
  - intros Hs. run. by rewrite decide_True.
  - intros Hm.
    assert (glob_svg E (os s) folder = glob1_svg (os s) (glob_dir folder)) as Heq.
    { unfold glob_svg. cbv zeta. by rewrite Hm. }
    split_and!; [done| |].
    + intros Hf Hnone. apply H1; [done|]. by rewrite Heq.
    + intros Hch. rewrite <- Heq. by apply H3.
Qed.

End glyph_folder.

(** C8, as stated, fails when the files of the adopted folder are
    removed before the font is generated: the compiler runs, with no
    glyph file among its arguments. *)
Lemma generate_font_runs_on_emptied_folder :
  let s1 := (select_svg_folder Examples.calm "/glyphs"
               (Examples.fresh (Examples.glyphs ["a.svg"]))).2 in
  let s2 := {| self := self s1; os := Examples.glyphs [] |} in
  generate_btn (self s1) = true
  ∧ glob_svg Examples.calm (os s2) (svg_folder (self s2)) = []
  ∧ journal (os (generate_font Examples.calm "out.ttf" s2).2)
    = [ EvTruncate "/tmp/fg/generate_font.pe"
      ; EvWrite "/tmp/fg/generate_font.pe"
          (Script.generate_fontforge_script "out.ttf")
      ; EvSpawn ["/usr/bin/fontforge"; "-script"; "/tmp/fg/generate_font.pe"] ]
  ∧ last (console (self (generate_font Examples.calm "out.ttf" s2).2))
    = Some "⚠️ Nota: Los archivos SVG deben tener nombres Unicode (ej: U+0041.svg)".
Proof. by vm_compute. Qed.

(** A folder name with a wildcard character is not taken as it is:
    the empty folder [/glyphs/set[1]] is adopted, because the pattern
    matches the file of the folder [/glyphs/set1], and that file is
    what the compiler is given. *)
Lemma wildcard_folder_stands_for_another :
  let s := Examples.fresh Examples.bracket_folder in
  let s1 := (select_svg_folder Examples.wildcards "/glyphs/set[1]" s).2 in
  glob1_svg (os s) "/glyphs/set[1]" = []
  ∧ svg_folder (self s1) = "/glyphs/set[1]"
  ∧ generate_btn (self s1) = true
  ∧ last (journal (os (generate_font Examples.wildcards "out.ttf" s1).2))
    = Some (EvSpawn [ "/usr/bin/fontforge"; "-script"; "/tmp/fg/generate_font.pe"
                    ; "/glyphs/set1/a.svg" ]).
Proof. by vm_compute. Qed.

Lemma empty_glyph_folder_rejected_when_chosen_witness :
  let s := Examples.fresh (Examples.glyphs []) in
  (select_svg_folder Examples.calm "/glyphs" s).2
  = {| self := set_generate_btn false
                 (set_console
                    (console (self s)
                     ++ ["❌ No se encontraron archivos SVG en la carpeta"])
                    (self s));
       os := os s |}
  ∧ os (generate_font Examples.calm "out.ttf" s).2 = os s.
Proof.
  intros s.
  destruct (empty_glyph_folder_rejected_when_chosen Examples.calm "/glyphs" "out.ttf" s)
    as (_ & Hgen & _ & Hown).
  destruct Hown as (_ & Hsel & _); [by vm_compute|].
  split.
  - rewrite Hsel; [done | done | by vm_compute].
  - rewrite Hgen; [done | by vm_compute].
Defined.

(** ** The tags the tree builder creates *)

Section builder_names.
Import Str bs4 htmlparser.

(** The names of the tags a list of events starts, in order. *)
Definition start_names (events : list event) : list string :=
  flat_map (λ ev, match ev with
                  | StartTag name _ | StartEndTag name _ => [name]
                  | _ => []
                  end) events.

Definition names (l : soup) : list string := map tag_name (find_all l).

(** The names of the tags of the open part of the tree, in document
    order: the outer tags come first. *)
Fixpoint open_names (st : list frame) : list string :=
  match st with
  | [] => []
  | f :: st' => open_names st' ++ f_name f :: names (f_contents f)
  end.

Definition built (b : builder) : list string :=
  names (root b) ++ open_names (tagStack b).

Lemma names_app (l1 l2 : soup) : names (l1 ++ l2) = names l1 ++ names l2.
Proof. unfold names. by rewrite find_all_app, map_app. Qed.

Lemma names_singleton (x : node) : names [x] = map tag_name (tags_of x).
Proof. unfold names. simpl. by rewrite (right_id_L [] (++)). Qed.

Lemma built_add_node (x : node) (b : builder) :
  built (add_node x b) = built b ++ map tag_name (tags_of x).
Proof.
  unfold built, add_node. destruct (tagStack b) as [|f st]; simpl.
  - by rewrite names_app, names_singleton, !(right_id_L [] (++)).
  - rewrite names_app, names_singleton.
    by rewrite !(assoc_L (++)), <- !(assoc_L (++)).
Qed.

Lemma built_popTag (b : builder) : built (popTag b) = built b.
Proof.
  unfold popTag. destruct (tagStack b) as [|f st] eqn:Hst; [done|].
  rewrite built_add_node, tags_of_Tag. unfold built, names.
  cbn [root tagStack open_names map tag_name]. rewrite Hst.
  cbn [open_names]. by rewrite <- (assoc_L (++)).
Qed.

(** The string containers: what [endData] adds has no tag in it. *)
Definition textual (container : string → node) : Prop :=
  ∀ data, tags_of (container data) = [].

Lemma built_endData (container : string → node) (b : builder) :
  textual container → built (endData container b) = built b.
Proof.
  intros Hc. unfold endData. destruct (current_data b) as [|d ds] eqn:Hd; [done|].
  rewrite built_add_node, Hc. simpl. by rewrite (right_id_L [] (++)).
Qed.

Lemma built_pop_through (name : string) (n : nat) (b : builder) :
  built (pop_through name n b) = built b.
Proof.
  revert b. induction n as [|n IH]; intros b; simpl; [done|].
  destruct (tagStack b) as [|f st] eqn:Hst; [done|].
  case_decide; [apply built_popTag|]. by rewrite IH, built_popTag.
Qed.

Lemma built_popToTag (name : string) (b : builder) :
  built (popToTag name b) = built b.
Proof. unfold popToTag. case_match; [apply built_pop_through | done]. Qed.

Lemma built_handle_endtag (name : string) (check : bool) (b : builder) :
  built (handle_endtag name check b) = built b.
Proof.
  unfold handle_endtag, soup_endtag. case_match; [done|].
  by rewrite built_popToTag, built_endData.
Qed.

Lemma built_handle_starttag (name attrs : string) (h : bool) (b : builder) :
  built (handle_starttag name attrs h b) = built b ++ [name].
Proof.
  unfold handle_starttag.
  assert (built (pushTag name attrs (endData NavigableString b)) = built b ++ [name])
    as Hpush.
  { rewrite <- (built_endData NavigableString b) by done.
    unfold built, pushTag. simpl. by rewrite (assoc_L (++)). }
  case_match; [|done].
  unfold mark_closed, built. simpl.
  fold (built (handle_endtag name false
                 (pushTag name attrs (endData NavigableString b)))).
  by rewrite built_handle_endtag.
Qed.

Lemma built_handle (b : builder) (ev : event) :
  built (handle b ev) = built b ++ start_names [ev].
Proof.
  destruct ev as [n a|n a|n|d|d|d|d]; simpl; rewrite ?(right_id_L [] (++)).
  - apply built_handle_starttag.
  - by rewrite built_handle_endtag, built_handle_starttag.
  - apply built_handle_endtag.
  - done.
  - unfold handle_special. rewrite built_endData by done.
    unfold handle_data, built. simpl.
    fold (built (endData NavigableString b)). by rewrite built_endData.
  - unfold handle_special. rewrite built_endData by done.
    unfold handle_data, built. simpl.
    fold (built (endData NavigableString b)). by rewrite built_endData.
  - unfold handle_special. rewrite built_endData by done.
    unfold handle_data, built. simpl.
    fold (built (endData NavigableString b)). by rewrite built_endData.
Qed.

Lemma start_names_app (l1 l2 : list event) :
  start_names (l1 ++ l2) = start_names l1 ++ start_names l2.
Proof. unfold start_names. by rewrite flat_map_app. Qed.

Lemma built_foldl (events : list event) (b : builder) :
  built (foldl handle b events) = built b ++ start_names events.
Proof.
  revert b. induction events as [|ev events IH]; intros b; simpl.
  - by rewrite (right_id_L [] (++)).
  - rewrite IH, built_handle. unfold start_names. simpl.
    by rewrite (right_id_L [] (++)), <- (assoc_L (++)).
Qed.

Lemma tagStack_add_node (x : node) (b : builder) :
  length (tagStack (add_node x b)) = length (tagStack b).
Proof. unfold add_node. by destruct (tagStack b). Qed.

Lemma tagStack_pop_all (n : nat) (b : builder) :
  (length (tagStack b) ≤ n)%nat → tagStack (pop_all n b) = [].
Proof.
  revert b. induction n as [|n IH]; intros b Hn; simpl.
  - destruct (tagStack b); [done | simpl in Hn; lia].
  - apply IH. unfold popTag. destruct (tagStack b) as [|f st] eqn:Hst.
    + rewrite Hst. simpl. lia.
    + rewrite tagStack_add_node. simpl in *. lia.
Qed.

Lemma built_pop_all (n : nat) (b : builder) : built (pop_all n b) = built b.
Proof.
  revert b. induction n as [|n IH]; intros b; simpl; [done|].
  by rewrite IH, built_popTag.
Qed.

(** The tree has one tag for each start event, in the same order. *)
Lemma names_build (events : list event) : names (build events) = start_names events.
Proof.
  unfold build, finish.
  set (b := endData NavigableString (foldl handle reset events)).
  assert (built (pop_all (length (tagStack b)) b) = start_names events) as H.
  { rewrite built_pop_all. unfold b. rewrite built_endData by done.
    by rewrite built_foldl. }
  unfold built in H. rewrite tagStack_pop_all in H by done.
  simpl in H. by rewrite (right_id_L [] (++)) in H.
Qed.

End builder_names.

(** ** The tokenizer on the text [decode] writes *)

Section feeding.
Import Str bs4 htmlparser.

Definition not_gt (c : ascii) : bool := negb (bool_decide (c = ">"%char)).
Definition not_lt (c : ascii) : bool := negb (bool_decide (c = "<"%char)).
Definition name_char (c : ascii) : bool := negb (ends_name c).

Definition no_gt (s : string) : Prop := all_chars not_gt s = true.

(** A tag name as the tokenizer reads it: a letter, then anything but
    white space, [/] and [>]. *)
Definition raw_name (n : string) : Prop :=
  match n with
  | String c _ => is_alpha c = true
  | EmptyString => False
  end
  ∧ all_chars name_char n = true.

(** A tag name as the tree has it: in lower case as well. *)
Definition valid_name (n : string) : Prop := raw_name n ∧ lower n = n.

(** The text between a tag name and [>]. *)
Definition valid_attrs (a : string) : Prop :=
  no_gt a
  ∧ match a with
    | String c _ => ends_name c = true
    | EmptyString => True
    end.

(** No [>] inside the text ends the comment, or the raw text of the
    element [elem], early. *)
Definition comment_ok (s : string) : Prop :=
  ∀ p q, s = p +:+ String ">" q → comment_close p = None.

Definition raw_ok (elem s : string) : Prop :=
  ∀ p q, s = p +:+ String ">" q → raw_close elem p = None.

Lemma feed_app (l : mode * list event) (a b : string) :
  feed l (a +:+ b) = feed (feed l a) b.
Proof.
  revert l. induction a as [|c a IH]; intros l; [done|].
  rewrite app_cons. simpl. apply IH.
Qed.

Lemma snoc_app (acc : string) (c : ascii) (r : string) :
  snoc acc c +:+ r = acc +:+ String c r.
Proof. unfold snoc. by rewrite app_assoc. Qed.

Lemma all_chars_app (P : ascii → bool) (a b : string) :
  all_chars P (a +:+ b) = all_chars P a && all_chars P b.
Proof.
  induction a as [|c a IH]; [done|]. rewrite app_cons. simpl.
  by rewrite IH, andb_assoc.
Qed.

Lemma not_gt_ne (c : ascii) : not_gt c = true → c ≠ ">"%char.
Proof. unfold not_gt. by intros ?%negb_true_iff%bool_decide_eq_false. Qed.

Lemma not_lt_ne (c : ascii) : not_lt c = true → c ≠ "<"%char.
Proof. unfold not_lt. by intros ?%negb_true_iff%bool_decide_eq_false. Qed.

Lemma name_char_not_gt (c : ascii) : name_char c = true → c ≠ ">"%char.
Proof. unfold name_char. intros H ->. done. Qed.

(** Text without [<] stays text. *)
Lemma feed_text (s chunk : string) (out : list event) :
  all_chars not_lt s = true →
  feed (Text chunk, out) s = (Text (chunk +:+ s), out).
Proof.
  revert chunk. induction s as [|c s IH]; intros chunk; simpl.
  - by rewrite app_nil_r.
  - intros [Hc Hs]%andb_true_iff. apply not_lt_ne in Hc.
    rewrite decide_False by done. rewrite IH by done. by rewrite snoc_app.
Qed.

Lemma substitute_xml_no_lt (s : string) : all_chars not_lt (substitute_xml s) = true.
Proof.
  induction s as [|c s IH]; [done|]. simpl.
  rewrite all_chars_app, IH, andb_true_r.
  repeat case_decide; try done. simpl. rewrite andb_true_r.
  unfold not_lt. by rewrite bool_decide_eq_false_2.
Qed.

Lemma feed_start_name (r acc : string) (out : list event) :
  all_chars name_char r = true →
  feed (StartName acc, out) r = (StartName (acc +:+ r), out).
Proof.
  revert acc. induction r as [|c r IH]; intros acc; simpl.
  - by rewrite app_nil_r.
  - intros [Hc Hr]%andb_true_iff.
    rewrite decide_False by by apply name_char_not_gt.
    unfold name_char in Hc. apply negb_true_iff in Hc. rewrite Hc.
    rewrite IH by done. by rewrite snoc_app.
Qed.

Lemma feed_end_name (r acc : string) (out : list event) :
  all_chars name_char r = true →
  feed (EndName acc, out) r = (EndName (acc +:+ r), out).
Proof.
  revert acc. induction r as [|c r IH]; intros acc; simpl.
  - by rewrite app_nil_r.
  - intros [Hc Hr]%andb_true_iff.
    rewrite decide_False by by apply name_char_not_gt.
    unfold name_char in Hc. apply negb_true_iff in Hc. rewrite Hc.
    rewrite IH by done. by rewrite snoc_app.
Qed.

Lemma feed_start_attrs (r name acc : string) (out : list event) :
  all_chars not_gt r = true →
  feed (StartAttrs name acc, out) r = (StartAttrs name (acc +:+ r), out).
Proof.
  revert acc. induction r as [|c r IH]; intros acc; simpl.
  - by rewrite app_nil_r.
  - intros [Hc Hr]%andb_true_iff. apply not_gt_ne in Hc.
    rewrite decide_False by done. rewrite IH by done. by rewrite snoc_app.
Qed.

Lemma feed_pi (r acc : string) (out : list event) :
  all_chars not_gt r = true →
  feed (InPi acc, out) r = (InPi (acc +:+ r), out).
Proof.
  revert acc. induction r as [|c r IH]; intros acc; simpl.
  - by rewrite app_nil_r.
  - intros [Hc Hr]%andb_true_iff. apply not_gt_ne in Hc.
    rewrite decide_False by done. rewrite IH by done. by rewrite snoc_app.
Qed.

(** A declaration that does not begin like a comment or a marked
    section. *)
Lemma step_bang (acc : string) (c0 c : ascii) (out : list event) :
  c0 ≠ "-"%char → c ≠ ">"%char →
  step (Bang (String c0 acc), out) c = (Bang (snoc (String c0 acc) c), out).
Proof.
  intros Hc0 Hc. unfold step.
  rewrite decide_False by (intros [? _]; congruence).
  rewrite decide_False by (by intros [? _]).
  by rewrite decide_False.
Qed.

Lemma step_bang_close (acc : string) (c0 : ascii) (out : list event) :
  c0 ≠ "-"%char →
  step (Bang (String c0 acc), out) ">"
  = (Text EmptyString, out ++ [declaration (String c0 acc)]).
Proof.
  intros Hc0. unfold step.
  rewrite decide_False by (intros [? _]; congruence).
  rewrite decide_False by (by intros [? _]).
  by rewrite decide_True.
Qed.

Lemma feed_bang (r acc : string) (c0 : ascii) (out : list event) :
  c0 ≠ "-"%char →
  all_chars not_gt r = true →
  feed (Bang (String c0 acc), out) r = (Bang (String c0 acc +:+ r), out).
Proof.
  intros Hc0. revert acc. induction r as [|c r IH]; intros acc.
  - by rewrite app_nil_r.
  - cbn [all_chars feed]. intros [Hc Hr]%andb_true_iff. apply not_gt_ne in Hc.
    rewrite step_bang by done. unfold snoc. rewrite app_cons.
    rewrite IH by done. by rewrite !app_cons, app_assoc.
Qed.

Lemma feed_comment (r acc : string) (out : list event) :
  (∀ p q, r = p +:+ String ">" q → comment_close (acc +:+ p) = None) →
  feed (InComment acc, out) r = (InComment (acc +:+ r), out).
Proof.
  revert acc. induction r as [|c r IH]; intros acc Hr; simpl.
  - by rewrite app_nil_r.
  - assert ((if decide (c = ">"%char) then comment_close acc else None) = None) as ->.
    { case_decide as Hc; [|done]. subst c.
      specialize (Hr EmptyString r eq_refl). by rewrite app_nil_r in Hr. }
    rewrite IH; [by rewrite snoc_app|].
    intros p q ->. rewrite snoc_app. apply (Hr (String c p) q). by rewrite app_cons.
Qed.

Lemma feed_raw (r elem acc : string) (out : list event) :
  (∀ p q, r = p +:+ String ">" q → raw_close elem (acc +:+ p) = None) →
  feed (RawText elem acc, out) r = (RawText elem (acc +:+ r), out).
Proof.
  revert acc. induction r as [|c r IH]; intros acc Hr; simpl.
  - by rewrite app_nil_r.
  - assert ((if decide (c = ">"%char) then raw_close elem acc else None) = None) as ->.
    { case_decide as Hc; [|done]. subst c.
      specialize (Hr EmptyString r eq_refl). by rewrite app_nil_r in Hr. }
    rewrite IH; [by rewrite snoc_app|].
    intros p q ->. rewrite snoc_app. apply (Hr (String c p) q). by rewrite app_cons.
Qed.

End feeding.

Section closing.
Import Str bs4 htmlparser.

Lemma strip_suffix_unfold (p s : string) :
  strip_suffix p s
  = if decide (s = p) then Some EmptyString
    else match s with
         | EmptyString => None
         | String c s' => String c <$> strip_suffix p s'
         end.
Proof. by destruct s. Qed.

Lemma app_not_shorter (a p : string) (c : ascii) : String c (a +:+ p) ≠ p.
Proof.
  intros H. apply (f_equal String.length) in H. simpl in H.
  rewrite length_app in H. lia.
Qed.

Lemma strip_suffix_app (p s : string) : strip_suffix p (s +:+ p) = Some s.
Proof.
  induction s as [|c s IH].
  - rewrite app_nil_l, strip_suffix_unfold. by rewrite decide_True.
  - rewrite app_cons, strip_suffix_unfold.
    rewrite decide_False by apply app_not_shorter. by rewrite IH.
Qed.

Lemma strip_suffix_Some (p s d : string) :
  strip_suffix p s = Some d → s = d +:+ p.
Proof.
  revert d. induction s as [|c s IH]; intros d; rewrite strip_suffix_unfold.
  - case_decide; [|done]. intros ?; by simplify_eq.
  - case_decide as Hp; [intros ?; by simplify_eq|].
    destruct (strip_suffix p s) as [d'|] eqn:Hs; [|done].
    simpl. intros ?; simplify_eq. rewrite app_cons. f_equal. by apply IH.
Qed.

Lemma rstrip_cons (c : ascii) (s : string) :
  rstrip (String c s)
  = match rstrip s with
    | EmptyString => if is_space c then EmptyString else String c EmptyString
    | r => String c r
    end.
Proof. reflexivity. Qed.

Lemma rstrip_app (s t : string) :
  rstrip t ≠ EmptyString → rstrip (s +:+ t) = s +:+ rstrip t.
Proof.
  intros Ht. induction s as [|c s IH]; [done|].
  rewrite !app_cons, rstrip_cons, IH.
  destruct (s +:+ rstrip t) eqn:Hs; [|done].
  destruct s; [by rewrite app_nil_l in Hs | by rewrite app_cons in Hs].
Qed.

Lemma rstrip_prefix (s : string) : ∃ r, s = rstrip s +:+ r.
Proof.
  induction s as [|c s [r IH]]; [by exists EmptyString|].
  rewrite rstrip_cons. destruct (rstrip s) as [|c' r'] eqn:Hr.
  - destruct (is_space c).
    + by exists (String c s).
    + exists s. by rewrite app_cons.
  - exists r. rewrite app_cons. by f_equal.
Qed.

Lemma substring_0_prefix (n : nat) (s : string) : ∃ r, s = substring 0 n s +:+ r.
Proof.
  revert s. induction n as [|n IH]; intros s.
  - exists s. by destruct s.
  - destruct s as [|c s]; [by exists EmptyString|].
    destruct (IH s) as [r Hr]. exists r. simpl. rewrite app_cons. by f_equal.
Qed.

Lemma substring_0_app (a b : string) : substring 0 (String.length a) (a +:+ b) = a.
Proof.
  induction a as [|c a IH]; [by destruct b|].
  rewrite app_cons. simpl. by rewrite IH.
Qed.

Lemma substring_skip_app (a b : string) (k : nat) :
  substring (String.length a) k (a +:+ b) = substring 0 k b.
Proof. induction a as [|c a IH]; [done|]. rewrite app_cons. simpl. apply IH. Qed.

Lemma substring_0_all (s : string) : substring 0 (String.length s) s = s.
Proof. induction s as [|c s IH]; [done|]. simpl. by rewrite IH. Qed.

Lemma comment_close_dashes (s : string) : comment_close (s +:+ "--") = Some s.
Proof.
  unfold comment_close. rewrite rstrip_app by done. apply strip_suffix_app.
Qed.

Lemma comment_close_prefix (body text : string) :
  comment_close body = Some text → ∃ r, body = text +:+ r.
Proof.
  unfold comment_close. intros H%strip_suffix_Some.
  destruct (rstrip_prefix body) as [r Hr]. rewrite H in Hr.
  exists ("--" +:+ r). by rewrite Hr, app_assoc.
Qed.

Lemma raw_close_prefix (elem text data : string) :
  raw_close elem text = Some data → ∃ r, text = data +:+ r.
Proof.
  unfold raw_close. case_decide; [|done].
  intros Hd%strip_suffix_Some.
  destruct (rstrip_prefix text) as [r1 H1].
  destruct (substring_0_prefix
              (String.length (rstrip text) - String.length elem) (rstrip text))
    as [r2 H2].
  destruct (rstrip_prefix
              (substring 0 (String.length (rstrip text) - String.length elem)
                 (rstrip text))) as [r3 H3].
  rewrite Hd in H3. rewrite H3 in H2. rewrite H2 in H1.
  exists ("</" +:+ r3 +:+ r2 +:+ r1). by rewrite H1, !app_assoc.
Qed.

(** The closing tag the serializer writes ends the raw text, with all
    of it as data. *)
Lemma raw_close_closing (elem s : string) :
  rstrip elem = elem → elem ≠ EmptyString → lower elem = elem →
  raw_close elem (s +:+ "</" +:+ elem) = Some s.
Proof.
  intros Hr Hne Hl. unfold raw_close.
  assert (rstrip (s +:+ "</" +:+ elem) = s +:+ "</" +:+ elem) as ->.
  { rewrite <- app_assoc, rstrip_app; rewrite Hr; done. }
  assert (String.length (s +:+ "</" +:+ elem) - String.length elem
          = String.length (s +:+ "</")) as ->.
  { rewrite !length_app. simpl. lia. }
  rewrite <- app_assoc, substring_skip_app, substring_0_all, Hl.
  rewrite decide_True by (split; [done | rewrite !length_app; lia]).
  rewrite substring_0_app, rstrip_app by done. apply strip_suffix_app.
Qed.

Lemma gt_split_app (s t p q : string) :
  all_chars not_gt t = true →
  s +:+ t = p +:+ String ">" q → ∃ q', s = p +:+ String ">" q'.
Proof.
  intros Ht. revert p. induction s as [|c s IH]; intros p H.
  - rewrite app_nil_l in H. subst t. rewrite all_chars_app in Ht.
    apply andb_true_iff in Ht as [_ Ht]. done.
  - destruct p as [|d p].
    + rewrite app_nil_l in H. rewrite app_cons in H. simplify_eq.
      exists s. by rewrite app_nil_l.
    + rewrite !app_cons in H. simplify_eq.
      destruct (IH p) as [q' ->]; [done|]. exists q'. by rewrite app_cons.
Qed.

Lemma no_gt_no_split (s p q : string) :
  all_chars not_gt s = true → s ≠ p +:+ String ">" q.
Proof.
  intros Hs ->. rewrite all_chars_app in Hs.
  by apply andb_true_iff in Hs as [_ Hs].
Qed.

End closing.

(** ** Reading back what [decode] wrote *)

Section reading_back.
Import Str bs4 htmlparser.

(** The content of a script or style tag: nothing, or one string that
    does not close the tag early, after a start tag that is not an
    empty-element tag. *)
Definition raw_content (n a : string) (c : list node) : Prop :=
  c = [] ∨ ∃ s, c = [NavigableString s] ∧ raw_ok n s ∧ strip_suffix "/" a = None.

(** The trees the parser builds, and [add_style] keeps them so. *)
Fixpoint wf_node (x : node) : Prop :=
  match x with
  | Tag n a c =>
      valid_name n ∧ valid_attrs a
      ∧ if cdata_containing n then raw_content n a c
        else (fix go (l : list node) : Prop :=
                match l with
                | [] => True
                | y :: l' => wf_node y ∧ go l'
                end) c
  | NavigableString _ => True
  | Comment s => comment_ok s
  | Doctype s | ProcessingInstruction s => no_gt s
  end.

Lemma wf_node_Tag (n a : string) (c : list node) :
  wf_node (Tag n a c)
  ↔ valid_name n ∧ valid_attrs a
    ∧ if cdata_containing n then raw_content n a c else Forall wf_node c.
Proof.
  cbn [wf_node]. destruct (cdata_containing n); [done|].
  do 2 (apply and_iff_compat_l).
  induction c as [|y c IH]; [by split; [constructor|]|].
  rewrite Forall_cons, IH. done.
Qed.

(** The children of a tag, written one after the other. *)
Fixpoint decode_all (raw : bool) (l : list node) : string :=
  match l with
  | [] => EmptyString
  | y :: l' => decode_node raw y +:+ decode_all raw l'
  end.

Lemma decode_node_Tag (raw : bool) (n a : string) (c : list node) :
  decode_node raw (Tag n a c)
  = match c with
    | [] =>
        if can_be_empty_element n then "<" +:+ n +:+ a +:+ "/>"
        else "<" +:+ n +:+ a +:+ "></" +:+ n +:+ ">"
    | _ =>
        "<" +:+ n +:+ a +:+ ">" +:+ decode_all (cdata_containing n) c
        +:+ "</" +:+ n +:+ ">"
    end.
Proof.
  destruct c as [|y c]; [done|]. cbn [decode_node decode_all].
  do 6 f_equal.
  induction c as [|z c IH]; [done|]. cbn [decode_all]. by rewrite <- IH.
Qed.

Lemma decode_decode_all (l : soup) : decode l = decode_all false l.
Proof. induction l as [|y l IH]; [done|]. simpl. by rewrite IH. Qed.

Lemma start_names_flush (chunk : string) (out : list event) :
  start_names (flush chunk out) = start_names out.
Proof.
  unfold flush. case_decide; [done|].
  rewrite start_names_app. simpl. by rewrite (right_id_L [] (++)).
Qed.

Lemma start_names_snoc_other (out : list event) (ev : event) :
  start_names [ev] = [] → start_names (out ++ [ev]) = start_names out.
Proof. intros H. by rewrite start_names_app, H, (right_id_L [] (++)). Qed.

Lemma step_text_lt (chunk : string) (out : list event) :
  step (Text chunk, out) "<" = (Lt, flush chunk out).
Proof. reflexivity. Qed.

Lemma feed_cons (l : mode * list event) (c : ascii) (s : string) :
  feed l (String c s) = feed (step l c) s.
Proof. reflexivity. Qed.

Lemma raw_name_cons (n : string) :
  raw_name n → ∃ c r, n = String c r ∧ is_alpha c = true
                      ∧ all_chars name_char r = true.
Proof.
  intros [H1 H2]. destruct n as [|c r]; [done|].
  exists c, r. simpl in H2. apply andb_true_iff in H2 as [_ H2]. done.
Qed.

(** A start tag, up to its [>]. *)
Lemma feed_open (n a chunk : string) (out : list event) (rest : string) :
  raw_name n → valid_attrs a →
  feed (Text chunk, out) ("<" +:+ n +:+ a +:+ String ">" rest)
  = feed (start_tag n a (flush chunk out)) rest.
Proof.
  intros (c & r & -> & Hc & Hr)%raw_name_cons [Ha1 Ha2].
  change ("<" +:+ ?x) with (String "<" x). rewrite feed_cons, step_text_lt.
  rewrite app_cons, feed_cons. cbn [step]. rewrite Hc.
  rewrite feed_app, feed_start_name by done.
  change (String c EmptyString +:+ r) with (String c r).
  destruct a as [|d a].
  - rewrite app_nil_l, feed_cons. cbn [step]. by rewrite decide_True.
  - unfold no_gt in Ha1. cbn [all_chars] in Ha1.
    apply andb_true_iff in Ha1 as [Hd Ha]. apply not_gt_ne in Hd.
    rewrite app_cons, feed_cons. cbn [step].
    rewrite decide_False by done. rewrite Ha2.
    rewrite feed_app, feed_start_attrs by done.
    change (String d EmptyString +:+ a) with (String d a).
    rewrite feed_cons. cbn [step]. by rewrite decide_True.
Qed.

(** An end tag. *)
Lemma feed_close (n chunk : string) (out : list event) (rest : string) :
  raw_name n →
  feed (Text chunk, out) ("</" +:+ n +:+ String ">" rest)
  = feed (Text EmptyString, flush chunk out ++ [EndTag (lower n)]) rest.
Proof.
  intros (c & r & -> & Hc & Hr)%raw_name_cons.
  change ("</" +:+ ?x) with (String "<" (String "/" x)).
  rewrite feed_cons, step_text_lt, feed_cons. cbn [step].
  replace (is_alpha "/") with false by done.
  rewrite decide_True by done.
  rewrite app_cons, feed_cons. cbn [step]. rewrite Hc.
  rewrite feed_app, feed_end_name by done.
  change (String c EmptyString +:+ r) with (String c r).
  rewrite feed_cons. cbn [step]. by rewrite decide_True.
Qed.

Lemma strip_suffix_slash_valid (a : string) :
  valid_attrs a → valid_attrs (a +:+ "/").
Proof.
  intros [H1 H2]. split.
  - unfold no_gt. by rewrite all_chars_app, H1.
  - by destruct a.
Qed.

End reading_back.

Section reading_back_nodes.
Import Str bs4 htmlparser.

(** Read after any text, the text of the node leaves the tokenizer
    outside markup again, with one start event for each tag of the
    node. *)
Definition reads_back (x : node) : Prop :=
  ∀ chunk out rest, ∃ chunk' out',
    feed (Text chunk, out) (decode_node false x +:+ rest)
    = feed (Text chunk', out') rest
    ∧ start_names out' = start_names out ++ map tag_name (tags_of x).

Lemma reads_back_all (l : list node) :
  Forall (λ x, wf_node x → reads_back x) l → Forall wf_node l →
  ∀ chunk out rest, ∃ chunk' out',
    feed (Text chunk, out) (decode_all false l +:+ rest)
    = feed (Text chunk', out') rest
    ∧ start_names out' = start_names out ++ names l.
Proof.
  induction 1 as [|y l Hy _ IH]; intros Hwf chunk out rest.
  - exists chunk, out. unfold names. simpl. by rewrite (right_id_L [] (++)).
  - apply Forall_cons in Hwf as [Hwy Hwl]. cbn [decode_all]. rewrite app_assoc.
    destruct (Hy Hwy chunk out (decode_all false l +:+ rest))
      as (chunk1 & out1 & -> & Hn1).
    destruct (IH Hwl chunk1 out1 rest) as (chunk2 & out2 & -> & Hn2).
    exists chunk2, out2. split; [done|].
    rewrite Hn2, Hn1. unfold names. simpl. by rewrite map_app, (assoc_L (++)).
Qed.

Lemma cdata_name (n : string) :
  cdata_containing n = true → n = "script" ∨ n = "style".
Proof.
  unfold cdata_containing, cdata_containing_tags.
  intros H%bool_decide_eq_true. rewrite !elem_of_cons in H.
  destruct H as [?|[?|H]]; auto. by apply elem_of_nil in H.
Qed.

Lemma cdata_closing (n s : string) :
  cdata_containing n = true → raw_close n (s +:+ "</" +:+ n) = Some s.
Proof. intros [-> | ->]%cdata_name; by apply raw_close_closing. Qed.

Lemma start_tag_empty_element (n a : string) (out : list event) :
  start_tag n (a +:+ "/") out
  = (Text EmptyString, out ++ [StartEndTag (lower n) a]).
Proof. unfold start_tag. by rewrite strip_suffix_app. Qed.

(** What follows a start tag: raw text after an open script or style
    tag, markup otherwise. *)
Lemma start_tag_mode (n a : string) (out : list event) :
  lower n = n →
  ∃ ev, start_names [ev] = [n]
        ∧ start_tag n a out
          = (match strip_suffix "/" a with
             | None => if cdata_containing n then RawText n EmptyString
                       else Text EmptyString
             | Some _ => Text EmptyString
             end, out ++ [ev]).
Proof.
  intros Hl. unfold start_tag. rewrite Hl.
  destruct (strip_suffix "/" a) as [a'|]; eexists; (split; [|reflexivity]); done.
Qed.

Lemma valid_name_no_gt (n : string) : valid_name n → all_chars not_gt n = true.
Proof.
  intros [[_ H] _]. clear -H. induction n as [|c n IH]; [done|].
  simpl in *. apply andb_true_iff in H as [Hc Hn]. rewrite IH by done.
  rewrite andb_true_r. unfold not_gt.
  apply negb_true_iff, bool_decide_eq_false. by apply name_char_not_gt.
Qed.

(** The end tag of a script or style tag, read as raw text. *)
Lemma feed_raw_close (n s : string) (out : list event) (rest : string) :
  cdata_containing n = true → valid_name n → raw_ok n s →
  feed (RawText n EmptyString, out) (s +:+ "</" +:+ n +:+ String ">" rest)
  = feed (Text EmptyString, flush s out ++ [EndTag n]) rest.
Proof.
  intros Hc Hn Hs.
  replace (s +:+ "</" +:+ n +:+ String ">" rest)
    with ((s +:+ "</" +:+ n) +:+ String ">" rest) by (by rewrite !app_assoc).
  rewrite feed_app, feed_raw.
  - rewrite app_nil_l, feed_cons. cbn [step]. rewrite decide_True by done.
    by rewrite cdata_closing.
  - intros p q Hpq. rewrite app_nil_l.
    destruct (gt_split_app s ("</" +:+ n) p q) as [q' Hq']; [|done|by eapply Hs].
    change ("</" +:+ n) with (String "<" (String "/" n)). cbn [all_chars].
    by rewrite valid_name_no_gt.
Qed.

Lemma feed_comment_open (chunk : string) (out : list event) :
  feed (Text chunk, out) "<!--" = (InComment EmptyString, flush chunk out).
Proof. reflexivity. Qed.

Lemma feed_doctype_open (chunk : string) (out : list event) :
  feed (Text chunk, out) "<!D" = (Bang "D", flush chunk out).
Proof. reflexivity. Qed.

Lemma feed_pi_open (chunk : string) (out : list event) :
  feed (Text chunk, out) "<?" = (InPi EmptyString, flush chunk out).
Proof. reflexivity. Qed.

Lemma reads_back_node (x : node) : wf_node x → reads_back x.
Proof.
  induction x as [n a c IH|s|s|s|s] using node_forall_ind;
    intros Hwf chunk out rest.
  - apply wf_node_Tag in Hwf as (Hn & Ha & Hc).
    pose proof Hn as [Hraw Hlow].
    rewrite decode_node_Tag, tags_of_Tag. cbn [map tag_name].
    destruct c as [|y c].
    + (* no children *)
      destruct (can_be_empty_element n).
      * replace (("<" +:+ n +:+ a +:+ "/>") +:+ rest)
          with ("<" +:+ n +:+ (a +:+ "/") +:+ String ">" rest)
          by (by rewrite !app_assoc).
        rewrite feed_open by auto using strip_suffix_slash_valid.
        rewrite start_tag_empty_element, Hlow.
        eexists _, _. split; [done|].
        by rewrite start_names_app, start_names_flush.
      * replace (("<" +:+ n +:+ a +:+ "></" +:+ n +:+ ">") +:+ rest)
          with ("<" +:+ n +:+ a +:+ String ">" ("</" +:+ n +:+ String ">" rest))
          by (by rewrite !app_assoc).
        rewrite feed_open by done.
        destruct (start_tag_mode n a (flush chunk out) Hlow) as (ev & Hev & ->).
        assert (start_names (flush EmptyString (flush chunk out ++ [ev]) ++ [EndTag n])
                = start_names out ++ [n]) as Hnames.
        { rewrite start_names_snoc_other, start_names_flush by done.
          by rewrite start_names_app, start_names_flush, Hev. }
        destruct (strip_suffix "/" a); [|destruct (cdata_containing n) eqn:Hcd].
        -- rewrite feed_close, Hlow by done. by eexists _, _.
        -- rewrite <- (app_nil_l ("</" +:+ n +:+ String ">" rest)).
           rewrite feed_raw_close by (done || by intros [] ? ?).
           by eexists _, _.
        -- rewrite feed_close, Hlow by done. by eexists _, _.
    + (* children *)
      replace (("<" +:+ n +:+ a +:+ ">" +:+ decode_all (cdata_containing n) (y :: c)
                +:+ "</" +:+ n +:+ ">") +:+ rest)
        with ("<" +:+ n +:+ a
              +:+ String ">" (decode_all (cdata_containing n) (y :: c)
                              +:+ "</" +:+ n +:+ String ">" rest))
        by (by rewrite !app_assoc).
      rewrite feed_open by done.
      destruct (start_tag_mode n a (flush chunk out) Hlow) as (ev & Hev & ->).
      destruct (cdata_containing n) eqn:Hcd.
      * (* raw text *)
        destruct Hc as [|(s & Hs & Hok & ->)]; [done|]. simplify_eq.
        cbn [decode_all decode_node find_all tags_of map app].
        rewrite app_nil_r, feed_raw_close by done.
        eexists _, _. split; [done|].
        rewrite start_names_snoc_other, start_names_flush by done.
        by rewrite start_names_app, start_names_flush, Hev.
      * assert ((match strip_suffix "/" a with
                 | Some _ | _ => Text EmptyString
                 end) = Text EmptyString) as -> by (by destruct (strip_suffix "/" a)).
        destruct (reads_back_all (y :: c) IH Hc EmptyString
                    (flush chunk out ++ [ev]) ("</" +:+ n +:+ String ">" rest))
          as (chunk1 & out1 & Hfeed & Hn1).
        rewrite Hfeed.
        rewrite feed_close, Hlow by done.
        eexists _, _. split; [done|].
        rewrite start_names_snoc_other, start_names_flush, Hn1 by done.
        rewrite start_names_app, start_names_flush, Hev.
        unfold names. by rewrite <- (assoc_L (++)).
  - (* a string *)
    cbn [decode_node tags_of map].
    rewrite feed_app, feed_text by apply substitute_xml_no_lt.
    eexists _, _. split; [done|]. by rewrite (right_id_L [] (++)).
  - (* a comment *)
    cbn [decode_node tags_of map wf_node] in *.
    replace (("<!--" +:+ s +:+ "-->") +:+ rest)
      with ("<!--" +:+ (s +:+ "--") +:+ String ">" rest) by (by rewrite !app_assoc).
    rewrite feed_app, feed_comment_open, feed_app, feed_comment.
    + rewrite app_nil_l, feed_cons. cbn [step].
      rewrite decide_True by done. rewrite comment_close_dashes.
      eexists _, _. split; [done|].
      rewrite start_names_snoc_other, start_names_flush by done.
      by rewrite (right_id_L [] (++)).
    + intros p q Hpq. rewrite app_nil_l.
      destruct (gt_split_app s "--" p q) as [q' Hq']; [done..|]. by eapply Hwf.
  - (* a document type *)
    cbn [decode_node tags_of map wf_node] in *.
    replace (("<!DOCTYPE " +:+ s +:+ ">" +:+ LF) +:+ rest)
      with ("<!D" +:+ ("OCTYPE " +:+ s) +:+ String ">" (String "010" rest))
      by (by rewrite !app_assoc).
    rewrite feed_app, feed_doctype_open, feed_app, feed_bang; [|done|].
    2:{ rewrite all_chars_app. by rewrite Hwf. }
    rewrite app_cons, app_nil_l, feed_cons, step_bang_close by done.
    rewrite feed_cons. cbn [step]. rewrite decide_False by done.
    eexists _, _. split; [done|].
    rewrite start_names_snoc_other, start_names_flush.
    + by rewrite (right_id_L [] (++)).
    + unfold declaration. by case_decide.
  - (* a processing instruction *)
    cbn [decode_node tags_of map wf_node] in *.
    replace (("<?" +:+ s +:+ ">") +:+ rest)
      with ("<?" +:+ s +:+ String ">" rest) by (by rewrite !app_assoc).
    rewrite feed_app, feed_pi_open, feed_app, feed_pi by done.
    rewrite app_nil_l, feed_cons. cbn [step]. rewrite decide_True by done.
    eexists _, _. split; [done|].
    rewrite start_names_snoc_other, start_names_flush by done.
    by rewrite (right_id_L [] (++)).
Qed.

End reading_back_nodes.

(** ** What the tokenizer emits *)

Section tokens.
Import Str bs4 htmlparser.

(** The events come in groups: one event, or the start tag of a script
    or style element with its raw text and its end tag. *)
Inductive item :=
| Single (ev : event)
| RawElement (n a : string) (data : option string).

Definition item_events (it : item) : list event :=
  match it with
  | Single ev => [ev]
  | RawElement n a data =>
      StartTag n a
      :: match data with
         | Some s => [Data s; EndTag n]
         | None => [EndTag n]
         end
  end.

Definition flatten (items : list item) : list event := flat_map item_events items.

Definition item_ok (it : item) : Prop :=
  match it with
  | Single (StartTag n a) =>
      valid_name n ∧ valid_attrs a ∧ cdata_containing n = false
  | Single (StartEndTag n a) => valid_name n ∧ valid_attrs a
  | Single (EndTag _) | Single (Data _) => True
  | Single (CommentEv s) => comment_ok s
  | Single (Decl s) | Single (Pi s) => no_gt s
  | RawElement n a data =>
      valid_name n ∧ valid_attrs a ∧ cdata_containing n = true
      ∧ strip_suffix "/" a = None
      ∧ ∀ s, data = Some s → raw_ok n s
  end.

Definition good (out : list event) : Prop :=
  ∃ items, out = flatten items ∧ Forall item_ok items.

Definition mode_ok (m : mode) : Prop :=
  match m with
  | StartName nm => raw_name nm
  | StartAttrs nm a => raw_name nm ∧ valid_attrs a ∧ a ≠ EmptyString
  | Bogus b | Bang b | InPi b => no_gt b
  | InComment b => comment_ok b
  | _ => True
  end.

(** The invariant of the tokenizer. *)
Definition tok_inv (l : mode * list event) : Prop :=
  match l.1 with
  | RawText n text =>
      ∃ items a,
        l.2 = flatten items ++ [StartTag n a]
        ∧ Forall item_ok items
        ∧ valid_name n ∧ valid_attrs a ∧ cdata_containing n = true
        ∧ strip_suffix "/" a = None
        ∧ raw_ok n text
  | m => good l.2 ∧ mode_ok m
  end.

Lemma flatten_app (l1 l2 : list item) : flatten (l1 ++ l2) = flatten l1 ++ flatten l2.
Proof. unfold flatten. by rewrite flat_map_app. Qed.

Lemma good_snoc (out : list event) (ev : event) :
  good out → item_ok (Single ev) → good (out ++ [ev]).
Proof.
  intros (items & -> & Hok) Hev. exists (items ++ [Single ev]). split.
  - rewrite flatten_app. by unfold flatten at 3.
  - apply Forall_app. split; [done | by constructor].
Qed.

Lemma good_flush (chunk : string) (out : list event) : good out → good (flush chunk out).
Proof. intros H. unfold flush. case_decide; [done|]. by apply good_snoc. Qed.

Lemma good_nil : good [].
Proof. by exists []. Qed.

(** *** Names *)

Lemma lower_char_idem (c : ascii) : lower_char (lower_char c) = lower_char c.
Proof.
  unfold lower_char. destruct (is_upper c) eqn:Hc; [|by rewrite Hc].
  unfold is_upper in *. apply andb_true_iff in Hc as [H1 H2].
  apply Nat.leb_le in H1, H2.
  rewrite nat_ascii_embedding by lia.
  replace (nat_of_ascii c + 32 <=? 90)%nat with false; [by rewrite andb_false_r|].
  symmetry. apply Nat.leb_gt. lia.
Qed.

Lemma lower_idem (s : string) : lower (lower s) = lower s.
Proof. induction s as [|c s IH]; [done|]. simpl. by rewrite lower_char_idem, IH. Qed.

Lemma lower_char_alpha (c : ascii) : is_alpha c = true → is_alpha (lower_char c) = true.
Proof.
  unfold lower_char. destruct (is_upper c) eqn:Hc; [|done]. intros _.
  unfold is_upper, is_alpha in *. apply andb_true_iff in Hc as [H1 H2].
  apply Nat.leb_le in H1, H2. rewrite nat_ascii_embedding by lia.
  apply orb_true_iff. right. apply andb_true_iff.
  split; apply Nat.leb_le; lia.
Qed.

Lemma lower_char_name_char (c : ascii) :
  name_char c = true → name_char (lower_char c) = true.
Proof.
  unfold lower_char. destruct (is_upper c) eqn:Hc; [|done]. intros _.
  unfold is_upper in Hc. apply andb_true_iff in Hc as [H1 H2].
  apply Nat.leb_le in H1, H2.
  unfold name_char, ends_name. rewrite nat_ascii_embedding by lia.
  apply negb_true_iff. repeat (apply orb_false_iff; split); apply Nat.eqb_neq; lia.
Qed.

Lemma alpha_name_char (c : ascii) : is_alpha c = true → name_char c = true.
Proof.
  unfold is_alpha, name_char, ends_name. intros H.
  apply negb_true_iff. repeat (apply orb_false_iff; split); apply Nat.eqb_neq;
    intros Hn; rewrite Hn in H; done.
Qed.

Lemma raw_name_lower (nm : string) : raw_name nm → valid_name (lower nm).
Proof.
  intros [H1 H2]. split; [split|apply lower_idem].
  - destruct nm as [|c nm]; [done|]. simpl. by apply lower_char_alpha.
  - clear H1. induction nm as [|c nm IH]; [done|]. simpl in *.
    apply andb_true_iff in H2 as [Hc Hn].
    by rewrite lower_char_name_char, IH.
Qed.

Lemma raw_name_snoc (nm : string) (c : ascii) :
  raw_name nm → ends_name c = false → raw_name (snoc nm c).
Proof.
  intros [H1 H2] Hc. unfold snoc. split.
  - by destruct nm.
  - rewrite all_chars_app, H2. simpl. unfold name_char. by rewrite Hc.
Qed.

Lemma no_gt_snoc (s : string) (c : ascii) :
  no_gt s → c ≠ ">"%char → no_gt (snoc s c).
Proof.
  unfold no_gt, snoc. intros Hs Hc. rewrite all_chars_app, Hs. simpl.
  unfold not_gt. by rewrite bool_decide_eq_false_2.
Qed.

Lemma valid_attrs_snoc (a : string) (c : ascii) :
  valid_attrs a → a ≠ EmptyString → c ≠ ">"%char → valid_attrs (snoc a c).
Proof.
  intros [H1 H2] Ha Hc. split; [by apply no_gt_snoc|].
  by destruct a.
Qed.

Lemma valid_attrs_prefix (a r : string) : valid_attrs (a +:+ r) → valid_attrs a.
Proof.
  intros [H1 H2]. unfold no_gt in H1. rewrite all_chars_app in H1.
  apply andb_true_iff in H1 as [H1 _]. split; [done|]. by destruct a.
Qed.

(** *** Splitting at a [>] *)

Lemma split_snoc (b : string) (c : ascii) (p q : string) :
  snoc b c = p +:+ String ">" q →
  (c = ">"%char ∧ p = b ∧ q = EmptyString) ∨ ∃ q', b = p +:+ String ">" q'.
Proof.
  unfold snoc. revert p. induction b as [|d b IH]; intros p H.
  - rewrite app_nil_l in H. destruct p as [|e p].
    + rewrite app_nil_l in H. simplify_eq. by left.
    + rewrite app_cons in H. simplify_eq. by destruct p.
  - rewrite app_cons in H. destruct p as [|e p].
    + rewrite app_nil_l in H. simplify_eq. right. exists b. by rewrite app_nil_l.
    + rewrite app_cons in H. injection H as -> H.
      destruct (IH p H) as [(-> & -> & ->)|[q' ->]]; [by left|].
      right. exists q'. by rewrite app_cons.
Qed.

Lemma comment_ok_no_gt (s : string) : no_gt s → comment_ok s.
Proof. intros Hs p q Hpq. by destruct (no_gt_no_split s p q). Qed.

Lemma raw_ok_no_gt (n s : string) : no_gt s → raw_ok n s.
Proof. intros Hs p q Hpq. by destruct (no_gt_no_split s p q). Qed.

Lemma comment_ok_prefix (a r : string) : comment_ok (a +:+ r) → comment_ok a.
Proof. intros H p q ->. apply (H p (q +:+ r)). by rewrite app_assoc, app_cons. Qed.

Lemma raw_ok_prefix (n a r : string) : raw_ok n (a +:+ r) → raw_ok n a.
Proof. intros H p q ->. apply (H p (q +:+ r)). by rewrite app_assoc, app_cons. Qed.

Lemma comment_ok_snoc (b : string) (c : ascii) :
  comment_ok b → (c = ">"%char → comment_close b = None) → comment_ok (snoc b c).
Proof.
  intros Hb Hc p q [(-> & -> & ->)|[q' ->]]%split_snoc; [by apply Hc|].
  by eapply Hb.
Qed.

Lemma raw_ok_snoc (n b : string) (c : ascii) :
  raw_ok n b → (c = ">"%char → raw_close n b = None) → raw_ok n (snoc b c).
Proof.
  intros Hb Hc p q [(-> & -> & ->)|[q' ->]]%split_snoc; [by apply Hc|].
  by eapply Hb.
Qed.

End tokens.

Section tokenizer_invariant.
Import Str bs4 htmlparser.

Lemma tok_inv_plain (m : mode) (out : list event) :
  (∀ n text, m ≠ RawText n text) → good out → mode_ok m → tok_inv (m, out).
Proof. intros Hm ??. unfold tok_inv. destruct m; try done. by destruct (Hm elem text). Qed.

Lemma tok_inv_start_tag (nm a : string) (out : list event) :
  good out → raw_name nm → valid_attrs a → tok_inv (start_tag nm a out).
Proof.
  intros Hout Hnm Ha. unfold start_tag.
  pose proof (raw_name_lower nm Hnm) as Hvalid.
  destruct (strip_suffix "/" a) as [a'|] eqn:Hs.
  - apply tok_inv_plain; [done| |done].
    apply good_snoc; [done|]. split; [done|].
    apply strip_suffix_Some in Hs. rewrite Hs in Ha. by eapply valid_attrs_prefix.
  - change CDATA_CONTENT_ELEMENTS with cdata_containing_tags.
    fold (cdata_containing (lower nm)).
    destruct (cdata_containing (lower nm)) eqn:Hcd.
    + destruct Hout as (items & -> & Hitems).
      exists items, a. split_and!; try done. by apply raw_ok_no_gt.
    + apply tok_inv_plain; [done| |done]. by apply good_snoc.
Qed.

Lemma tok_inv_step (l : mode * list event) (c : ascii) :
  tok_inv l → tok_inv (step l c).
Proof.
  destruct l as [m out]. unfold tok_inv at 1. cbn [fst snd].
  destruct m as [chunk| |nm|nm a| |nm|nm|b|b|b|b|n text|]; cbn [step].
  - (* text *)
    intros [Hout _]. case_decide; apply tok_inv_plain; try done; auto using good_flush.
  - (* < *)
    intros [Hout _]. destruct (is_alpha c) eqn:Hc.
    { apply tok_inv_plain; [done..|]. split; [done|]. simpl.
      by rewrite alpha_name_char. }
    repeat case_decide; apply tok_inv_plain; try done; by apply good_snoc.
  - (* the name of a start tag *)
    intros [Hout Hnm]. case_decide as Hgt.
    { apply tok_inv_start_tag; done. }
    destruct (ends_name c) eqn:Hc.
    + apply tok_inv_plain; [done..|]. split; [done|]. split; [|done]. split; [|done].
      unfold no_gt. simpl. unfold not_gt. by rewrite bool_decide_eq_false_2.
    + apply tok_inv_plain; [done..|]. by apply raw_name_snoc.
  - (* the rest of a start tag *)
    intros [Hout (Hnm & Ha & Hne)]. case_decide as Hgt.
    { apply tok_inv_start_tag; done. }
    apply tok_inv_plain; [done..|]. split; [done|].
    split; [by apply valid_attrs_snoc|]. unfold snoc. by destruct a.
  - (* </ *)
    intros [Hout _]. destruct (is_alpha c); [by apply tok_inv_plain|].
    case_decide as Hgt; apply tok_inv_plain; try done.
    unfold mode_ok, no_gt. simpl. unfold not_gt. by rewrite bool_decide_eq_false_2.
  - (* the name of an end tag *)
    intros [Hout _]. case_decide.
    { apply tok_inv_plain; [done| |done]. by apply good_snoc. }
    destruct (ends_name c); by apply tok_inv_plain.
  - (* the rest of an end tag *)
    intros [Hout _]. case_decide; apply tok_inv_plain; try done. by apply good_snoc.
  - (* a bogus comment *)
    intros [Hout Hb]. case_decide.
    + apply tok_inv_plain; [done| |done]. apply good_snoc; [done|].
      by apply comment_ok_no_gt.
    + apply tok_inv_plain; [done..|]. by apply no_gt_snoc.
  - (* <! *)
    intros [Hout Hb]. repeat case_decide.
    + apply tok_inv_plain; [done..|]. by apply comment_ok_no_gt.
    + by apply tok_inv_plain.
    + apply tok_inv_plain; [done| |done]. apply good_snoc; [done|].
      unfold declaration. case_decide; [done|]. by apply comment_ok_no_gt.
    + apply tok_inv_plain; [done..|]. by apply no_gt_snoc.
  - (* a comment *)
    intros [Hout Hb].
    destruct (if decide (c = ">"%char) then comment_close b else None)
      as [text|] eqn:Hclose.
    + apply tok_inv_plain; [done| |done]. apply good_snoc; [done|].
      case_decide; [|done].
      destruct (comment_close_prefix _ _ Hclose) as [r ->].
      by eapply comment_ok_prefix.
    + apply tok_inv_plain; [done..|]. apply comment_ok_snoc; [done|].
      intros ->. by rewrite decide_True in Hclose.
  - (* a processing instruction *)
    intros [Hout Hb]. case_decide.
    + apply tok_inv_plain; [done| |done]. by apply good_snoc.
    + apply tok_inv_plain; [done..|]. by apply no_gt_snoc.
  - (* raw text *)
    intros (items & a & -> & Hitems & Hn & Ha & Hcd & Hs & Htext).
    destruct (if decide (c = ">"%char) then raw_close n text else None)
      as [data|] eqn:Hclose.
    + case_decide; [|done].
      destruct (raw_close_prefix _ _ _ Hclose) as [r ->].
      apply raw_ok_prefix in Htext.
      apply tok_inv_plain; [done| |done].
      exists (items ++ [RawElement n a (if decide (data = EmptyString)
                                        then None else Some data)]).
      split.
      * rewrite flatten_app. unfold flatten at 2, flush. simpl.
        case_decide; by rewrite <- !(assoc_L (++)).
      * apply Forall_app. split; [done|]. constructor; [|done].
        split_and!; try done. intros s. case_decide; [done|].
        by intros ?; simplify_eq.
    + exists items, a. split_and!; try done.
      apply raw_ok_snoc; [done|]. intros ->. by rewrite decide_True in Hclose.
  - (* rejected *)
    done.
Qed.

Lemma tok_inv_feed (markup : string) (l : mode * list event) :
  tok_inv l → tok_inv (feed l markup).
Proof.
  revert l. induction markup as [|c s IH]; intros l Hl; [done|].
  simpl. by apply IH, tok_inv_step.
Qed.

(** The events of a whole document: groups, and at the end perhaps the
    start tag of a script or style element that was never closed. *)
Definition parsed (events : list event) : Prop :=
  ∃ items tail,
    events = flatten items ++ tail
    ∧ Forall item_ok items
    ∧ (tail = []
       ∨ ∃ n a, tail = [StartTag n a] ∧ valid_name n ∧ valid_attrs a
                ∧ cdata_containing n = true).

Lemma parsed_good (events : list event) : good events → parsed events.
Proof.
  intros (items & -> & H). exists items, []. rewrite (right_id_L [] (++)). auto.
Qed.

Lemma unfinished_comment_prefix (body : string) :
  ∃ r, body = unfinished_comment body +:+ r.
Proof.
  unfold unfinished_comment.
  destruct (strip_suffix "--!" body) as [b|] eqn:H1;
    [apply strip_suffix_Some in H1; eauto|].
  destruct (strip_suffix "--" body) as [b|] eqn:H2;
    [apply strip_suffix_Some in H2; eauto|].
  destruct (strip_suffix "-" body) as [b|] eqn:H3;
    [apply strip_suffix_Some in H3; simpl; eauto|].
  exists EmptyString. simpl. by rewrite app_nil_r.
Qed.

Lemma tokenize_parsed (markup : string) (events : list event) :
  tokenize markup = Ok events → parsed events.
Proof.
  unfold tokenize.
  assert (tok_inv (feed (Text EmptyString, []) markup)) as Hinv.
  { apply tok_inv_feed. split; [apply good_nil | done]. }
  destruct (feed (Text EmptyString, []) markup) as [m out].
  unfold tok_inv in Hinv. cbn [fst snd] in Hinv.
  destruct m as [chunk| |nm|nm a| |nm|nm|b|b|b|b|n text|];
    cbn [close]; intros ?; simplify_eq.
  all: try lazymatch type of Hinv with
           | _ ∧ _ => destruct Hinv as [Hout Hm]; apply parsed_good
           end.
  all: try by auto using good_flush, good_snoc.
  - apply good_snoc; [done|]. by apply comment_ok_no_gt.
  - apply good_snoc; [done|]. unfold declaration. case_decide; [done|].
    by apply comment_ok_no_gt.
  - apply good_snoc; [done|].
    destruct (unfinished_comment_prefix b) as [r Hr].
    simpl in Hm. rewrite Hr in Hm. by eapply comment_ok_prefix.
  - destruct Hinv as (items & a & -> & Hitems & Hn & Ha & Hcd & _).
    exists items, [StartTag n a]. split_and!; [done..|]. right. eauto 10.
Qed.

End tokenizer_invariant.

(** ** The trees the builder makes read back *)

Section builder_invariant.
Import Str bs4 htmlparser.

Definition frame_ok (f : frame) : Prop :=
  valid_name (f_name f) ∧ valid_attrs (f_attrs f)
  ∧ cdata_containing (f_name f) = false
  ∧ Forall wf_node (f_contents f).

Definition builder_ok (b : builder) : Prop :=
  Forall wf_node (root b)
  ∧ Forall frame_ok (tagStack b)
  ∧ Forall (λ n, can_be_empty_element n = true) (already_closed_empty_element b).

(** The builder once its pending text is gone. *)
Definition clear_data (b : builder) : builder :=
  {| root := root b; tagStack := tagStack b; current_data := [];
     already_closed_empty_element := already_closed_empty_element b |}.

(** The builder with one more open tag that has children already. *)
Definition with_frame (f : frame) (b : builder) : builder :=
  {| root := root b; tagStack := f :: tagStack b;
     current_data := current_data b;
     already_closed_empty_element := already_closed_empty_element b |}.

Lemma add_node_ok (x : node) (b : builder) :
  wf_node x → builder_ok b → builder_ok (add_node x b).
Proof.
  intros Hx (Hr & Hs & Hc). unfold add_node, builder_ok.
  destruct (tagStack b) as [|f st]; cbn [root tagStack already_closed_empty_element].
  - split_and!; [|done..]. apply Forall_app. auto.
  - apply Forall_cons in Hs as [(?&?&?&?) Hs]. split_and!; [done| |done].
    constructor; [|done]. unfold frame_ok. cbn [f_name f_attrs f_contents].
    split_and!; [done..|]. apply Forall_app. auto.
Qed.

Lemma clear_data_ok (b : builder) : builder_ok b → builder_ok (clear_data b).
Proof. by intros (?&?&?). Qed.

Lemma endData_cases (container : string → node) (b : builder) :
  (current_data b = [] ∧ endData container b = b)
  ∨ ∃ d, (d = concat_all (current_data b) ∨ d = " " ∨ d = LF)
         ∧ current_data b ≠ []
         ∧ endData container b = add_node (container d) (clear_data b).
Proof.
  unfold endData. destruct (current_data b) as [|d ds] eqn:Hd; [by left|].
  right. fold (clear_data b).
  repeat case_match; eexists; (split; [|split; [done|reflexivity]]); auto.
Qed.

Lemma current_data_add_node (x : node) (b : builder) :
  current_data (add_node x b) = current_data b.
Proof. unfold add_node. by destruct (tagStack b). Qed.

Lemma current_data_endData (container : string → node) (b : builder) :
  current_data (endData container b) = [].
Proof.
  destruct (endData_cases container b) as [[? ->]|(d & _ & _ & ->)]; [done|].
  by rewrite current_data_add_node.
Qed.

Lemma endData_ok (container : string → node) (b : builder) :
  (current_data b ≠ [] → wf_node (container (concat_all (current_data b)))) →
  wf_node (container " ") → wf_node (container LF) →
  builder_ok b → builder_ok (endData container b).
Proof.
  intros Hd Hsp Hlf Hb.
  destruct (endData_cases container b) as [[? ->]|(d & Hc & Hne & ->)]; [done|].
  apply add_node_ok; [|by apply clear_data_ok].
  destruct Hc as [->| [->| ->]]; auto.
Qed.

Lemma endData_text_ok (b : builder) :
  builder_ok b → builder_ok (endData NavigableString b).
Proof. by apply endData_ok. Qed.

Lemma popTag_ok (b : builder) : builder_ok b → builder_ok (popTag b).
Proof.
  intros (Hr & Hs & Hc). unfold popTag.
  destruct (tagStack b) as [|f st] eqn:Hst; [by rewrite <- Hst in Hs|].
  apply Forall_cons in Hs as [(Hn & Ha & Hcd & Hcs) Hs].
  apply add_node_ok; [|done].
  apply wf_node_Tag. rewrite Hcd. done.
Qed.

Lemma pop_through_ok (name : string) (n : nat) (b : builder) :
  builder_ok b → builder_ok (pop_through name n b).
Proof.
  revert b. induction n as [|n IH]; intros b Hb; simpl; [done|].
  destruct (tagStack b) as [|f st] eqn:Hst; [done|].
  case_decide; auto using popTag_ok.
Qed.

Lemma popToTag_ok (name : string) (b : builder) :
  builder_ok b → builder_ok (popToTag name b).
Proof. intros Hb. unfold popToTag. case_match; auto using pop_through_ok. Qed.

Lemma pop_all_ok (n : nat) (b : builder) :
  builder_ok b → builder_ok (pop_all n b).
Proof. revert b. induction n as [|n IH]; intros b Hb; simpl; auto using popTag_ok. Qed.

Lemma remove_first_Forall (P : string → Prop) (x : string) (l : list string) :
  Forall P l → Forall P (remove_first x l).
Proof.
  induction 1 as [|y l Hy Hl IH]; simpl; [done|].
  case_decide; [done|]. by constructor.
Qed.

Lemma handle_endtag_ok (name : string) (check : bool) (b : builder) :
  builder_ok b → builder_ok (handle_endtag name check b).
Proof.
  intros Hb. unfold handle_endtag, soup_endtag. case_match.
  - destruct Hb as (?&?&?). split_and!; [done..|]. by apply remove_first_Forall.
  - by apply popToTag_ok, endData_text_ok.
Qed.

Lemma pushTag_ok (name attrs : string) (b : builder) :
  valid_name name → valid_attrs attrs → cdata_containing name = false →
  builder_ok b → builder_ok (pushTag name attrs b).
Proof.
  intros Hn Ha Hcd (?&?&?). split_and!; [done| |done].
  by constructor.
Qed.

Lemma handle_starttag_ok (name attrs : string) (h : bool) (b : builder) :
  valid_name name → valid_attrs attrs → cdata_containing name = false →
  builder_ok b → builder_ok (handle_starttag name attrs h b).
Proof.
  intros Hn Ha Hcd Hb. unfold handle_starttag.
  assert (builder_ok (pushTag name attrs (endData NavigableString b))) as Hp
    by by apply pushTag_ok, endData_text_ok.
  destruct (can_be_empty_element name && h) eqn:Hv; [|done].
  apply andb_true_iff in Hv as [Hv _].
  destruct (handle_endtag_ok name false _ Hp) as (?&?&?).
  split_and!; [done..|]. apply Forall_app. split; [done|]. by constructor.
Qed.

End builder_invariant.

Section built_trees.
Import Str bs4 htmlparser.

Lemma cdata_not_void (n : string) :
  cdata_containing n = true → can_be_empty_element n = false.
Proof. by intros [-> | ->]%cdata_name. Qed.

Lemma concat_all_singleton (s : string) : concat_all [s] = s.
Proof. unfold concat_all. simpl. apply app_nil_r. Qed.

Lemma handle_starttag_cdata (n a : string) (h : bool) (b : builder) :
  cdata_containing n = true →
  handle_starttag n a h b = pushTag n a (endData NavigableString b).
Proof. intros Hcd. unfold handle_starttag. by rewrite (cdata_not_void n Hcd). Qed.

Lemma not_already_closed (n : string) (b : builder) :
  builder_ok b → cdata_containing n = true →
  n ∉ already_closed_empty_element b.
Proof.
  intros (_ & _ & Hc) Hcd Hin.
  rewrite Forall_forall in Hc. apply Hc in Hin.
  by rewrite (cdata_not_void n Hcd) in Hin.
Qed.

(** The end tag of the innermost open tag, when no text is pending. *)
Lemma endtag_top (n a : string) (c : list node) (b : builder) :
  n ∉ already_closed_empty_element b → current_data b = [] →
  handle_endtag n true
    (with_frame {| f_name := n; f_attrs := a; f_contents := c |} b)
  = add_node (Tag n a c) b.
Proof.
  destruct b as [r st cd ac]. cbn [already_closed_empty_element current_data].
  intros Hn ->. unfold handle_endtag, with_frame.
  cbn [already_closed_empty_element root tagStack current_data].
  rewrite bool_decide_false by done. cbn [andb].
  unfold soup_endtag, endData, popToTag.
  cbn [current_data tagStack map f_name length pop_through].
  rewrite bool_decide_true by (apply elem_of_cons; by left).
  by rewrite decide_True.
Qed.

(** The raw text of a script or style element and its end tag. *)
Lemma raw_element_data (n a s : string) (b : builder) :
  n ∉ already_closed_empty_element b → current_data b = [] →
  ∃ d, (d = s ∨ d = " " ∨ d = LF)
       ∧ handle_endtag n true (handle_data s (pushTag n a b))
         = add_node (Tag n a [NavigableString d]) b.
Proof.
  destruct b as [r st cd ac]. cbn [already_closed_empty_element current_data].
  intros Hn ->. unfold handle_endtag, handle_data, pushTag.
  cbn [already_closed_empty_element root tagStack current_data app].
  rewrite bool_decide_false by done. cbn [andb]. unfold soup_endtag.
  match goal with |- context [endData _ ?X] =>
    destruct (endData_cases NavigableString X) as [[? _]|(d & Hd & _ & ->)]
  end; [done|].
  exists d. split.
  - cbn [current_data] in Hd. by rewrite concat_all_singleton in Hd.
  - unfold clear_data, add_node, popToTag.
    cbn [root tagStack current_data already_closed_empty_element map f_name
         f_attrs f_contents length pop_through app].
    rewrite bool_decide_true by (apply elem_of_cons; by left).
    by rewrite decide_True.
Qed.

Lemma handle_special_ok (container : string → node) (data : string) (b : builder) :
  wf_node (container data) → wf_node (container " ") → wf_node (container LF) →
  builder_ok b → builder_ok (handle_special container data b).
Proof.
  intros Hd Hsp Hlf Hb. unfold handle_special. apply endData_ok; [|done..|].
  - intros _. unfold handle_data. cbn [current_data].
    rewrite current_data_endData. cbn [app]. by rewrite concat_all_singleton.
  - by destruct (endData_text_ok b Hb) as (?&?&?).
Qed.

Lemma no_gt_substring (n m : nat) (s : string) : no_gt s → no_gt (substring n m s).
Proof.
  unfold no_gt. revert n m. induction s as [|c s IH]; intros n m H.
  - by destruct n, m.
  - simpl in H. apply andb_true_iff in H as [Hc Hs].
    destruct n as [|n]; simpl; [|by apply IH].
    destruct m as [|m]; [done|]. simpl. rewrite Hc. by apply IH.
Qed.

Lemma empty_raw_ok (n a : string) (b : builder) :
  valid_name n → valid_attrs a → cdata_containing n = true →
  builder_ok b → builder_ok (add_node (Tag n a []) b).
Proof.
  intros Hn Ha Hcd Hb. apply add_node_ok; [|done].
  apply wf_node_Tag. rewrite Hcd. split_and!; [done..|]. by left.
Qed.

Lemma item_handled (it : item) (b : builder) :
  item_ok it → builder_ok b → builder_ok (foldl handle b (item_events it)).
Proof.
  intros Hit Hb.
  destruct it as [[n a|n a|n|d|d|d|d]|n a [s|]]; simpl in Hit |- *.
  - destruct Hit as (?&?&?). by apply handle_starttag_ok.
  - destruct Hit as [Hn Ha]. destruct (cdata_containing n) eqn:Hcd.
    + rewrite handle_starttag_cdata by done.
      pose proof (endData_text_ok b Hb) as Hb'.
      change (pushTag n a ?x)
        with (with_frame {| f_name := n; f_attrs := a; f_contents := [] |} x).
      rewrite endtag_top
        by (by apply not_already_closed || apply current_data_endData).
      by apply empty_raw_ok.
    + by apply handle_endtag_ok, handle_starttag_ok.
  - by apply handle_endtag_ok.
  - by destruct Hb as (?&?&?).
  - apply handle_special_ok; [done| | |done]; by apply comment_ok_no_gt.
  - apply handle_special_ok; [|done..]. by apply no_gt_substring.
  - by apply handle_special_ok.
  - destruct Hit as (Hn & Ha & Hcd & Hsl & Hs).
    rewrite handle_starttag_cdata by done.
    pose proof (endData_text_ok b Hb) as Hb'.
    destruct (raw_element_data n a s (endData NavigableString b))
      as (d & Hd & ->);
      [by apply not_already_closed | apply current_data_endData |].
    apply add_node_ok; [|done].
    apply wf_node_Tag. rewrite Hcd. split_and!; [done..|].
    right. exists d. split_and!; [done| |done].
    destruct Hd as [->|[->| ->]]; [by apply Hs|by apply raw_ok_no_gt..].
  - destruct Hit as (Hn & Ha & Hcd & Hsl & Hs).
    rewrite handle_starttag_cdata by done.
    pose proof (endData_text_ok b Hb) as Hb'.
    change (pushTag n a ?x)
      with (with_frame {| f_name := n; f_attrs := a; f_contents := [] |} x).
    rewrite endtag_top
      by (by apply not_already_closed || apply current_data_endData).
    by apply empty_raw_ok.
Qed.

Lemma items_handled (items : list item) (b : builder) :
  Forall item_ok items → builder_ok b →
  builder_ok (foldl handle b (flatten items)).
Proof.
  intros H. revert b. induction H as [|it items Hit _ IH]; intros b Hb; [done|].
  unfold flatten. cbn [flat_map]. rewrite foldl_app. fold (flatten items).
  by apply IH, item_handled.
Qed.

Lemma finish_ok (b : builder) : builder_ok b → Forall wf_node (finish b).
Proof.
  intros Hb. unfold finish.
  by destruct (pop_all_ok (length (tagStack (endData NavigableString b))) _
                 (endData_text_ok b Hb)) as (?&?&?).
Qed.

Lemma reset_ok : builder_ok reset.
Proof. by split_and!. Qed.

Lemma endData_nil (container : string → node) (b : builder) :
  current_data b = [] → endData container b = b.
Proof. intros H. unfold endData. by rewrite H. Qed.

(** Every tree the builder makes of the events of a document reads
    back. *)
Lemma build_wf (events : list event) : parsed events → Forall wf_node (build events).
Proof.
  intros (items & tail & -> & Hitems & Htail). unfold build.
  rewrite foldl_app.
  pose proof (items_handled items reset Hitems reset_ok) as Hb.
  destruct Htail as [->|(n & a & -> & Hn & Ha & Hcd)]; [by apply finish_ok|].
  set (b := foldl handle reset (flatten items)) in *.
  cbn [foldl handle]. rewrite handle_starttag_cdata by done.
  pose proof (endData_text_ok b Hb) as Hb'.
  pose proof (current_data_endData NavigableString b) as Hcur.
  set (b' := endData NavigableString b) in *.
  unfold finish. rewrite endData_nil by done.
  cbn [pushTag tagStack length pop_all].
  assert (popTag (pushTag n a b') = add_node (Tag n a []) b') as ->.
  { by destruct b'. }
  by destruct (pop_all_ok (length (tagStack b')) _
                 (empty_raw_ok n a b' Hn Ha Hcd Hb')) as (?&?&?).
Qed.

End built_trees.

(** ** Writing a tree and reading it again *)

Section round_trip.
Import Str bs4 htmlparser.

Lemma tokenize_decode (l : soup) :
  Forall wf_node l →
  ∃ events, tokenize (decode l) = Ok events ∧ start_names events = names l.
Proof.
  intros Hl. rewrite decode_decode_all.
  destruct (reads_back_all l) with (chunk := EmptyString) (out := @nil event)
    (rest := EmptyString) as (chunk & out & Hf & Hn); [|done|].
  { apply Forall_forall. intros x _. apply reads_back_node. }
  rewrite app_nil_r in Hf. exists (flush chunk out).
  unfold tokenize. rewrite Hf. split; [done|]. by rewrite start_names_flush.
Qed.

(** A tree that reads back: its text parses, to a tree with the same
    tags in the same order. *)
Lemma BeautifulSoup_decode (l : soup) :
  Forall wf_node l →
  ∃ t, BeautifulSoup (decode l) = Ok t ∧ names t = names l.
Proof.
  intros (events & Htok & Hn)%tokenize_decode.
  exists (build events). unfold BeautifulSoup. rewrite Htok.
  split; [done|]. by rewrite names_build.
Qed.

Lemma BeautifulSoup_wf (markup : string) (t : soup) :
  BeautifulSoup markup = Ok t → Forall wf_node t.
Proof.
  unfold BeautifulSoup.
  destruct (tokenize markup) as [events|e] eqn:Htok; [|done].
  intros [= <-]. by apply build_wf, tokenize_parsed with markup.
Qed.

Lemma item_start_names (it : item) :
  item_ok it → Forall valid_name (start_names (item_events it)).
Proof.
  destruct it as [[n a|n a|n|d|d|d|d]|n a [s|]]; simpl; intros H;
    rewrite ?Forall_cons, ?Forall_nil; tauto.
Qed.

Lemma parsed_start_names (events : list event) :
  parsed events → Forall valid_name (start_names events).
Proof.
  intros (items & tail & -> & Hitems & Htail).
  rewrite start_names_app. apply Forall_app. split.
  - induction Hitems as [|it items Hit _ IH]; [constructor|].
    unfold flatten. cbn [flat_map]. rewrite start_names_app.
    apply Forall_app. split; [by apply item_start_names | exact IH].
  - destruct Htail as [->|(n & a & -> & Hn & _)]; [constructor|].
    simpl. by rewrite Forall_cons, Forall_nil.
Qed.

(** The tag names of a parsed document are tag names in lower case. *)
Lemma BeautifulSoup_names (markup : string) (t : soup) :
  BeautifulSoup markup = Ok t → Forall valid_name (names t).
Proof.
  unfold BeautifulSoup.
  destruct (tokenize markup) as [events|e] eqn:Htok; [|done].
  intros [= <-]. rewrite names_build.
  by apply parsed_start_names, tokenize_parsed with markup.
Qed.

End round_trip.

(** ** The tree with the style tag reads back *)

Section style_reads_back.
Import Str bs4 htmlparser.

Lemma update_forest_wf_of (name : string) (f : node → node) (l l' : soup) :
  Forall (λ x, ∀ x', wf_node x → update_tag name f x = Some x' → wf_node x') l →
  Forall wf_node l → update_forest name f l = Some l' → Forall wf_node l'.
Proof.
  intros H. revert l'. induction H as [|y l Hy _ IH]; intros l' Hwf; [done|].
  apply Forall_cons in Hwf as [Hwy Hwl]. cbn [update_forest].
  destruct (update_tag name f y) as [y'|] eqn:Hup.
  - intros [= <-]. constructor; [by apply Hy | done].
  - destruct (update_forest name f l) as [l1|]; [|done].
    intros [= <-]. constructor; [done | by apply IH].
Qed.

Lemma update_tag_wf (name : string) (f : node → node) (x x' : node) :
  (∀ a c, wf_node (Tag name a c) → wf_node (f (Tag name a c))) →
  wf_node x → update_tag name f x = Some x' → wf_node x'.
Proof.
  intros Hf. revert x'.
  induction x as [m a c IH|s|s|s|s] using node_forall_ind; intros x' Hwf;
    try done.
  rewrite update_tag_Tag. case_decide as Hm.
  - subst m. intros [= <-]. by apply Hf.
  - destruct (update_forest name f c) as [c'|] eqn:Hup; [|done].
    intros [= <-]. apply wf_node_Tag in Hwf as (Hn & Ha & Hc).
    apply wf_node_Tag. split_and!; [done..|].
    destruct (cdata_containing m).
    + destruct Hc as [->|(s & -> & _)]; by cbn in Hup.
    + by apply (update_forest_wf_of name f c c').
Qed.

Lemma update_first_wf (name : string) (f : node → node) (l : soup) :
  (∀ a c, wf_node (Tag name a c) → wf_node (f (Tag name a c))) →
  Forall wf_node l → Forall wf_node (update_first name f l).
Proof.
  intros Hf Hl. unfold update_first.
  destruct (update_forest name f l) as [l'|] eqn:Hup; [|done].
  apply (update_forest_wf_of name f l l'); [|done..].
  apply Forall_forall. intros x _ x' Hx. by apply update_tag_wf.
Qed.

Lemma no_gt_app (a b : string) : no_gt a → no_gt b → no_gt (a +:+ b).
Proof. unfold no_gt. rewrite all_chars_app. by intros -> ->. Qed.

Lemma no_gt_join (l : list string) : Forall no_gt l → no_gt (join ", " l).
Proof.
  induction 1 as [|x l Hx Hl IH]; [done|].
  destruct l as [|y l]; [done|].
  change (join ", " (x :: y :: l)) with (x +:+ ", " +:+ join ", " (y :: l)).
  by repeat apply no_gt_app.
Qed.

Lemma no_gt_css (selected_tags : list string) :
  Forall no_gt selected_tags → no_gt (css selected_tags).
Proof.
  intros H%no_gt_join. unfold css.
  by repeat (apply no_gt_app; [done|]).
Qed.

Lemma style_tag_wf (selected_tags : list string) :
  Forall valid_name selected_tags → wf_node (style_tag selected_tags).
Proof.
  intros H. unfold style_tag, set_string, new_tag. apply wf_node_Tag.
  split_and!; [by vm_compute..|].
  change (cdata_containing "style") with true. cbv iota.
  right. eexists. split_and!; [done| |done].
  apply raw_ok_no_gt, no_gt_css.
  apply (Forall_impl _ _ _ H). apply valid_name_no_gt.
Qed.

Lemma append_wf (name : string) (child : node) (a : string) (c : list node) :
  cdata_containing name = false → wf_node child →
  wf_node (Tag name a c) → wf_node (append child (Tag name a c)).
Proof.
  intros Hcd Hch (Hn & Ha & Hc)%wf_node_Tag. cbn [append].
  apply wf_node_Tag. rewrite Hcd in Hc |- *. split_and!; [done..|].
  apply Forall_app. split; [done | by constructor].
Qed.

Lemma insert0_wf (name : string) (child : node) (a : string) (c : list node) :
  cdata_containing name = false → wf_node child →
  wf_node (Tag name a c) → wf_node (insert0 child (Tag name a c)).
Proof.
  intros Hcd Hch (Hn & Ha & Hc)%wf_node_Tag. cbn [insert0].
  apply wf_node_Tag. rewrite Hcd in Hc |- *. split_and!; [done..|].
  by constructor.
Qed.

Lemma add_style_wf (selected_tags : list string) (t t' : soup) :
  Forall valid_name selected_tags → Forall wf_node t →
  add_style selected_tags t = Ok t' → Forall wf_node t'.
Proof.
  intros Hsel Ht. pose proof (style_tag_wf selected_tags Hsel) as Hst.
  unfold add_style. destruct (find "head" t).
  - intros [= <-]. apply update_first_wf; [|done].
    intros a c. by apply append_wf.
  - destruct (find "html" t); [|done].
    intros [= <-]. apply update_first_wf; [|done].
    intros a c. apply insert0_wf; [done|].
    apply (append_wf "head" _ EmptyString []); [done..|].
    apply wf_node_Tag. change (cdata_containing "head") with false.
    split_and!; [by vm_compute..|constructor].
Qed.

(** The tags of the tree with the style tag: those of the tree, a
    style tag, and a head tag. *)
Lemma add_style_names (selected_tags : list string) (t t' : soup) :
  add_style selected_tags t = Ok t' →
  (∀ x, x ∈ names t → x ∈ names t')
  ∧ "style" ∈ names t' ∧ "head" ∈ names t'.
Proof.
  unfold add_style. destruct (find "head" t) as [h|] eqn:Hhead.
  - intros [= <-].
    destruct (find_Some_update "head" (append (style_tag selected_tags)) t h Hhead)
      as [Hup _].
    destruct (updated_names _ _ _ _ Hup) as (pre & a & c & post & H1 & H2 & _).
    unfold names. rewrite H1, H2. cbn [append]. rewrite !tags_of_Tag.
    rewrite find_all_app. cbn [map]. rewrite map_app.
    split_and!.
    + intros x. rewrite !elem_of_app, !elem_of_cons, !elem_of_app. tauto.
    + change (find_all [style_tag selected_tags]) with [style_tag selected_tags].
      cbn [map tag_name style_tag set_string new_tag]. set_solver.
    + cbn [tag_name]. set_solver.
  - destruct (find "html" t) as [h|] eqn:Hhtml; [|done].
    intros [= <-].
    destruct (find_Some_update "html"
                (insert0 (Tag "head" EmptyString [style_tag selected_tags])) t h Hhtml)
      as [Hup _].
    destruct (updated_names _ _ _ _ Hup) as (pre & a & c & post & H1 & H2 & _).
    unfold names. rewrite H1, H2. cbn [insert0]. rewrite !tags_of_Tag.
    cbn [map find_all app]. rewrite !tags_of_Tag, map_app.
    change (find_all [style_tag selected_tags]) with [style_tag selected_tags].
    cbn [map tag_name style_tag set_string new_tag].
    split_and!.
    + intros x. rewrite !elem_of_app, !elem_of_cons, !elem_of_app. tauto.
    + set_solver.
    + set_solver.
Qed.

End style_reads_back.

(** ** Carriage returns *)

(** Reading in text mode leaves no carriage return in the text, and
    neither the parser nor the writer of the tree makes one. *)

Section newlines.
Import Str bs4 htmlparser.

Definition not_cr (c : ascii) : bool := negb (bool_decide (c = "013"%char)).

Definition clean (s : string) : Prop := all_chars not_cr s = true.

Lemma clean_app (a b : string) : clean (a +:+ b) ↔ clean a ∧ clean b.
Proof. unfold clean. by rewrite all_chars_app, andb_true_iff. Qed.

Lemma clean_cons (c : ascii) (s : string) :
  clean (String c s) ↔ not_cr c = true ∧ clean s.
Proof. unfold clean. simpl. by rewrite andb_true_iff. Qed.

Lemma clean_snoc (s : string) (c : ascii) :
  clean s → not_cr c = true → clean (snoc s c).
Proof. intros Hs Hc. unfold snoc. apply clean_app. split; [done|]. by apply clean_cons. Qed.

Lemma clean_char (c : ascii) : not_cr c = true → clean (String c EmptyString).
Proof. intros Hc. by apply clean_cons. Qed.

Lemma not_cr_lower (c : ascii) : not_cr (lower_char c) = not_cr c.
Proof. by destruct c as [[] [] [] [] [] [] [] []]. Qed.

Lemma clean_lower (s : string) : clean s → clean (lower s).
Proof.
  induction s as [|c s IH]; [done|]. cbn [lower].
  rewrite !clean_cons, not_cr_lower. intros [? ?]. auto.
Qed.

Lemma clean_prefix (s a r : string) : s = a +:+ r → clean s → clean a.
Proof. intros ->. by intros [? _]%clean_app. Qed.

Lemma clean_strip_suffix (p s r : string) :
  strip_suffix p s = Some r → clean s → clean r.
Proof. intros H%strip_suffix_Some. by apply clean_prefix with p. Qed.

Lemma clean_rstrip (s : string) : clean s → clean (rstrip s).
Proof. destruct (rstrip_prefix s) as [r Hr]. by apply clean_prefix with r. Qed.

Lemma clean_substring (n m : nat) (s : string) : clean s → clean (substring n m s).
Proof.
  revert n m. induction s as [|c s IH]; intros n m H.
  - by destruct n, m.
  - apply clean_cons in H as [Hc Hs].
    destruct n as [|n]; simpl; [|by apply IH].
    destruct m as [|m]; [done|]. apply clean_cons. split; [done|]. by apply IH.
Qed.

Lemma clean_unfinished_comment (body : string) :
  clean body → clean (unfinished_comment body).
Proof.
  destruct (unfinished_comment_prefix body) as [r Hr]. by apply clean_prefix with r.
Qed.

Lemma clean_comment_close (body text : string) :
  comment_close body = Some text → clean body → clean text.
Proof. intros [r Hr]%comment_close_prefix. by apply clean_prefix with r. Qed.

Lemma clean_raw_close (elem text data : string) :
  raw_close elem text = Some data → clean text → clean data.
Proof. intros [r Hr]%raw_close_prefix. by apply clean_prefix with r. Qed.

Lemma clean_universal_newlines (s : string) : clean (universal_newlines s).
Proof.
  induction s as [|c s IH]; [done|]. cbn [universal_newlines].
  case_decide as Hc.
  - destruct s as [|c' s']; [done|]. case_decide; [done|].
    by apply clean_cons.
  - apply clean_cons. split; [|done].
    unfold not_cr. by rewrite bool_decide_false.
Qed.

Lemma universal_newlines_clean (s : string) : clean s → universal_newlines s = s.
Proof.
  induction s as [|c s IH]; [done|]. intros [Hc Hs]%clean_cons.
  cbn [universal_newlines]. rewrite decide_False, IH; [done..|].
  unfold not_cr in Hc. by apply negb_true_iff, bool_decide_eq_false in Hc.
Qed.

Lemma clean_concat_all (l : list string) : Forall clean l → clean (concat_all l).
Proof.
  induction 1 as [|x l Hx _ IH]; [done|].
  unfold concat_all. cbn [foldr]. by apply clean_app.
Qed.

Lemma clean_join (l : list string) : Forall clean l → clean (join ", " l).
Proof.
  induction 1 as [|x l Hx Hl IH]; [done|].
  destruct l as [|y l]; [done|].
  change (join ", " (x :: y :: l)) with (x +:+ ", " +:+ join ", " (y :: l)).
  rewrite !clean_app. done.
Qed.

Lemma clean_css (selected_tags : list string) :
  Forall clean selected_tags → clean (css selected_tags).
Proof. intros H%clean_join. unfold css. rewrite !clean_app. by split_and!. Qed.

Lemma clean_substitute_xml (s : string) : clean s → clean (substitute_xml s).
Proof.
  induction s as [|c s IH]; [done|]. intros [Hc Hs]%clean_cons.
  cbn [substitute_xml]. apply clean_app. split; [|by apply IH].
  repeat case_decide; try done. by apply clean_char.
Qed.

(** *** The tokenizer *)

Definition event_clean (ev : event) : Prop :=
  match ev with
  | StartTag n a | StartEndTag n a => clean n ∧ clean a
  | EndTag s | Data s | CommentEv s | Decl s | Pi s => clean s
  end.

Definition mode_clean (m : mode) : Prop :=
  match m with
  | Text s | StartName s | EndName s | EndRest s | Bogus s | Bang s
  | InComment s | InPi s => clean s
  | StartAttrs n a | RawText n a => clean n ∧ clean a
  | Lt | LtSlash | Rejected => True
  end.

Definition tok_clean (l : mode * list event) : Prop :=
  mode_clean l.1 ∧ Forall event_clean l.2.

Lemma events_clean_snoc (out : list event) (ev : event) :
  Forall event_clean out → event_clean ev → Forall event_clean (out ++ [ev]).
Proof. intros. apply Forall_app. split; [done | by constructor]. Qed.

Lemma events_clean_flush (chunk : string) (out : list event) :
  Forall event_clean out → clean chunk → Forall event_clean (flush chunk out).
Proof. intros. unfold flush. case_decide; [done|]. by apply events_clean_snoc. Qed.

Lemma tok_clean_start_tag (n a : string) (out : list event) :
  clean n → clean a → Forall event_clean out → tok_clean (start_tag n a out).
Proof.
  intros Hn Ha Hout. unfold start_tag.
  pose proof (clean_lower n Hn) as Hl.
  destruct (strip_suffix "/" a) as [a'|] eqn:Hs.
  - split; [done|]. apply events_clean_snoc; [done|].
    split; [done|]. by eapply clean_strip_suffix.
  - split; [by case_match | by apply events_clean_snoc].
Qed.

Ltac cleaned :=
  cbn [fst snd mode_clean event_clean];
  repeat first
    [ done | split | apply events_clean_snoc | apply events_clean_flush
    | apply clean_snoc | apply clean_lower | apply clean_unfinished_comment ].

Lemma tok_clean_step (l : mode * list event) (c : ascii) :
  not_cr c = true → tok_clean l → tok_clean (step l c).
Proof.
  intros Hc. destruct l as [m out]. intros [Hm Hout].
  cbn [fst snd] in Hm, Hout.
  pose proof (clean_char c Hc) as Hc1.
  destruct m as [chunk| |nm|nm a| |nm|nm|b|b|b|b|n text|];
    cbn [step mode_clean] in Hm |- *.
  - case_decide; by cleaned.
  - repeat case_match; by cleaned.
  - repeat case_match; try (by apply tok_clean_start_tag); by cleaned.
  - destruct Hm as [Hn Ha].
    case_decide; [by apply tok_clean_start_tag|]. by cleaned.
  - repeat case_match; by cleaned.
  - repeat case_match; by cleaned.
  - case_decide; by cleaned.
  - case_decide; by cleaned.
  - repeat case_decide; try by cleaned.
    split; [done|]. apply events_clean_snoc; [done|].
    unfold declaration. by case_decide.
  - destruct (if decide (c = ">"%char) then comment_close b else None)
      as [text|] eqn:Hclose; [|by cleaned].
    case_decide; [|done]. split; [done|].
    apply events_clean_snoc; [done|]. by eapply clean_comment_close.
  - case_decide; by cleaned.
  - destruct Hm as [Hn Ht].
    destruct (if decide (c = ">"%char) then raw_close n text else None)
      as [data|] eqn:Hclose; [|by cleaned].
    case_decide; [|done]. split; [done|]. cbn [snd].
    apply events_clean_snoc; [|done].
    apply events_clean_flush; [done|]. by eapply clean_raw_close.
  - done.
Qed.

Lemma tok_clean_feed (markup : string) (l : mode * list event) :
  clean markup → tok_clean l → tok_clean (feed l markup).
Proof.
  revert l. induction markup as [|c markup IH]; intros l Hm Hl; [done|].
  apply clean_cons in Hm as [Hc Hm]. cbn [feed].
  by apply IH, tok_clean_step.
Qed.

Lemma tokenize_clean (markup : string) (events : list event) :
  clean markup → tokenize markup = Ok events → Forall event_clean events.
Proof.
  intros Hm. unfold tokenize.
  assert (tok_clean (feed (Text EmptyString, []) markup)) as Hinv.
  { apply tok_clean_feed; [done|]. by split. }
  destruct (feed (Text EmptyString, []) markup) as [m out].
  destruct Hinv as [Hmode Hout]. cbn [fst snd] in Hmode, Hout.
  destruct m; cbn [close mode_clean] in Hmode |- *; intros ?; simplify_eq;
    try by cleaned.
  apply events_clean_snoc; [done|]. unfold declaration. by case_decide.
Qed.

End newlines.

Section newlines_in_trees.
Import Str bs4 htmlparser.

(** *** The tree builder *)

(** The text of a list of nodes has no carriage return, whether it is
    written raw or escaped. *)
Definition clean_nodes (l : list node) : Prop :=
  ∀ raw, clean (decode_all raw l).

Definition frame_clean (f : frame) : Prop :=
  clean (f_name f) ∧ clean (f_attrs f) ∧ clean_nodes (f_contents f).

Definition builder_clean (b : builder) : Prop :=
  clean_nodes (root b)
  ∧ Forall frame_clean (tagStack b)
  ∧ Forall clean (current_data b).

Lemma decode_all_app (raw : bool) (l1 l2 : list node) :
  decode_all raw (l1 ++ l2) = decode_all raw l1 +:+ decode_all raw l2.
Proof.
  induction l1 as [|y l1 IH]; [by rewrite app_nil_l|].
  cbn [app decode_all]. by rewrite IH, app_assoc.
Qed.

Lemma clean_nodes_app (l1 l2 : list node) :
  clean_nodes l1 → clean_nodes l2 → clean_nodes (l1 ++ l2).
Proof. intros H1 H2 raw. rewrite decode_all_app. by apply clean_app. Qed.

Lemma clean_decode_Tag (raw : bool) (n a : string) (c : list node) :
  clean (decode_node raw (Tag n a c))
  ↔ clean n ∧ clean a ∧ clean (decode_all (cdata_containing n) c).
Proof.
  rewrite decode_node_Tag. destruct c as [|y c].
  - destruct (can_be_empty_element n); rewrite !clean_app; cbn [decode_all];
      split; intros; split_and!; tauto || done.
  - rewrite !clean_app. split; intros; split_and!; tauto || done.
Qed.

Lemma clean_nodes_Tag (n a : string) (c : list node) :
  clean n → clean a → clean_nodes c → clean_nodes [Tag n a c].
Proof.
  intros Hn Ha Hc raw. cbn [decode_all]. rewrite app_nil_r.
  apply clean_decode_Tag. auto.
Qed.

(** What [endData] is called with. *)
Definition container_clean (container : string → node) : Prop :=
  ∀ data, clean data → clean_nodes [container data].

Lemma text_container_clean : container_clean NavigableString.
Proof.
  intros d Hd raw. cbn [decode_all decode_node]. rewrite app_nil_r.
  destruct raw; [done | by apply clean_substitute_xml].
Qed.

Lemma comment_container_clean : container_clean Comment.
Proof.
  intros d Hd raw. cbn [decode_all decode_node]. rewrite !clean_app. by split_and!.
Qed.

Lemma doctype_container_clean : container_clean Doctype.
Proof.
  intros d Hd raw. cbn [decode_all decode_node]. rewrite !clean_app. by split_and!.
Qed.

Lemma pi_container_clean : container_clean ProcessingInstruction.
Proof.
  intros d Hd raw. cbn [decode_all decode_node]. rewrite !clean_app. by split_and!.
Qed.

Lemma add_node_clean (x : node) (b : builder) :
  clean_nodes [x] → builder_clean b → builder_clean (add_node x b).
Proof.
  intros Hx (Hr & Hs & Hd). unfold add_node, builder_clean.
  destruct (tagStack b) as [|f st]; cbn [root tagStack current_data].
  - split_and!; [|done..]. by apply clean_nodes_app.
  - apply Forall_cons in Hs as [(?&?&?) Hs]. split_and!; [done| |done].
    constructor; [|done]. split_and!; [done..|]. by apply clean_nodes_app.
Qed.

Lemma endData_clean (container : string → node) (b : builder) :
  container_clean container → builder_clean b →
  builder_clean (endData container b).
Proof.
  intros Hc Hb.
  destruct (endData_cases container b) as [[? ->]|(d & Hd & Hne & ->)]; [done|].
  destruct Hb as (Hr & Hs & Hcur).
  apply add_node_clean; [|by split_and!].
  apply Hc. destruct Hd as [->|[->| ->]]; [by apply clean_concat_all|done..].
Qed.

Lemma popTag_clean (b : builder) : builder_clean b → builder_clean (popTag b).
Proof.
  intros (Hr & Hs & Hd). unfold popTag.
  destruct (tagStack b) as [|f st] eqn:Hst; [by rewrite <- Hst in Hs|].
  apply Forall_cons in Hs as [(Hn & Ha & Hcs) Hs].
  apply add_node_clean; [|done]. by apply clean_nodes_Tag.
Qed.

Lemma pop_through_clean (name : string) (n : nat) (b : builder) :
  builder_clean b → builder_clean (pop_through name n b).
Proof.
  revert b. induction n as [|n IH]; intros b Hb; simpl; [done|].
  destruct (tagStack b) as [|f st] eqn:Hst; [done|].
  case_decide; auto using popTag_clean.
Qed.

Lemma pop_all_clean (n : nat) (b : builder) :
  builder_clean b → builder_clean (pop_all n b).
Proof. revert b. induction n as [|n IH]; intros b Hb; simpl; auto using popTag_clean. Qed.

Lemma handle_endtag_clean (name : string) (check : bool) (b : builder) :
  builder_clean b → builder_clean (handle_endtag name check b).
Proof.
  intros Hb. unfold handle_endtag, soup_endtag, popToTag. case_match; [done|].
  pose proof (endData_clean NavigableString b text_container_clean Hb).
  case_match; [|done]. by apply pop_through_clean.
Qed.

Lemma handle_starttag_clean (name attrs : string) (h : bool) (b : builder) :
  clean name → clean attrs → builder_clean b →
  builder_clean (handle_starttag name attrs h b).
Proof.
  intros Hn Ha Hb. unfold handle_starttag.
  destruct (endData_clean NavigableString b text_container_clean Hb)
    as (Hr & Hs & Hd).
  assert (builder_clean (pushTag name attrs (endData NavigableString b))) as Hp.
  { split_and!; [done| |done]. constructor; [|done]. by split_and!. }
  case_match; [|done]. by apply (handle_endtag_clean name false) in Hp.
Qed.

Lemma handle_special_clean (container : string → node) (data : string)
    (b : builder) :
  container_clean container → clean data → builder_clean b →
  builder_clean (handle_special container data b).
Proof.
  intros Hc Hd Hb. unfold handle_special. apply endData_clean; [done|].
  destruct (endData_clean NavigableString b text_container_clean Hb)
    as (Hr & Hs & Hcur).
  split_and!; [done..|]. apply Forall_app. split; [done | by constructor].
Qed.

Lemma handle_clean (b : builder) (ev : event) :
  event_clean ev → builder_clean b → builder_clean (handle b ev).
Proof.
  intros Hev Hb. destruct ev as [n a|n a|n|d|d|d|d]; cbn [handle event_clean] in *.
  - destruct Hev. by apply handle_starttag_clean.
  - destruct Hev. by apply handle_endtag_clean, handle_starttag_clean.
  - by apply handle_endtag_clean.
  - destruct Hb as (Hr & Hs & Hcur). split_and!; [done..|].
    apply Forall_app. split; [done | by constructor].
  - by apply handle_special_clean; [apply comment_container_clean|..].
  - apply handle_special_clean; [apply doctype_container_clean| |done].
    by apply clean_substring.
  - by apply handle_special_clean; [apply pi_container_clean|..].
Qed.

Lemma build_clean (events : list event) :
  Forall event_clean events → clean_nodes (build events).
Proof.
  intros Hev. unfold build, finish.
  assert (builder_clean (foldl handle reset events)) as Hb.
  { assert (builder_clean reset) as H0 by (by split_and!).
    revert H0. generalize reset.
    induction Hev as [|ev events Hev _ IH]; intros b Hb; [done|].
    cbn [foldl]. by apply IH, handle_clean. }
  apply (endData_clean NavigableString _ text_container_clean) in Hb.
  by destruct (pop_all_clean
                 (length (tagStack (endData NavigableString
                                      (foldl handle reset events)))) _ Hb)
    as (?&?&?).
Qed.

(** The tree of a text without carriage returns is written without
    any. *)
Lemma BeautifulSoup_clean (markup : string) (t : soup) :
  clean markup → BeautifulSoup markup = Ok t → clean_nodes t.
Proof.
  intros Hm. unfold BeautifulSoup.
  destruct (tokenize markup) as [events|e] eqn:Htok; [|done].
  intros [= <-]. by apply build_clean, tokenize_clean with markup.
Qed.

(** *** The style tag *)

Lemma update_forest_clean_of (name : string) (f : node → node) (l : soup) :
  Forall (λ x, ∀ raw x', clean (decode_node raw x) →
               update_tag name f x = Some x' → clean (decode_node raw x')) l →
  ∀ raw l', clean (decode_all raw l) → update_forest name f l = Some l' →
            clean (decode_all raw l').
Proof.
  induction 1 as [|y l Hy _ IH]; intros raw l'; [done|].
  cbn [decode_all update_forest]. intros [Hcy Hcl]%clean_app.
  destruct (update_tag name f y) as [y'|] eqn:Hup.
  - intros [= <-]. cbn [decode_all]. apply clean_app. split; [|done].
    by apply Hy.
  - destruct (update_forest name f l) as [l1|]; [|done].
    intros [= <-]. cbn [decode_all]. apply clean_app. split; [done|].
    by apply IH.
Qed.

Lemma update_tag_clean (name : string) (f : node → node) (x : node) :
  (∀ raw a c, clean (decode_node raw (Tag name a c)) →
              clean (decode_node raw (f (Tag name a c)))) →
  ∀ raw x', clean (decode_node raw x) → update_tag name f x = Some x' →
            clean (decode_node raw x').
Proof.
  intros Hf.
  induction x as [m a c IH|s|s|s|s] using node_forall_ind; intros raw x' Hx;
    try done.
  rewrite update_tag_Tag. case_decide as Hm.
  - subst m. intros [= <-]. by apply Hf.
  - destruct (update_forest name f c) as [c'|] eqn:Hup; [|done].
    intros [= <-]. apply clean_decode_Tag in Hx as (Hn & Ha & Hc).
    apply clean_decode_Tag. split_and!; [done..|].
    by apply (update_forest_clean_of name f c IH).
Qed.

Lemma update_first_clean (name : string) (f : node → node) (l : soup) :
  (∀ raw a c, clean (decode_node raw (Tag name a c)) →
              clean (decode_node raw (f (Tag name a c)))) →
  clean (decode l) → clean (decode (update_first name f l)).
Proof.
  intros Hf Hl. unfold update_first.
  destruct (update_forest name f l) as [l'|] eqn:Hup; [|done].
  rewrite decode_decode_all in Hl |- *.
  apply (update_forest_clean_of name f l); [|done..].
  apply Forall_forall. intros x _. by apply update_tag_clean.
Qed.

Lemma style_tag_clean (selected_tags : list string) :
  Forall clean selected_tags → clean_nodes [style_tag selected_tags].
Proof.
  intros H. apply clean_nodes_Tag; [done..|].
  by apply text_container_clean, clean_css.
Qed.

Lemma append_clean (child : node) (raw : bool) (n a : string) (c : list node) :
  clean_nodes [child] → clean (decode_node raw (Tag n a c)) →
  clean (decode_node raw (append child (Tag n a c))).
Proof.
  intros Hch (Hn & Ha & Hc)%clean_decode_Tag. cbn [append].
  apply clean_decode_Tag. split_and!; [done..|].
  rewrite decode_all_app. by apply clean_app.
Qed.

Lemma insert0_clean (child : node) (raw : bool) (n a : string) (c : list node) :
  clean_nodes [child] → clean (decode_node raw (Tag n a c)) →
  clean (decode_node raw (insert0 child (Tag n a c))).
Proof.
  intros Hch (Hn & Ha & Hc)%clean_decode_Tag. cbn [insert0].
  apply clean_decode_Tag. split_and!; [done..|].
  change (child :: c) with ([child] ++ c).
  rewrite decode_all_app. by apply clean_app.
Qed.

Lemma add_style_clean (selected_tags : list string) (t t' : soup) :
  Forall clean selected_tags → clean (decode t) →
  add_style selected_tags t = Ok t' → clean (decode t').
Proof.
  intros Hsel Ht. pose proof (style_tag_clean selected_tags Hsel) as Hst.
  unfold add_style. destruct (find "head" t).
  - intros [= <-]. apply update_first_clean; [|done].
    intros raw a c. by apply append_clean.
  - destruct (find "html" t); [|done].
    intros [= <-]. apply update_first_clean; [|done].
    intros raw a c. apply insert0_clean.
    by apply clean_nodes_Tag.
Qed.

(** The names of the tags are in the text. *)
Lemma clean_names_of (l : soup) :
  Forall (λ x, ∀ raw, clean (decode_node raw x) →
               Forall clean (map tag_name (tags_of x))) l →
  ∀ raw, clean (decode_all raw l) → Forall clean (names l).
Proof.
  induction 1 as [|y l Hy _ IH]; intros raw; [constructor|].
  cbn [decode_all]. intros [Hcy Hcl]%clean_app.
  change (y :: l) with ([y] ++ l). rewrite names_app, names_singleton.
  apply Forall_app. eauto.
Qed.

Lemma clean_names_node (x : node) (raw : bool) :
  clean (decode_node raw x) → Forall clean (map tag_name (tags_of x)).
Proof.
  revert raw.
  induction x as [m a c IH|s|s|s|s] using node_forall_ind; intros raw Hx;
    try constructor.
  - by apply clean_decode_Tag in Hx as (Hn & _).
  - apply clean_decode_Tag in Hx as (_ & _ & Hc).
    by apply (clean_names_of c IH (cdata_containing m)).
Qed.

Lemma clean_names (l : soup) : clean (decode l) → Forall clean (names l).
Proof.
  rewrite decode_decode_all. apply clean_names_of.
  apply Forall_forall. intros x _ raw. apply clean_names_node.
Qed.

End newlines_in_trees.

(** ** The tag list *)

Section extraction.
Import Str bs4.






Variable E : env.
Variable BeautifulSoup : string → result soup.


End extraction.

(** ** The tag list of a document *)

Section tag_list.
Import Str bs4.
Variable E : env.
Variable BeautifulSoup : string → result soup.


End tag_list.


(** ** Augmenting a document and listing its tags again *)

(** C9 fails on a document without a head tag and without an html
    tag: [modify_html] sets out to make a head tag for the style tag
    and calls [insert] on [soup.html], which is [None]; the attribute
    error is caught and logged, the document is not changed, and its
    tag list has no style tag. *)
Lemma augmenting_a_fragment_adds_no_style :
  let s := Examples.chosen "/site/index.html" [0] (Examples.site Examples.fragment) in
  let s1 := (modify_html Examples.calm htmlparser.BeautifulSoup s).2 in
  let s2 := (load_html_tags Examples.calm htmlparser.BeautifulSoup s1).2 in
  htmlparser.BeautifulSoup Examples.fragment
  = Ok [Tag "p" EmptyString [NavigableString "hola"]]
  ∧ selected_items (self s) = ["p"]
  ∧ last (console (self s1))
    = Some "❌ Error al modificar archivo: 'NoneType' object has no attribute 'insert'"
  ∧ files (os s1) !! "/site/index.html" = Some Examples.fragment
  ∧ map fst (tags_list (self s2)) = ["p"]
  ∧ "style" ∉ map fst (tags_list (self s2)).
Proof.
  intros s s1 s2. split_and!; [by vm_compute..|].
  apply (bool_decide_unpack _). by vm_compute.
Qed.

(** * The window as a whole *)

(** ** What a method keeps *)

(** A relation between the state before and the state after that holds
    across every step of a method holds across the method. *)
Section kept_relations.
Variable R : state → state → Prop.
Hypothesis R_refl : ∀ s, R s s.
Hypothesis R_trans : ∀ s1 s2 s3, R s1 s2 → R s2 s3 → R s1 s3.

Definition keeps {A} (m : M A) : Prop := ∀ s, R s (m s).2.

Lemma keeps_ret {A} (a : A) : keeps (mret a).
Proof. intros s. apply R_refl. Qed.

Lemma keeps_raise {A} (e : exn) : keeps (@raise A e).
Proof. intros s. apply R_refl. Qed.

Lemma keeps_get_self : keeps get_self.
Proof. intros s. apply R_refl. Qed.

Lemma keeps_get_os : keeps get_os.
Proof. intros s. apply R_refl. Qed.

Lemma keeps_bind {A B} (m : M A) (f : A → M B) :
  keeps m → (∀ a, keeps (f a)) → keeps (a ← m; f a).
Proof.
  intros Hm Hf s. unfold mbind, M_bind. specialize (Hm s).
  destruct (m s) as [[a|e] s']; [|done].
  by apply R_trans with s', Hf.
Qed.

Lemma keeps_try_except {A} (body : M A) (handler : exn → M A) :
  keeps body → (∀ e, keeps (handler e)) → keeps (try_except body handler).
Proof.
  intros Hm Hf s. unfold try_except. specialize (Hm s).
  destruct (body s) as [[a|e] s']; [done|].
  by apply R_trans with s', Hf.
Qed.

End kept_relations.

(** ** No exception leaves a method *)

Section returning.

Definition returns {A} (m : M A) : Prop := ∀ s, ∃ a, (m s).1 = Ok a.

Lemma returns_try_except {A} (body : M A) (handler : exn → M A) :
  (∀ e, returns (handler e)) → returns (try_except body handler).
Proof.
  intros Hh s. unfold try_except.
  destruct (body s) as [[a|e] s']; [by exists a | apply Hh].
Qed.

Lemma returns_bind {A B} (m : M A) (f : A → M B) :
  returns m → (∀ a, returns (f a)) → returns (a ← m; f a).
Proof.
  intros Hm Hf s. unfold mbind, M_bind. destruct (Hm s) as [a Ha].
  destruct (m s) as [[a'|e] s']; [apply Hf | done].
Qed.

Lemma returns_ret {A} (a : A) : returns (mret a).
Proof. intros s. by exists a. Qed.

Lemma returns_modify_self (f : App → App) : returns (modify_self f).
Proof. intros s. by exists (). Qed.

Lemma returns_modify_os (f : world → world) : returns (modify_os f).
Proof. intros s. by exists (). Qed.

Lemma returns_log_message (message : string) : returns (log_message message).
Proof. apply returns_modify_self. Qed.

Lemma returns_get_self : returns get_self.
Proof. intros s. by eexists. Qed.

Lemma returns_get_os : returns get_os.
Proof. intros s. by eexists. Qed.

End returning.

Ltac returns_step :=
  first
    [ apply returns_ret | apply returns_log_message | apply returns_modify_self
    | apply returns_modify_os | apply returns_get_self | apply returns_get_os
    | apply returns_try_except; intros ?
    | apply returns_bind; [|intros ?]
    | progress cbv zeta
    | case_decide | case_match ].

Section methods_return.
Variable E : env.
Variable BeautifulSoup : string → result soup.

Lemma select_svg_folder_returns (folder : string) : returns (select_svg_folder E folder).
Proof. unfold select_svg_folder. repeat returns_step. Qed.

Lemma load_html_tags_returns : returns (load_html_tags E BeautifulSoup).
Proof. unfold load_html_tags. repeat returns_step. Qed.

Lemma select_html_file_returns (file : string) :
  returns (select_html_file E BeautifulSoup file).
Proof. unfold select_html_file. repeat returns_step. Qed.

Lemma generate_font_returns (output_file : string) :
  returns (generate_font E output_file).
Proof. unfold generate_font. repeat returns_step. Qed.

Lemma modify_html_returns : returns (modify_html E BeautifulSoup).
Proof. unfold modify_html. repeat returns_step. Qed.

Lemma closeEvent_returns (resists reached : string → bool) :
  returns (closeEvent resists reached).
Proof. unfold closeEvent. repeat returns_step. Qed.

(** Whatever the files, the parser, the compiler and the file system
    do, no exception leaves a slot of the window: each one returns. *)
Theorem no_exception_leaves_a_slot (a : action) (s : state) :
  (perform BeautifulSoup E a s).1 = Ok ().
Proof.
  assert (returns (perform BeautifulSoup E a)) as H.
  { destruct a; simpl.
    - apply select_svg_folder_returns.
    - apply select_html_file_returns.
    - unfold toggle_item. apply returns_modify_self.
    - apply generate_font_returns.
    - apply modify_html_returns.
    - apply closeEvent_returns.
    - apply returns_modify_os. }
  destruct (H s) as [[] Hs]. exact Hs.
Qed.

End methods_return.

(** ** The message panel and the fields of the window *)

Section fields.
Variable E : env.
Variable BeautifulSoup : string → result soup.

(** The window is as it was but for messages added to the panel. *)
Definition only_console (s s' : state) : Prop :=
  ∃ messages,
    self s' = set_console (console (self s) ++ messages) (self s).

Lemma only_console_refl (s : state) : only_console s s.
Proof. exists []. rewrite (right_id_L [] (++)). by destruct (self s). Qed.

Lemma only_console_trans (s1 s2 s3 : state) :
  only_console s1 s2 → only_console s2 s3 → only_console s1 s3.
Proof.
  intros [m1 H1] [m2 H2]. exists (m1 ++ m2).
  rewrite H2, H1. simpl. by rewrite (assoc_L (++)).
Qed.

Lemma only_console_log (message : string) :
  keeps only_console (log_message message).
Proof. intros s. by exists [message]. Qed.

Lemma only_console_os (f : world → world) : keeps only_console (modify_os f).
Proof.
  intros s. exists []. simpl. rewrite (right_id_L [] (++)). by destruct (self s).
Qed.

Ltac only_console_step :=
  first
    [ apply only_console_log | apply only_console_os
    | apply (keeps_ret _ only_console_refl)
    | apply (keeps_raise _ only_console_refl)
    | apply (keeps_get_self _ only_console_refl)
    | apply (keeps_get_os _ only_console_refl)
    | apply (keeps_bind _ only_console_trans); [|intros ?]
    | apply (keeps_try_except _ only_console_trans); [|intros ?]
    | progress cbv zeta
    | case_decide | case_match ].

Lemma read_text_only_console (path : string) :
  keeps only_console (read_text E path).
Proof. unfold read_text, guard_fault. repeat only_console_step. Qed.

Lemma open_w_only_console (path : string) : keeps only_console (open_w E path).
Proof. unfold open_w, guard_fault. repeat only_console_step. Qed.

Lemma write_only_console (path data : string) :
  keeps only_console (write E path data).
Proof. unfold write. repeat only_console_step. Qed.

Lemma makedirs_only_console (path : string) :
  keeps only_console (makedirs E path).
Proof. unfold makedirs, guard_fault. repeat only_console_step. Qed.

Lemma copy2_only_console (src dst : string) :
  keeps only_console (copy2 E src dst).
Proof. unfold copy2, guard_fault. repeat only_console_step. Qed.

Lemma subprocess_run_only_console (program : option string) (args : list string) :
  keeps only_console (subprocess_run E program args).
Proof. unfold subprocess_run, guard_fault. repeat only_console_step. Qed.

Lemma rmtree_only_console (resists reached : string → bool) (path : string) :
  keeps only_console (rmtree resists reached path).
Proof. unfold rmtree. repeat only_console_step. Qed.

Ltac only_console_method :=
  repeat first
    [ apply read_text_only_console | apply open_w_only_console
    | apply write_only_console | apply makedirs_only_console
    | apply copy2_only_console | apply subprocess_run_only_console
    | apply rmtree_only_console
    | only_console_step ].

Lemma generate_font_only_console (output_file : string) :
  keeps only_console (generate_font E output_file).
Proof. unfold generate_font. only_console_method. Qed.

Lemma modify_html_try_only_console (app : App) (selected_tags : list string) :
  keeps only_console (modify_html_try E BeautifulSoup app selected_tags).
Proof. unfold modify_html_try, parse. only_console_method. Qed.

Lemma modify_html_only_console : keeps only_console (modify_html E BeautifulSoup).
Proof.
  unfold modify_html.
  repeat first [apply modify_html_try_only_console | only_console_step].
Qed.

Lemma closeEvent_only_console (resists reached : string → bool) :
  keeps only_console (closeEvent resists reached).
Proof. unfold closeEvent. only_console_method. Qed.

(** [generate_font], [modify_html] and [closeEvent] change nothing of
    the window but the message panel, to which they only add: the
    folder, the document, the tag list with its selection and the two
    buttons are as before, whatever happens outside. *)
Theorem slots_only_add_messages (output_file : string)
    (resists reached : string → bool) (s : state) :
  only_console s (generate_font E output_file s).2
  ∧ only_console s (modify_html E BeautifulSoup s).2
  ∧ only_console s (closeEvent resists reached s).2.
Proof.
  split_and!.
  - apply generate_font_only_console.
  - apply modify_html_only_console.
  - apply closeEvent_only_console.
Qed.

(** *** The panel only grows *)

Definition console_grows (s s' : state) : Prop :=
  console (self s) `prefix_of` console (self s').

Lemma console_grows_refl (s : state) : console_grows s s.
Proof. by unfold console_grows. Qed.

Lemma console_grows_trans (s1 s2 s3 : state) :
  console_grows s1 s2 → console_grows s2 s3 → console_grows s1 s3.
Proof. unfold console_grows. by etrans. Qed.

Lemma only_console_grows (s s' : state) : only_console s s' → console_grows s s'.
Proof.
  intros [m H]. unfold console_grows. rewrite H. simpl. by apply prefix_app_r.
Qed.

Lemma console_grows_self (f : App → App) :
  (∀ a, console a `prefix_of` console (f a)) → keeps console_grows (modify_self f).
Proof. intros H s. apply H. Qed.

Lemma console_grows_os (f : world → world) : keeps console_grows (modify_os f).
Proof. intros s. unfold console_grows. reflexivity. Qed.

Ltac console_grows_step :=
  first
    [ apply console_grows_os
    | apply console_grows_self; intros ?; simpl; first [done | by apply prefix_app_r]
    | apply (keeps_ret _ console_grows_refl)
    | apply (keeps_raise _ console_grows_refl)
    | apply (keeps_get_self _ console_grows_refl)
    | apply (keeps_get_os _ console_grows_refl)
    | apply (keeps_bind _ console_grows_trans); [|intros ?]
    | apply (keeps_try_except _ console_grows_trans); [|intros ?]
    | progress cbv zeta
    | case_decide | case_match ].

Lemma select_svg_folder_grows (folder : string) :
  keeps console_grows (select_svg_folder E folder).
Proof. unfold select_svg_folder, log_message. repeat console_grows_step. Qed.

Lemma select_html_file_grows (file : string) :
  keeps console_grows (select_html_file E BeautifulSoup file).
Proof.
  unfold select_html_file, load_html_tags, parse, read_text, guard_fault,
    log_message.
  repeat console_grows_step.
Qed.

(** No slot of the window clears the message panel or takes a line
    back: what the panel shows before an action is the beginning of
    what it shows after. *)
Theorem message_panel_only_grows (a : action) (s : state) :
  console (self s) `prefix_of` console (self (perform BeautifulSoup E a s).2).
Proof.
  destruct a; cbn [perform].
  - apply select_svg_folder_grows.
  - apply select_html_file_grows.
  - unfold toggle_item. apply console_grows_self. by intros ?.
  - apply only_console_grows, generate_font_only_console.
  - apply only_console_grows, modify_html_only_console.
  - apply only_console_grows, closeEvent_only_console.
  - apply console_grows_os.
Qed.

End fields.

(** ** What is true of the window all along *)

Section window_invariant.
Variable E : env.
Variable BeautifulSoup : string → result soup.

(** The buttons agree with the fields: the generate button is on only
    with a compiler and a glyph folder, the apply button only with a
    document. *)
Definition consistent (a : App) : Prop :=
  (generate_btn a = true →
   is_Some (fontforge_path a) ∧ svg_folder a ≠ EmptyString)
  ∧ (modify_btn a = true → html_file a ≠ EmptyString).

Definition settled (tmp : string) (w : world) (a : App) : Prop :=
  temp_dir a = tmp ∧ fontforge_path a = find_fontforge w ∧ consistent a.

Lemma settled_only_console (tmp : string) (w : world) (s s' : state) :
  only_console s s' → settled tmp w (self s) → settled tmp w (self s').
Proof. intros [m ->]. by destruct (self s). Qed.

Lemma settled_select_svg_folder (tmp : string) (w : world) (folder : string)
    (s : state) :
  settled tmp w (self s) →
  settled tmp w (self (select_svg_folder E folder s).2).
Proof.
  intros (Ht & Hf & Hg & Hm). run.
  case_decide; [by split_and!|].
  destruct (glob_svg E (os s) folder); simpl.
  - unfold settled, consistent. simpl. by split_and!.
  - unfold settled, consistent. simpl. split_and!; try done.
    by intros Hb%bool_decide_eq_true.
Qed.

Lemma settled_select_html_file (tmp : string) (w : world) (file : string)
    (s : state) :
  settled tmp w (self s) →
  settled tmp w (self (select_html_file E BeautifulSoup file s).2).
Proof.
  intros (Ht & Hf & Hg & Hm). run. run.
  case_decide; [by split_and!|].
  repeat case_match; simplify_eq/=; unfold settled, consistent; simpl;
    by split_and!.
Qed.

Lemma settled_perform (tmp : string) (w : world) (a : action) (s : state) :
  settled tmp w (self s) →
  settled tmp w (self (perform BeautifulSoup E a s).2).
Proof.
  destruct a; cbn [perform].
  - apply settled_select_svg_folder.
  - apply settled_select_html_file.
  - by intros (?&?&?&?).
  - apply settled_only_console, generate_font_only_console.
  - apply settled_only_console, modify_html_only_console.
  - apply settled_only_console, closeEvent_only_console.
  - done.
Qed.

End window_invariant.

Section window_invariant_of_a_session.
Variable BeautifulSoup : string → result soup.

(** After any sequence of actions from start-up, whatever happens
    outside: the temporary directory and the compiler path are those
    of start-up (FontForge is looked for once), the generate button is
    on only if a compiler was found and a glyph folder adopted, and
    the apply button only if a document was chosen. *)
Theorem window_stays_consistent (tmp : string) (w : world)
    (actions : list (env * action)) :
  let a := self (session BeautifulSoup actions (start tmp w)) in
  temp_dir a = tmp
  ∧ fontforge_path a = find_fontforge w
  ∧ (generate_btn a = true →
     is_Some (find_fontforge w) ∧ svg_folder a ≠ EmptyString)
  ∧ (modify_btn a = true → html_file a ≠ EmptyString).
Proof.
  assert (settled tmp w (self (start tmp w))) as H0.
  { by split_and!. }
  revert H0. generalize (start tmp w). unfold session.
  induction actions as [|[E a] actions IH]; intros s Hs.
  - destruct Hs as (Ht & Hf & Hg & Hm). simpl. rewrite <- Hf. done.
  - cbn [foldl]. by apply IH, settled_perform.
Qed.

End window_invariant_of_a_session.

(** ** Generating the font *)

Section font.
Import Str Script.
Variable E : env.

(** Where [generate_font] writes the script. *)
Definition script_path_of (a : App) : string :=
  posixpath.join (temp_dir a) "generate_font.pe".








End font.

(** Looking a path up in a map into which files have been written. *)
Ltac lookups :=
  repeat first [rewrite lookup_insert_eq | rewrite lookup_insert_ne by done];
  done.

Section font_generation.
Import Str Script.
Variable E : env.


(** Whatever the environment does: what [generate_font] itself does
    outside the window is, in this order and as far as it gets,
    emptying the script file in the temporary directory, writing the
    script, and starting the compiler.  It starts the compiler at most
    once, and only after the script has been written out in full; as
    long as no compiler is started, no file but the script is changed
    and no directory is made. *)
Theorem generate_font_writes_only_the_script (output_file : string) (s : state) :
  let sp := script_path_of (self s) in
  let script := generate_fontforge_script output_file in
  let s' := (generate_font E output_file s).2 in
  ∃ l, journal (os s') = journal (os s) ++ l
       ∧ (l = [] ∨ l = [EvTruncate sp]
          ∨ l = [EvTruncate sp; EvWrite sp script]
          ∨ ∃ argv, l = [EvTruncate sp; EvWrite sp script; EvSpawn argv])
       ∧ ((∀ argv, EvSpawn argv ∉ l) →
          (∀ p, p ≠ sp → files (os s') !! p = files (os s) !! p)
          ∧ dirs (os s') = dirs (os s)).
Proof.
  intros sp script s'. subst sp script s'. unfold script_path_of. run.
  repeat (case_match; simplify_eq/=).
  all: rewrite <- ?(assoc_L (++)).
  all: first
    [ exists []; rewrite (right_id_L [] (++));
      split; [done|]; split; [by auto|]; intros _; split; [by intros|done]
    | eexists; split; [reflexivity|]; split; [by eauto 6|];
      intros Hno;
      first [ by (split; [intros p Hp; lookups | done])
            | exfalso; eapply Hno;
              rewrite !elem_of_app, !list_elem_of_singleton; by auto ] ].
Qed.

(** Without a compiler path (FontForge was not found at start-up),
    [generate_font] still writes the script, starts nothing, and
    reports the type error of the missing program name. *)
Theorem generate_font_without_compiler (output_file : string) (s : state) :
  let sp := script_path_of (self s) in
  svg_folder (self s) ≠ EmptyString → output_file ≠ EmptyString →
  fontforge_path (self s) = None →
  fault E OpOpen sp = None → fault E OpWrite sp = None →
  ∃ s',
    generate_font E output_file s = (Ok (), s')
    ∧ files (os s') = <[sp := generate_fontforge_script output_file]> (files (os s))
    ∧ journal (os s')
      = journal (os s)
        ++ [EvTruncate sp; EvWrite sp (generate_fontforge_script output_file)]
    ∧ console (self s')
      = console (self s)
        ++ [ "⏳ Generando fuente..."
           ; "❌ Error crítico: expected str, bytes or os.PathLike object, not NoneType" ].
Proof.
  intros sp Hfolder Hout Hff Hopen Hwrite. subst sp. unfold script_path_of in *.
  run. rewrite !decide_False by done. cbn [self os].
  rewrite Hopen. cbn beta iota. cbn [self os]. rewrite Hwrite. cbn beta iota.
  cbn [self os]. rewrite Hff. cbn beta iota.
  eexists. split; [reflexivity|]. cbn.
  rewrite insert_insert_eq, <- !(assoc_L (++)). done.
Qed.

End font_generation.

(** ** Start-up, choosing a document, closing *)

Section startup.

Lemma first_match {A} (P : A → bool) (l : list A) :
  match head (filter (λ x, P x) l) with
  | Some x =>
      ∃ before after,
        l = before ++ x :: after ∧ P x = true
        ∧ Forall (λ y, P y = false) before
  | None => Forall (λ y, P y = false) l
  end.
Proof.
  induction l as [|y l IH]; [by constructor|].
  destruct (decide (P y)) as [Hy|Hy].
  - rewrite filter_cons_True by done. simpl.
    exists [], l. split_and!; [done| |done]. by apply Is_true_true.
  - rewrite filter_cons_False by done. apply Is_true_false in Hy.
    destruct (head (filter (λ x, P x) l)) as [x|].
    + destruct IH as (before & after & -> & Hx & Hb).
      exists (y :: before), after. split_and!; [done..|]. by constructor.
    + by constructor.
Qed.

(** [find_fontforge] answers with the first of its four candidates
    that exists, as a file or as a directory (nothing checks that it
    can be run), and with [None] exactly when none of them exists. *)
Theorem find_fontforge_first_existing (w : world) :
  match find_fontforge w with
  | Some path =>
      ∃ before after,
        possible_paths = before ++ path :: after
        ∧ exists_path w path = true
        ∧ Forall (λ p, exists_path w p = false) before
  | None => Forall (λ p, exists_path w p = false) possible_paths
  end.
Proof. apply (first_match (exists_path w)). Qed.

End startup.

Section choosing_a_document.
Import Str.
Variable E : env.
Variable BeautifulSoup : string → result soup.

(** What reading and parsing the document comes to. *)
Definition read_document (w : world) (path : string) : result soup :=
  match fault E OpRead path with
  | Some e => Raise e
  | None =>
      match files w !! path with
      | None => Raise (FileNotFoundError path)
      | Some bytes => BeautifulSoup (universal_newlines bytes)
      end
  end.

Lemma load_html_tags_cases (s : state) :
  load_html_tags E BeautifulSoup s
  = (Ok (),
     {| self :=
          match read_document (os s) (html_file (self s)) with
          | Ok t =>
              set_console
                (console (self s)
                 ++ ["🏷️ Etiquetas encontradas: " +:+ pretty (size (tag_set t))])
                (set_modify_btn true
                   (set_tags_list (map (λ tag, (tag, false)) (tag_items t))
                      (self s)))
          | Raise e =>
              set_modify_btn false
                (set_console
                   (console (self s)
                    ++ ["❌ Error al cargar archivo: " +:+ str_exn e])
                   (set_tags_list [] (self s)))
          end;
        os := os s |}).
Proof.
  unfold read_document. run. cbn [self os html_file set_tags_list].
  destruct (fault E OpRead (html_file (self s))); [done|]. cbn beta iota.
  cbn [self os]. destruct (files (os s) !! html_file (self s)); [|done].
  cbn beta iota. by destruct (BeautifulSoup _).
Qed.

(** Choosing a document: the window takes the file in any case; the
    tag list is filled anew, with no row selected, or left empty when
    the file cannot be read or parsed, and the apply button is on
    exactly when it could; no file is touched.  A click on the apply
    button right after therefore only asks for a tag to be
    selected. *)
Theorem select_html_file_loads_the_tags (file : string) (s : state) :
  file ≠ EmptyString →
  let s' := (select_html_file E BeautifulSoup file s).2 in
  html_file (self s') = file
  ∧ file_path_edit (self s') = file
  ∧ os s' = os s
  ∧ selected_items (self s') = []
  ∧ match read_document (os s) file with
    | Ok t =>
        modify_btn (self s') = true
        ∧ tags_list (self s') = map (λ tag, (tag, false)) (tag_items t)
    | Raise e =>
        modify_btn (self s') = false
        ∧ tags_list (self s') = []
        ∧ console (self s')
          = console (self s)
            ++ [ "❌ Error al cargar archivo: " +:+ str_exn e
               ; "📄 Archivo seleccionado: " +:+ file ]
    end
  ∧ modify_html E BeautifulSoup s'
    = (Ok (),
       {| self := set_console
                    (console (self s') ++ ["❌ Selecciona al menos una etiqueta"])
                    (self s');
          os := os s' |}).
Proof.
  intros Hfile s'.
  assert (s' = {| self :=
                    set_console
                      (console (self (load_html_tags E BeautifulSoup
                         {| self := set_file_path_edit file
                                      (set_html_file file (self s));
                            os := os s |}).2)
                       ++ ["📄 Archivo seleccionado: " +:+ file])
                      (self (load_html_tags E BeautifulSoup
                         {| self := set_file_path_edit file
                                      (set_html_file file (self s));
                            os := os s |}).2);
                  os := os s |}) as ->.
  { subst s'. unfold select_html_file. rewrite decide_False by done.
    unfold mbind, M_bind, modify_self, log_message. cbn beta iota.
    cbn [self os]. by rewrite !load_html_tags_cases. }
  rewrite load_html_tags_cases. cbn [self os snd html_file set_file_path_edit
    set_html_file].
  assert (∀ l : list string,
            map fst (filter (λ it : string * bool, it.2 = true)
                       (map (λ tag, (tag, false)) l)) = []) as Hnone.
  { induction l as [|x l IH]; [done|]. simpl.
    by rewrite filter_cons_False. }
  destruct (read_document (os s) file) as [t|e]; cbn;
    (split_and!; try done; try apply Hnone;
     try (by rewrite <- (assoc_L (++)))).
  all: run; cbn; rewrite decide_False by done.
  all: unfold selected_items; cbn; by rewrite ?Hnone.
Qed.

End choosing_a_document.

(** ** Closing the window *)

Section closing_the_window.
Import Str.

Lemma script_inside (a : App) :
  temp_dir a ≠ EmptyString → inside (temp_dir a) (script_path_of a) = true.
Proof.
  intros Ht. unfold inside, script_path_of. apply orb_true_iff. right.
  unfold posixpath.join. change (startswith "/" "generate_font.pe") with false.
  change (startswith "/" EmptyString) with false. cbv iota.
  rewrite !decide_False by done.
  destruct (endswith "/" (temp_dir a)).
  - rewrite app_nil_r. apply startswith_app.
  - rewrite app_nil_r, <- app_assoc. apply startswith_app.
Qed.

Lemma kept_lookup (keep : string → bool) (m : gmap string string) (p : string) :
  filter (λ kv : string * string, keep kv.1 = false) m !! p
  = if keep p then None else m !! p.
Proof.
  destruct (keep p) eqn:Hk.
  - apply map_lookup_filter_None. right. intros x _. simpl. by rewrite Hk.
  - destruct (m !! p) as [x|] eqn:Hx.
    + by apply map_lookup_filter_Some.
    + apply map_lookup_filter_None. by left.
Qed.

Lemma nothing_stays (resists reached : string → bool) (w : world)
    (dir path : string) :
  (∀ p, resists p = false) → stays resists reached w dir path = false.
Proof.
  intros Hres. unfold stays, left, refused.
  assert (∀ l, existsb (λ q, inside dir q && resists q) l = false) as ->.
  { induction l as [|q l IH]; [done|]. simpl. by rewrite Hres, andb_false_r. }
  induction (entries w) as [|q l IH]; [done|].
  simpl. by rewrite Hres, andb_false_r.
Qed.

(** [closeEvent] never fails and changes nothing of the window.  It
    creates and rewrites no file: every entry is as before or gone,
    and what is gone was the temporary directory or under it.  When
    the directory is there and nothing resists, nothing of it is left,
    the script of [generate_font] included. *)
Theorem closeEvent_clears_the_temporary_directory
    (resists reached : string → bool) (s : state) :
  let tmp := temp_dir (self s) in
  let s' := (closeEvent resists reached s).2 in
  (closeEvent resists reached s).1 = Ok ()
  ∧ self s' = self s
  ∧ journal (os s') = journal (os s)
  ∧ (∀ p, inside tmp p = false →
          files (os s') !! p = files (os s) !! p
          ∧ (p ∈ dirs (os s') ↔ p ∈ dirs (os s)))
  ∧ (∀ p, (files (os s') !! p = None ∨ files (os s') !! p = files (os s) !! p)
          ∧ (p ∈ dirs (os s') → p ∈ dirs (os s)))
  ∧ (tmp ≠ EmptyString → tmp ∈ dirs (os s) → files (os s) !! tmp = None →
     (∀ p, resists p = false) →
     (∀ p, inside tmp p = true → files (os s') !! p = None ∧ p ∉ dirs (os s'))
     ∧ files (os s') !! script_path_of (self s) = None).
Proof.
  intros tmp s'. subst tmp s'. unfold closeEvent, rmtree. run.
  cbn [self os].
  destruct (decide (is_Some (files (os s) !! temp_dir (self s)))) as [Hfile|Hfile].
  { cbn. split_and!; try done; [by auto..|].
    intros _ _ Hnone. rewrite Hnone in Hfile. by destruct Hfile. }
  destruct (decide (temp_dir (self s) = EmptyString
                    ∨ temp_dir (self s) ∉ dirs (os s))) as [Hgone|Hthere].
  { cbn. split_and!; try done; [by auto..|].
    intros ? ? _. destruct Hgone; done. }
  cbn beta iota. cbn [self os].
  assert (∀ p, inside (temp_dir (self s)) p = false →
            removed resists reached (os s) (temp_dir (self s)) p = false) as Hout.
  { intros p Hp. unfold removed. by rewrite Hp. }
  destruct (refused _ _ _); cbn; rewrite ?kept_lookup.
  all: split_and!; try done.
  all: try (intros p Hp; rewrite kept_lookup, elem_of_filter, (Hout p Hp); tauto).
  all: try (intros p; rewrite kept_lookup, elem_of_filter;
            destruct (removed resists reached _ _ p); tauto).
  all: intros Ht Hd Hf Hres.
  all: assert (∀ p, inside (temp_dir (self s)) p = true →
                 removed resists reached (os s) (temp_dir (self s)) p = true) as Hin
         by (intros p Hp; unfold removed;
             by rewrite Hp, (nothing_stays _ _ _ _ _ Hres)).
  all: split; [intros p Hp; rewrite kept_lookup, elem_of_filter, (Hin p Hp);
               split; [done | by intros [? _]]|].
  all: by rewrite (Hin _ (script_inside _ Ht)).
Qed.

End closing_the_window.

(** ** What the augmentation leaves alone *)

Section augmentation_frame.
Import Str.
Variable E : env.
Variable BeautifulSoup : string → result soup.

(** Whatever the environment does and however the call ends:
    [modify_html] writes no file but the document and its backup,
    makes no directory but the backups directory beside the document,
    and starts no program. *)
Theorem modify_html_touches_only_document_and_backup (s : state) :
  let f := html_file (self s) in
  let b := backup_target (os s) f in
  let s' := (modify_html E BeautifulSoup s).2 in
  (∀ p, p ≠ f → p ≠ b → files (os s') !! p = files (os s) !! p)
  ∧ (dirs (os s') = dirs (os s)
     ∨ dirs (os s') = {[backup_dir_of f]} ∪ dirs (os s))
  ∧ (∀ argv, EvSpawn argv ∈ journal (os s') → EvSpawn argv ∈ journal (os s)).
Proof.
  intros f b s'. subst f b s'.
  destruct (modify_html E BeautifulSoup s) as [r s'] eqn:Hrun. cbn [snd].
  revert Hrun. run. intros Hrun.
  repeat (case_match; simplify_eq/=).
  all: repeat match goal with H : decide _ = _ |- _ => clear H end.
  all: rewrite ?(backup_target_makedirs BeautifulSoup), ?backup_target_unfold in *.
  all: split; [intros p Hp Hb; lookups|].
  all: split; [by auto|].
  all: intros argv; rewrite ?elem_of_app, ?elem_of_cons, ?elem_of_nil.
  all: intros Hin;
    repeat match type of Hin with _ ∨ _ => destruct Hin as [Hin|Hin] end;
    done.
Qed.

End augmentation_frame.

(** ** The document after the augmentation, tag by tag *)

Section tags_after_augmentation.
Import Str bs4.
Variable BeautifulSoup : string → result soup.

(** The names of the tags before and after the first tag [name] has
    been replaced: those before it, its own, those of its content,
    those after it. *)
Lemma updated_shape (name : string) (f : node → node) (tags tags' : list node) :
  updated name f tags tags' →
  ∃ pre a c post,
    first_named name tags = Some (Tag name a c)
    ∧ map tag_name tags = pre ++ name :: names c ++ post
    ∧ map tag_name tags'
      = pre ++ map tag_name (tags_of (f (Tag name a c))) ++ post
    ∧ name ∉ pre.
Proof.
  intros (pre & pre' & h & post & -> & -> & Hsame & Hpre & a & c & ->).
  exists (map tag_name pre), a, c, (map tag_name post).
  rewrite !map_app. split_and!.
  - by rewrite first_named_skip, first_named_here.
  - by rewrite tags_of_Tag.
  - f_equal. clear Hpre. induction Hsame as [|x y ?? Hxy _ IH]; [done|].
    simpl. by rewrite IH, Hxy.
  - intros (x & Hx & Hin)%list_elem_of_fmap.
    by apply (proj1 (Forall_forall _ _) Hpre x Hin).
Qed.

(** The tags of the tree with the style tag, in order. *)
Lemma add_style_shape (selected_tags : list string) (t t' : soup) :
  add_style selected_tags t = Ok t' →
  match find "head" t with
  | Some h =>
      ∃ pre a c post,
        h = Tag "head" a c
        ∧ names t = pre ++ "head" :: names c ++ post
        ∧ names t' = pre ++ "head" :: names c ++ "style" :: post
        ∧ "head" ∉ pre
  | None =>
      ∃ pre a c post,
        find "html" t = Some (Tag "html" a c)
        ∧ names t = pre ++ "html" :: names c ++ post
        ∧ names t' = pre ++ "html" :: "head" :: "style" :: names c ++ post
        ∧ "html" ∉ pre
  end.
Proof.
  unfold add_style. destruct (find "head" t) as [h|] eqn:Hhead.
  - intros [= <-].
    destruct (find_Some_update "head" (append (style_tag selected_tags)) t h Hhead)
      as [Hup _].
    destruct (updated_shape _ _ _ _ Hup) as (pre & a & c & post & H0 & H1 & H2 & Hpre).
    unfold find in Hhead. fold (first_named "head" (find_all t)) in Hhead.
    rewrite Hhead in H0. injection H0 as ->.
    exists pre, a, c, post. unfold names in *. rewrite H1, H2.
    cbn [append]. rewrite tags_of_Tag, find_all_app. cbn [map tag_name].
    rewrite map_app.
    change (find_all [style_tag selected_tags]) with [style_tag selected_tags].
    cbn [map tag_name style_tag set_string new_tag].
    split_and!; [done..| |done]. by simplify_list_eq.
  - destruct (find "html" t) as [h|] eqn:Hhtml; [|done].
    intros [= <-].
    destruct (find_Some_update "html"
                (insert0 (Tag "head" EmptyString [style_tag selected_tags])) t h Hhtml)
      as [Hup _].
    destruct (updated_shape _ _ _ _ Hup) as (pre & a & c & post & H0 & H1 & H2 & Hpre).
    unfold find in Hhtml. fold (first_named "html" (find_all t)) in Hhtml.
    rewrite Hhtml in H0. injection H0 as ->.
    exists pre, a, c, post. unfold names in *. rewrite H1, H2.
    cbn [insert0]. rewrite !tags_of_Tag.
    cbn [map find_all app]. rewrite !tags_of_Tag, map_app.
    change (find_all [style_tag selected_tags]) with [style_tag selected_tags].
    cbn [map tag_name style_tag set_string new_tag app].
    split_and!; done.
Qed.

(** What a call of [modify_html] that goes through has read and
    written. *)
Lemma modify_html_try_effects (E : env) (app : App)
    (selected_tags : list string) (s s1 : state) :
  modify_html_try E BeautifulSoup app selected_tags s = (Ok (), s1) →
  let f := html_file app in
  ∃ bytes t t',
    fault E OpRead f = None
    ∧ files (os s) !! f = Some bytes
    ∧ BeautifulSoup (universal_newlines bytes) = Ok t
    ∧ add_style selected_tags t = Ok t'
    ∧ files (os s1) !! f = Some (decode t')
    ∧ f ≠ backup_target (os s) f
    ∧ files (os s1) !! backup_target (os s) f = Some bytes
    ∧ (dirs (os s1) = dirs (os s)
       ∨ dirs (os s1) = {[backup_dir_of f]} ∪ dirs (os s)).
Proof.
  intros Hrun f. subst f. revert Hrun. run. intros Hrun.
  repeat (case_match; simplify_eq/=).
  all: repeat match goal with H : decide _ = _ |- _ => clear H end.
  all: rewrite ?(backup_target_makedirs BeautifulSoup), ?backup_target_unfold in *.
  all: eexists _, _, _; split_and!;
    [done | eassumption | eassumption | eassumption | lookups | done
    | lookups | by auto].
Qed.

(** When [modify_html] goes through: the tree written out has the
    tags of the tree that was read, in their order, with those put in
    for the style sheet and nothing else.  With a head in the tree,
    that is one style tag, right after the first head tag and the tags
    in it; without one, a head tag and a style tag right after the
    first html tag, before the tags in it.  No tag is lost, doubled,
    renamed or moved. *)
Theorem augmentation_inserts_only_the_style (E : env) (app : App)
    (selected_tags : list string) (s s1 : state) :
  modify_html_try E BeautifulSoup app selected_tags s = (Ok (), s1) →
  ∃ bytes t t',
    files (os s) !! html_file app = Some bytes
    ∧ BeautifulSoup (universal_newlines bytes) = Ok t
    ∧ files (os s1) !! html_file app = Some (decode t')
    ∧ match find "head" t with
      | Some h =>
          ∃ pre a c post,
            h = Tag "head" a c
            ∧ names t = pre ++ "head" :: names c ++ post
            ∧ names t' = pre ++ "head" :: names c ++ "style" :: post
            ∧ "head" ∉ pre
      | None =>
          ∃ pre a c post,
            find "html" t = Some (Tag "html" a c)
            ∧ names t = pre ++ "html" :: names c ++ post
            ∧ names t' = pre ++ "html" :: "head" :: "style" :: names c ++ post
            ∧ "html" ∉ pre
      end.
Proof.
  intros Hrun.
  destruct (modify_html_try_effects _ _ _ _ _ Hrun)
    as (bytes & t & t' & _ & Hb & Hp & Hadd & Hdoc & _).
  exists bytes, t, t'. split_and!; [done..|].
  by apply add_style_shape with selected_tags.
Qed.

(** The backup lands in the same place on a second call. *)
Lemma backup_target_again (w w1 : world) (file : string) :
  dirs w1 = dirs w ∨ dirs w1 = {[backup_dir_of file]} ∪ dirs w →
  backup_target w1 file = backup_target w file.
Proof.
  intros Hd. unfold backup_target, copy2_target.
  pose proof (backup_file_not_dir file) as Hne.
  destruct Hd as [-> | ->]; [done|].
  repeat case_decide; try done; set_solver.
Qed.

(** How many tags of a list have the name [name]. *)
Definition tag_count (name : string) (l : list string) : nat :=
  length (filter (λ x, x = name) l).

Lemma tag_count_app (name : string) (l1 l2 : list string) :
  tag_count name (l1 ++ l2) = (tag_count name l1 + tag_count name l2)%nat.
Proof. unfold tag_count. by rewrite filter_app, List.length_app. Qed.

Lemma style_count (selected_tags : list string) (t t' : soup) :
  add_style selected_tags t = Ok t' →
  tag_count "style" (names t') = S (tag_count "style" (names t)).
Proof.
  intros H. pose proof (add_style_shape _ _ _ H) as Hs.
  destruct (find "head" t) as [h|] eqn:Hh.
  - destruct Hs as (pre & a & c & post & _ & -> & -> & _).
    change (pre ++ "head" :: names c ++ "style" :: post)
      with (pre ++ ["head"] ++ names c ++ ["style"] ++ post).
    change (pre ++ "head" :: names c ++ post)
      with (pre ++ ["head"] ++ names c ++ post).
    rewrite !tag_count_app. change (tag_count "style" ["style"]) with 1%nat.
    lia.
  - destruct Hs as (pre & a & c & post & _ & -> & -> & _).
    change (pre ++ "html" :: "head" :: "style" :: names c ++ post)
      with (pre ++ ["html"; "head"; "style"] ++ names c ++ post).
    change (pre ++ "html" :: names c ++ post)
      with (pre ++ ["html"] ++ names c ++ post).
    rewrite !tag_count_app.
    change (tag_count "style" ["html"; "head"; "style"]) with 1%nat.
    change (tag_count "style" ["html"]) with 0%nat. lia.
Qed.

(** Applying again: the call does not look for a style tag put in
    before.  A second call that goes through reads what the first one
    wrote and writes a tree with one more style tag than it has read;
    and it writes its backup over the first one, so that the backup is
    then the document as the first call left it, not the document as
    it was at the beginning. *)
Theorem applying_again_adds_a_style_tag (E E' : env) (s s1 s2 : state) :
  let f := html_file (self s) in
  let b := backup_target (os s) f in
  modify_html_try E BeautifulSoup (self s) (selected_items (self s)) s
  = (Ok (), s1) →
  modify_html_try E' BeautifulSoup (self s1) (selected_items (self s1)) s1
  = (Ok (), s2) →
  ∃ bytes doc1 t1 t1',
    files (os s) !! f = Some bytes
    ∧ files (os s1) !! f = Some doc1
    ∧ files (os s1) !! b = Some bytes
    ∧ html_file (self s1) = f
    ∧ selected_items (self s1) = selected_items (self s)
    ∧ BeautifulSoup (universal_newlines doc1) = Ok t1
    ∧ files (os s2) !! f = Some (decode t1')
    ∧ tag_count "style" (names t1') = S (tag_count "style" (names t1))
    ∧ files (os s2) !! b = Some doc1.
Proof.
  intros f b Hrun1 Hrun2. subst f b.
  destruct (modify_html_try_effects _ _ _ _ _ Hrun1)
    as (bytes & t & t' & _ & Hb & _ & _ & Hdoc & _ & Hbak & Hdirs).
  assert (only_console s s1) as [msgs Hself].
  { pose proof (modify_html_try_only_console E BeautifulSoup (self s)
                  (selected_items (self s)) s) as Hm.
    by rewrite Hrun1 in Hm. }
  assert (html_file (self s1) = html_file (self s)) as Hfile
    by (by rewrite Hself).
  assert (selected_items (self s1) = selected_items (self s)) as Hsel
    by (by rewrite Hself).
  destruct (modify_html_try_effects _ _ _ _ _ Hrun2)
    as (bytes2 & t1 & t1' & _ & Hb2 & Hp2 & Hadd2 & Hdoc2 & _ & Hbak2 & _).
  rewrite Hfile in Hb2, Hdoc2, Hbak2.
  rewrite (backup_target_again _ _ _ Hdirs) in Hbak2.
  rewrite Hdoc in Hb2. injection Hb2 as <-.
  exists bytes, (decode t'), t1, t1'. split_and!; try done.
  by apply style_count with (selected_items (self s1)).
Qed.

End tags_after_augmentation.

(** ** The text of the style tag in the document *)

Section style_text.
Import Str bs4.
Variable E : env.
Variable BeautifulSoup : string → result soup.

(** [x] is a part of [s]. *)
Definition occurs (x s : string) : Prop := ∃ p q, s = p +:+ x +:+ q.

Lemma occurs_app_l (x a b : string) : occurs x a → occurs x (a +:+ b).
Proof. intros (p & q & ->). exists p, (q +:+ b). by rewrite !app_assoc. Qed.

Lemma occurs_app_r (x a b : string) : occurs x b → occurs x (a +:+ b).
Proof. intros (p & q & ->). exists (a +:+ p), q. by rewrite !app_assoc. Qed.

Lemma occurs_refl (x : string) : occurs x x.
Proof. exists EmptyString, EmptyString. by rewrite app_nil_l, app_nil_r. Qed.

Lemma style_tag_text (selected_tags : list string) (raw : bool) :
  decode_node raw (style_tag selected_tags)
  = "<style>" +:+ css selected_tags +:+ "</style>".
Proof.
  unfold style_tag, set_string, new_tag. rewrite decode_node_Tag.
  change (cdata_containing "style") with true.
  cbn [decode_all decode_node]. by rewrite app_nil_r, app_nil_l.
Qed.

Lemma occurs_in_Tag (x : string) (raw : bool) (n a : string) (c : list node) :
  occurs x (decode_all (cdata_containing n) c) → c ≠ [] →
  occurs x (decode_node raw (Tag n a c)).
Proof.
  intros H Hc. rewrite decode_node_Tag. destruct c as [|y c]; [done|].
  do 4 apply occurs_app_r. by apply occurs_app_l.
Qed.

Lemma update_forest_occurs_of (x name : string) (f : node → node) (l : soup) :
  Forall (λ y, ∀ raw y', update_tag name f y = Some y' →
               occurs x (decode_node raw y')) l →
  ∀ raw l', update_forest name f l = Some l' →
            occurs x (decode_all raw l') ∧ l' ≠ [].
Proof.
  induction 1 as [|y l Hy _ IH]; intros raw l'; [done|].
  cbn [update_forest].
  destruct (update_tag name f y) as [y'|] eqn:Hup.
  - intros [= <-]. split; [|done]. cbn [decode_all].
    by apply occurs_app_l, Hy.
  - destruct (update_forest name f l) as [l1|]; [|done].
    intros [= <-]. split; [|done]. cbn [decode_all].
    by apply occurs_app_r, IH.
Qed.

Lemma update_tag_occurs (x name : string) (f : node → node) (y : node) :
  (∀ raw a c, occurs x (decode_node raw (f (Tag name a c)))) →
  ∀ raw y', update_tag name f y = Some y' → occurs x (decode_node raw y').
Proof.
  intros Hf.
  induction y as [m a c IH|s|s|s|s] using node_forall_ind; intros raw y';
    try done.
  rewrite update_tag_Tag. case_decide as Hm.
  - subst m. intros [= <-]. apply Hf.
  - destruct (update_forest name f c) as [c'|] eqn:Hup; [|done].
    intros [= <-].
    destruct (update_forest_occurs_of x name f c IH (cdata_containing m) c' Hup).
    by apply occurs_in_Tag.
Qed.

Lemma find_Some_update_forest (name : string) (f : node → node) (l : soup) :
  is_Some (find name l) → is_Some (update_forest name f l).
Proof.
  intros [h Hh]. pose proof (update_forest_ok_all name f l) as H.
  unfold update_forest_ok in H.
  destruct (update_forest name f l) as [l'|]; [done|].
  apply first_named_None in H. unfold find in Hh.
  fold (first_named name (find_all l)) in Hh. congruence.
Qed.

Lemma add_style_occurs (selected_tags : list string) (t t' : soup) :
  add_style selected_tags t = Ok t' →
  occurs ("<style>" +:+ css selected_tags +:+ "</style>") (decode t').
Proof.
  set (x := "<style>" +:+ css selected_tags +:+ "</style>").
  assert (∀ name f l,
            (∀ raw a c, occurs x (decode_node raw (f (Tag name a c)))) →
            is_Some (find name l) → occurs x (decode (update_first name f l)))
    as Hup.
  { intros name f l Hf Hfind. unfold update_first.
    destruct (find_Some_update_forest name f l Hfind) as [l' Hl']. rewrite Hl'.
    rewrite decode_decode_all.
    apply (update_forest_occurs_of x name f l); [|done].
    apply Forall_forall. intros y _. by apply update_tag_occurs. }
  assert (∀ raw, occurs x (decode_all raw [style_tag selected_tags])) as Hst.
  { intros raw. cbn [decode_all]. rewrite style_tag_text, app_nil_r.
    apply occurs_refl. }
  unfold add_style. destruct (find "head" t) as [h|] eqn:Hhead.
  - intros [= <-]. apply Hup; [|by rewrite Hhead].
    intros raw a c. cbn [append]. apply occurs_in_Tag; [|by destruct c].
    rewrite decode_all_app. by apply occurs_app_r.
  - destruct (find "html" t) as [h|] eqn:Hhtml; [|done].
    intros [= <-]. apply Hup; [|by rewrite Hhtml].
    intros raw a c. cbn [insert0]. apply occurs_in_Tag; [|done].
    cbn [decode_all]. by apply occurs_app_l, occurs_in_Tag.
Qed.

(** When [modify_html] goes through, the document it has written
    holds the style element with the style sheet as it stands, not
    escaped: the opening tag, the text made of the font name and of
    the selected tags joined by a comma and a space, the closing tag. *)
Theorem style_sheet_is_written_as_it_stands (app : App)
    (selected_tags : list string) (s s1 : state) :
  modify_html_try E BeautifulSoup app selected_tags s = (Ok (), s1) →
  ∃ before after,
    files (os s1) !! html_file app
    = Some (before +:+ ("<style>" +:+ css selected_tags +:+ "</style>") +:+ after).
Proof.
  intros Hrun.
  destruct (modify_html_try_writes E BeautifulSoup _ _ _ _ Hrun)
    as (bytes & t & t' & _ & _ & _ & Hadd & Hdoc & _).
  destruct (add_style_occurs _ _ _ Hadd) as (p & q & Hpq).
  exists p, q. by rewrite Hdoc, Hpq.
Qed.

End style_text.

(** ** The number of tags reported *)

Section reported_count.
Import Str bs4 htmlparser.
Variable E : env.

Lemma filter_all {A} (P : A → Prop) `{∀ x, Decision (P x)} (l : list A) :
  Forall P l → filter P l = l.
Proof.
  induction 1 as [|x l Hx _ IH]; [done|].
  by rewrite filter_cons_True, IH.
Qed.

(** With this parser no tag has the empty name, so that no name is
    left out of the list. *)
Lemma tag_items_all (markup : string) (t : soup) :
  BeautifulSoup markup = Ok t → length (tag_items t) = size (tag_set t).
Proof.
  intros Hp. unfold tag_items. rewrite filter_all.
  - unfold sorted. by rewrite merge_sort_Permutation.
  - apply Forall_forall. intros x Hx. unfold sorted in Hx.
    rewrite merge_sort_Permutation in Hx.
    apply elem_of_elements, elem_of_list_to_set in Hx.
    pose proof (BeautifulSoup_names _ _ Hp) as Hn.
    destruct (proj1 (Forall_forall _ _) Hn x Hx) as [[Hne _] _].
    destruct x; [done | simpl; lia].
Qed.

(** When the document can be read and parsed, the number in the
    message [load_html_tags] adds is the number of rows it has put in
    the tag list. *)
Theorem reported_count_is_the_number_of_rows (s : state) (bytes : string)
    (t : soup) :
  fault E OpRead (html_file (self s)) = None →
  files (os s) !! html_file (self s) = Some bytes →
  BeautifulSoup (universal_newlines bytes) = Ok t →
  let s' := (load_html_tags E BeautifulSoup s).2 in
  console (self s')
  = console (self s)
    ++ ["🏷️ Etiquetas encontradas: " +:+ pretty (length (tags_list (self s')))].
Proof.
  intros Hf Hb Hp s'. subst s'. rewrite load_html_tags_cases.
  unfold read_document. rewrite Hf, Hb, Hp. cbn.
  by rewrite length_map, (tag_items_all _ _ Hp).
Qed.

End reported_count.

(** ** The output path in the script *)

Section output_path.
Import Str Script.

Lemma replace_from_absent (old new s : string) :
  contains old s = false → replace_from old new s 0 = s.
Proof.
  induction s as [|c s IH]; [done|].
  rewrite contains_unfold. intros [Hs Hc]%orb_false_iff.
  cbn [replace_from]. rewrite Hs. by rewrite IH.
Qed.

(** An output path without two backslashes in a row goes into the
    [Generate] line as it is given: a single backslash is not turned
    into a slash, and nothing in the path is escaped. *)
Theorem output_path_goes_in_as_given (output_file : string) :
  contains "\\" output_file = false →
  generate_fontforge_script output_file
  = script_before +:+ output_file +:+ script_after.
Proof.
  intros H. rewrite script_split. unfold output_token, replace.
  by rewrite replace_from_absent.
Qed.

End output_path.

(** ** The properties on example runs *)

(** A machine with one glyph file and no compiler. *)
Definition without_compiler : world :=
  {| files := {[ "/glyphs/a.svg" := "<svg/>" ]};
     dirs := {[ "/glyphs"; "/tmp/fg" ]};
     journal := [] |}.


Lemma generate_font_without_compiler_witness :
  let s := (select_svg_folder Examples.calm "/glyphs" (Examples.fresh without_compiler)).2 in
  ∃ s',
    generate_font Examples.calm "out.ttf" s = (Ok (), s')
    ∧ journal (os s')
      = [ EvTruncate "/tmp/fg/generate_font.pe"
        ; EvWrite "/tmp/fg/generate_font.pe" (Script.generate_fontforge_script "out.ttf") ].
Proof.
  intros s.
  destruct (generate_font_without_compiler Examples.calm "out.ttf" s)
    as (s' & Hrun & _ & Hj & _).
  - by vm_compute.
  - by vm_compute.
  - by vm_compute.
  - reflexivity.
  - reflexivity.
  - exists s'. split; [exact Hrun|]. rewrite Hj. vm_compute. reflexivity.
Defined.

Lemma select_html_file_loads_the_tags_witness :
  let s := Examples.fresh (Examples.site Examples.page) in
  let s' := (select_html_file Examples.calm htmlparser.BeautifulSoup
               "/site/index.html" s).2 in
  modify_btn (self s') = true
  ∧ tags_list (self s')
    = [("body", false); ("div", false); ("html", false); ("p", false)].
Proof.
  intros s s'.
  destruct (select_html_file_loads_the_tags Examples.calm htmlparser.BeautifulSoup
              "/site/index.html" s)
    as (_ & _ & _ & _ & Hm & _).
  - by vm_compute.
  - vm_compute in Hm |- *. exact Hm.
Defined.

Lemma closeEvent_clears_the_temporary_directory_witness :
  let s := (generate_font Examples.calm "out.ttf"
              (select_svg_folder Examples.calm "/glyphs"
                 (Examples.fresh (Examples.glyphs ["a.svg"]))).2).2 in
  let s' := (closeEvent (λ _, false) (λ _, true) s).2 in
  files (os s) !! "/tmp/fg/generate_font.pe"
  = Some (Script.generate_fontforge_script "out.ttf")
  ∧ files (os s') !! "/tmp/fg/generate_font.pe" = None
  ∧ files (os s') !! "/glyphs/a.svg" = Some "<svg/>".
Proof.
  intros s s'.
  destruct (closeEvent_clears_the_temporary_directory (λ _, false) (λ _, true) s)
    as (_ & _ & _ & Hout & _ & Hin).
  split; [vm_compute; reflexivity|]. split.
  - destruct Hin as [_ H];
      [ by vm_compute | apply (bool_decide_unpack _); by vm_compute
      | by vm_compute | reflexivity | exact H ].
  - destruct (Hout "/glyphs/a.svg") as [H _]; [by vm_compute|].
    unfold s'. rewrite H. vm_compute. reflexivity.
Defined.

Lemma augmentation_inserts_only_the_style_witness :
  let s := Examples.chosen "/site/index.html" [1; 3] (Examples.site Examples.page) in
  let s1 := (modify_html_try Examples.calm htmlparser.BeautifulSoup (self s)
               (selected_items (self s)) s).2 in
  ∃ t',
    files (os s1) !! "/site/index.html" = Some (bs4.decode t')
    ∧ names t' = ["html"; "head"; "style"; "body"; "div"; "p"].
Proof.
  intros s s1.
  destruct (augmentation_inserts_only_the_style htmlparser.BeautifulSoup
              Examples.calm (self s) (selected_items (self s)) s s1)
    as (bytes & t & t' & Hb & Hp & Hdoc & Hshape).
  - vm_compute. reflexivity.
  - exists t'. split; [exact Hdoc|].
    assert (bytes = Examples.page) as ->
      by (vm_compute in Hb; by injection Hb as <-).
    assert (t = [Tag "html" EmptyString
                   [Tag "body" EmptyString
                      [Tag "div" EmptyString [Tag "p" EmptyString []]]]]) as ->
      by (vm_compute in Hp; by injection Hp as <-).
    change (bs4.find "head" _) with (@None node) in Hshape.
    destruct Hshape as (pre & a & c & post & Hhtml & Hn & Hn' & Hpre).
    vm_compute in Hhtml. injection Hhtml as <- <-.
    change (names _) with ["html"; "body"; "div"; "p"] in Hn at 1.
    change (names [Tag "body" _ _]) with ["body"; "div"; "p"] in Hn, Hn'.
    destruct pre as [|x pre].
    + injection Hn as <-. exact Hn'.
    + injection Hn as <- _. destruct Hpre. apply elem_of_cons. by left.
Defined.

Lemma applying_again_adds_a_style_tag_witness :
  let s := Examples.chosen "/site/index.html" [1; 3] (Examples.site Examples.page) in
  let s1 := (modify_html_try Examples.calm htmlparser.BeautifulSoup (self s)
               (selected_items (self s)) s).2 in
  let s2 := (modify_html_try Examples.calm htmlparser.BeautifulSoup (self s1)
               (selected_items (self s1)) s1).2 in
  ∃ doc1,
    files (os s1) !! "/site/index.html" = Some doc1
    ∧ files (os s1) !! "/site/backups/index.html" = Some Examples.page
    ∧ files (os s2) !! "/site/backups/index.html" = Some doc1
    ∧ doc1 ≠ Examples.page.
Proof.
  intros s s1 s2.
  destruct (applying_again_adds_a_style_tag htmlparser.BeautifulSoup
              Examples.calm Examples.calm s s1 s2)
    as (bytes & doc1 & t1 & t1' & Hb & Hd1 & Hb1 & _ & _ & _ & _ & _ & Hb2).
  - vm_compute. reflexivity.
  - vm_compute. reflexivity.
  - assert (bytes = Examples.page) as ->
      by (vm_compute in Hb; by injection Hb as <-).
    exists doc1. split; [exact Hd1|]. split; [exact Hb1|]. split; [exact Hb2|].
    intros ->. vm_compute in Hd1. discriminate Hd1.
Defined.

Lemma style_sheet_is_written_as_it_stands_witness :
  let s := Examples.chosen "/site/index.html" [1; 3] (Examples.site Examples.page) in
  let s1 := (modify_html_try Examples.calm htmlparser.BeautifulSoup (self s)
               ["div"; "p"] s).2 in
  ∃ before after,
    files (os s1) !! html_file (self s)
    = Some (before +:+ ("<style>" +:+ css ["div"; "p"] +:+ "</style>") +:+ after).
Proof.
  intros s s1.
  apply (style_sheet_is_written_as_it_stands Examples.calm htmlparser.BeautifulSoup
           (self s) ["div"; "p"] s s1).
  vm_compute. reflexivity.
Defined.

Lemma reported_count_is_the_number_of_rows_witness :
  let s := Examples.chosen "/site/index.html" [] (Examples.site Examples.page) in
  let s' := (load_html_tags Examples.calm htmlparser.BeautifulSoup s).2 in
  length (tags_list (self s')) = 4
  ∧ last (console (self s')) = Some "🏷️ Etiquetas encontradas: 4".
Proof.
  intros s s'. split; [by vm_compute|].
  pose proof (reported_count_is_the_number_of_rows Examples.calm s Examples.page
                [Tag "html" EmptyString
                   [Tag "body" EmptyString
                      [Tag "div" EmptyString [Tag "p" EmptyString []]]]]) as H.
  fold s' in H. rewrite H.
  - rewrite last_snoc. vm_compute. reflexivity.
  - reflexivity.
  - by vm_compute.
  - by vm_compute.
Defined.

Lemma output_path_goes_in_as_given_witness :
  Script.generate_fontforge_script "C:\fonts\out.ttf"
  = Script.script_before +:+ "C:\fonts\out.ttf" +:+ Script.script_after.
Proof.
  apply output_path_goes_in_as_given. by vm_compute.
Defined.
